(** * LocalProxyService: a verified model of the local reverse proxy engine

    The development embeds [LocalProxyService.ts] (route registry, port
    selection, lifecycle, request dispatch, event bus) as executable Rocq
    definitions and proves the properties of the specification about them.

    Conventions of the embedding.
    - JavaScript strings are [string]; every character class of the two
      regular expressions of the source is ASCII, so a character outside
      ASCII behaves the same whether it is read as UTF-16 units or as bytes:
      it is in no class.
    - Port numbers ([number]) are [Z]; [number | null] is [option Z].
    - The [Map<string, ProxyRoute>] is an association list in insertion
      order, as [Array.from(map.values())] observes it.
    - Operating-system and platform behaviour (which binds succeed, the
      clock, which request options [http.request] refuses) is a [World]
      passed to every operation.  A port outside 0..65535 makes the
      platform throw; an operation that can throw returns a sum.
    - Every public operation runs to completion before the next one starts
      (one caller awaiting each call); subscribers only record what they
      receive.  The one call that the source does not await, the
      [addRoute] of the preview listener, is modelled in two steps, with its
      suspension at the implicit start.
    - The second part covers the names that [proxyIntegration.ts] derives
      from task ids and the listener it registers. *)

From Stdlib Require Import String Ascii List ZArith Bool Arith Lia.
From Stdlib Require Import DecimalString.
From Stdlib Require Decimal DecimalPos.
Import ListNotations.

Local Open Scope string_scope.
Local Open Scope list_scope.

Set Implicit Arguments.

(** String concatenation, kept apart from list append. *)
Infix "+++" := String.append (right associativity, at level 60).

(* ================================================================== *)
(** ** Regular expressions (the fragment of ECMAScript the source uses) *)
(* ================================================================== *)

Module Regex.

(** Abstract syntax.  [Group i r] is the capturing group whose opening
    parenthesis is the [i]-th of the pattern. *)
Inductive RegExp : Type :=
| Empty
| Chr (c : ascii)                          (* a literal, also an escaped one *)
| Class (ranges : list (ascii * ascii))    (* [a-z0-9-] ; \d is [0-9] *)
| Seq (r1 r2 : RegExp)
| Star (r : RegExp)                        (* r*  greedy *)
| Plus (r : RegExp)                        (* r+  greedy *)
| Opt (r : RegExp)                         (* r?  greedy *)
| Group (i : nat) (r : RegExp)
| Bol                                      (* ^ without the m flag *)
| Eol.                                     (* $ without the m flag *)

Definition in_range (a : ascii) (rg : ascii * ascii) : bool :=
  Nat.leb (nat_of_ascii (fst rg)) (nat_of_ascii a)
  && Nat.leb (nat_of_ascii a) (nat_of_ascii (snd rg)).

Definition in_class (ranges : list (ascii * ascii)) (a : ascii) : bool :=
  existsb (in_range a) ranges.

Definition Captures := list (nat * list ascii).

(** A position in the input: how many characters lie before it, what is
    left, and what the groups hold. *)
Record MState : Type := mkMState {
  consumed : nat;
  rest : list ascii;
  caps : Captures
}.

Definition Cont := MState -> option MState.

Fixpoint groupsOf (r : RegExp) : list nat :=
  match r with
  | Seq r1 r2 => groupsOf r1 ++ groupsOf r2
  | Star r1 | Plus r1 | Opt r1 => groupsOf r1
  | Group i r1 => i :: groupsOf r1
  | _ => []
  end.

Definition mem_nat (i : nat) (l : list nat) : bool := existsb (Nat.eqb i) l.

(** Entering an iteration of a quantifier forgets the groups inside it. *)
Definition clearCaps (gs : list nat) (st : MState) : MState :=
  mkMState (consumed st) (rest st)
           (filter (fun ic => negb (mem_nat (fst ic) gs)) (caps st)).

Definition setCap (i : nat) (from to : MState) : MState :=
  mkMState (consumed to) (rest to)
           ((i, firstn (consumed to - consumed from) (rest from)) :: caps to).

Fixpoint getCap (i : nat) (cs : Captures) : option (list ascii) :=
  match cs with
  | [] => None
  | (j, s) :: cs' => if Nat.eqb i j then Some s else getCap i cs'
  end.

Definition advance (st : MState) (t : list ascii) : MState :=
  mkMState (S (consumed st)) t (caps st).

(** An iteration that consumed nothing is rejected, as RepeatMatcher does. *)
Definition progressed (st st' : MState) : bool :=
  Nat.ltb (length (rest st')) (length (rest st)).

Fixpoint starLoop (gs : list nat) (body : Cont -> MState -> option MState)
         (fuel : nat) (k : Cont) (st : MState) : option MState :=
  match fuel with
  | O => k st
  | S fuel' =>
      match body (fun st' => if progressed st st' then starLoop gs body fuel' k st'
                             else None)
                 (clearCaps gs st) with
      | Some fin => Some fin
      | None => k st
      end
  end.

(** The backtracking matcher, in continuation-passing style: [m r k st]
    matches [r] at [st] and hands every end position, in priority order,
    to [k] until [k] accepts one. *)
Fixpoint m (r : RegExp) (k : Cont) (st : MState) : option MState :=
  match r with
  | Empty => k st
  | Chr c =>
      match rest st with
      | a :: t => if Ascii.eqb a c then k (advance st t) else None
      | [] => None
      end
  | Class rs =>
      match rest st with
      | a :: t => if in_class rs a then k (advance st t) else None
      | [] => None
      end
  | Seq r1 r2 => m r1 (m r2 k) st
  | Star r1 => starLoop (groupsOf r1) (m r1) (length (rest st)) k st
  | Plus r1 =>
      m r1 (fun st1 => starLoop (groupsOf r1) (m r1) (length (rest st1)) k st1)
        (clearCaps (groupsOf r1) st)
  | Opt r1 =>
      match m r1 (fun st' => if progressed st st' then k st' else None)
              (clearCaps (groupsOf r1) st) with
      | Some fin => Some fin
      | None => k st
      end
  | Group i r1 => m r1 (fun st' => k (setCap i st st')) st
  | Bol => if Nat.eqb (consumed st) 0 then k st else None
  | Eol => match rest st with [] => k st | _ :: _ => None end
  end.

(** The search of RegExpBuiltinExec: the pattern is tried at position 0,
    then 1, and so on up to the end of the input. *)
Fixpoint searchFrom (r : RegExp) (pos : nat) (input : list ascii) : option MState :=
  match m r Some (mkMState pos input []) with
  | Some fin => Some fin
  | None =>
      match input with
      | [] => None
      | _ :: t => searchFrom r (S pos) t
      end
  end.

Definition exec (r : RegExp) (s : string) : option Captures :=
  option_map caps (searchFrom r 0 (list_ascii_of_string s)).

(** [re.test(s)] *)
Definition test (r : RegExp) (s : string) : bool :=
  match exec r s with Some _ => true | None => false end.

(** [s.match(re)] for a pattern without the g flag; [group i] of the result
    is [match[i]] ([None] when the group did not take part). *)
Definition group (i : nat) (cs : Captures) : option string :=
  option_map string_of_list_ascii (getCap i cs).

Fixpoint ofString (s : list ascii) : RegExp :=
  match s with
  | [] => Empty
  | c :: s' => Seq (Chr c) (ofString s')
  end.

(** What the matcher computes, as a relation: [Steps r st st'] when [r]
    can match from position [st] to position [st'].  The matcher tries
    these ends in its priority order. *)
Inductive Steps : RegExp -> MState -> MState -> Prop :=
| Steps_Empty st : Steps Empty st st
| Steps_Chr c st t :
    rest st = c :: t -> Steps (Chr c) st (advance st t)
| Steps_Class rs a st t :
    rest st = a :: t -> in_class rs a = true -> Steps (Class rs) st (advance st t)
| Steps_Seq r1 r2 st st1 st2 :
    Steps r1 st st1 -> Steps r2 st1 st2 -> Steps (Seq r1 r2) st st2
| Steps_Star_done r st : Steps (Star r) st st
| Steps_Star_more r st st1 st2 :
    Steps r (clearCaps (groupsOf r) st) st1 ->
    progressed st st1 = true ->
    Steps (Star r) st1 st2 ->
    Steps (Star r) st st2
| Steps_Plus r st st1 st2 :
    Steps r (clearCaps (groupsOf r) st) st1 ->
    Steps (Star r) st1 st2 ->
    Steps (Plus r) st st2
| Steps_Opt_skip r st : Steps (Opt r) st st
| Steps_Opt_take r st st1 :
    Steps r (clearCaps (groupsOf r) st) st1 ->
    progressed st st1 = true ->
    Steps (Opt r) st st1
| Steps_Group i r st st1 :
    Steps r st st1 -> Steps (Group i r) st (setCap i st st1)
| Steps_Bol st : consumed st = 0 -> Steps Bol st st
| Steps_Eol st : rest st = [] -> Steps Eol st st.

(** [st'] lies [l] further than [st], with the same groups. *)
Definition ahead (st : MState) (l : list ascii) (st' : MState) : Prop :=
  rest st = l ++ rest st' /\ consumed st' = consumed st + length l
  /\ caps st' = caps st.

End Regex.

Import Regex.

(** [const SLUG_RE = /^[a-z0-9]([a-z0-9-]*[a-z0-9])?$/] *)
Definition alnum : list (ascii * ascii) := [("a"%char, "z"%char); ("0"%char, "9"%char)].
Definition alnumHyphen : list (ascii * ascii) :=
  [("a"%char, "z"%char); ("0"%char, "9"%char); ("-"%char, "-"%char)].
Definition digit : list (ascii * ascii) := [("0"%char, "9"%char)].

Definition SLUG_RE : RegExp :=
  Seq Bol
 (Seq (Class alnum)
 (Seq (Opt (Group 1 (Seq (Star (Class alnumHyphen)) (Class alnum))))
      Eol)).

(** [/^([a-z0-9][a-z0-9-]*[a-z0-9]?)\.localhost(:\d+)?$/], with names for
    the inside of its two groups. *)
Definition hostLabel : RegExp :=
  Seq (Class alnum) (Seq (Star (Class alnumHyphen)) (Opt (Class alnum))).

Definition portGroup : RegExp :=
  Opt (Group 2 (Seq (Chr ":"%char) (Plus (Class digit)))).

Definition dotLocalhost : list ascii := list_ascii_of_string ".localhost".

Definition HOST_RE : RegExp :=
  Seq Bol
 (Seq (Group 1 hostLabel)
 (Seq (ofString dotLocalhost)
 (Seq portGroup
      Eol))).

(* ================================================================== *)
(** ** Shared types ([@shared/proxy]) *)
(* ================================================================== *)

Module ProxyRouteStatus.
Inductive t : Type := starting | running | stopped | error.
End ProxyRouteStatus.

Module ProxyRoute.
Record t : Type := mk {
  name : string;
  targetPort : Z;
  targetHost : string;
  status : ProxyRouteStatus.t;
  taskId : option string;
  url : string;
  registeredAt : string;
  lastAccessed : option string
}.

Definition with_status (r : t) (st : ProxyRouteStatus.t) : t :=
  mk (name r) (targetPort r) (targetHost r) st (taskId r) (url r)
     (registeredAt r) (lastAccessed r).

Definition with_lastAccessed (r : t) (ts : string) : t :=
  mk (name r) (targetPort r) (targetHost r) (status r) (taskId r) (url r)
     (registeredAt r) (Some ts).
End ProxyRoute.

Module ProxyState.
Record t : Type := mk {
  running : bool;
  port : option Z;
  routes : list ProxyRoute.t
}.
End ProxyState.

Module ProxyEventType.
Inductive t : Type :=
  started | stopped | route_added | route_removed | route_status | error.
End ProxyEventType.

Module ProxyEvent.
Record t : Type := mk {
  type : ProxyEventType.t;
  route : option ProxyRoute.t;
  error : option string;
  timestamp : string
}.
End ProxyEvent.

(* ================================================================== *)
(** ** JavaScript values the service relies on *)
(* ================================================================== *)

(** The double quote character (code 34), for the literals that contain it. *)
Definition dq : string := String (ascii_of_nat 34) EmptyString.

(** [`${n}`] for an integer [number]. *)
Definition Number_toString (n : Z) : string := NilZero.string_of_int (Z.to_int n).

(** [`${this.port}`] for a [number | null]. *)
Definition showPort (p : option Z) : string :=
  match p with
  | Some n => Number_toString n
  | None => "null"
  end.

(** Truthiness of a [number] that is an integer, and of a [string]. *)
Definition truthyNumber (n : Z) : bool := negb (Z.eqb n 0).
Definition truthyString (s : string) : bool :=
  match s with EmptyString => false | String _ _ => true end.

(** [a || b] on an optional string. *)
Definition orString (a : option string) (b : string) : string :=
  match a with
  | Some s => if truthyString s then s else b
  | None => b
  end.

(** A [Map<string, V>]: keys are unique and iteration follows insertion. *)
Section JsMap.
Variable V : Type.

Definition JsMap := list (string * V).

Fixpoint Map_get (k : string) (mp : JsMap) : option V :=
  match mp with
  | [] => None
  | (k', v) :: mp' => if String.eqb k k' then Some v else Map_get k mp'
  end.

Definition Map_has (k : string) (mp : JsMap) : bool :=
  match Map_get k mp with Some _ => true | None => false end.

Fixpoint Map_set (k : string) (v : V) (mp : JsMap) : JsMap :=
  match mp with
  | [] => [(k, v)]
  | (k', v') :: mp' =>
      if String.eqb k k' then (k', v) :: mp' else (k', v') :: Map_set k v mp'
  end.

Fixpoint Map_delete (k : string) (mp : JsMap) : JsMap :=
  match mp with
  | [] => []
  | (k', v') :: mp' =>
      if String.eqb k k' then mp' else (k', v') :: Map_delete k mp'
  end.

Definition Map_values (mp : JsMap) : list V := map snd mp.
End JsMap.

Arguments Map_get {V}.
Arguments Map_has {V}.
Arguments Map_set {V}.
Arguments Map_delete {V}.
Arguments Map_values {V}.

(** Header objects: own properties in insertion order. *)
Definition Headers := list (string * string).

Fixpoint setHeader (k v : string) (h : Headers) : Headers :=
  match h with
  | [] => [(k, v)]
  | (k', v') :: h' =>
      if String.eqb k k' then (k', v) :: h' else (k', v') :: setHeader k v h'
  end.

(** [http.IncomingMessage], as far as the service reads it. *)
Record IncomingMessage : Type := mkRequest {
  req_headers : Headers;
  req_url : option string;
  req_method : string;
  req_httpVersion : string
}.

Definition header_host (req : IncomingMessage) : option string :=
  Map_get "host" (req_headers req).

(* ================================================================== *)
(** ** The world outside and the observable effects *)
(* ================================================================== *)

(** Node checks a port before it binds or connects: for a number outside
    0..65535, [server.listen], [net.createConnection] and [http.request]
    throw at once, before anything is bound or sent, a RangeError whose code
    is ERR_SOCKET_BAD_PORT.  [http.request] throws a TypeError, earlier
    still, when the path, the method or a header is not legal. *)
Definition isLegalPort (p : Z) : bool := (0 <=? p)%Z && (p <=? 65535)%Z.

Inductive Exception : Type :=
| ERR_SOCKET_BAD_PORT (port : Z)
| TypeError (code : string).

(** The [AddressInfo] of a listening server: its port is the port of a
    socket address. *)
Record AddressInfo : Type := mkAddressInfo {
  ai_port : Z;
  ai_legal : isLegalPort ai_port = true
}.

Arguments mkAddressInfo : clear implicits.

(** Outcome of [server.listen(0, '127.0.0.1')] in the fallback: the server
    listens and [server.address()] is an [AddressInfo] ([Some a]) or not
    ([None]), or the server reports an error. *)
Inductive EphemeralResult : Type :=
| Listening (addr : option AddressInfo)
| ListenError.

Record RequestOptions : Type := mkRequestOptions {
  ro_hostname : string;
  ro_port : Z;
  ro_path : option string;
  ro_method : string;
  ro_headers : Headers
}.

Record World : Type := mkWorld {
  (** does [tryPort] resolve [true] for this port: a test listener binds on
      loopback and is released?  Asked for legal ports only. *)
  canBind : Z -> bool;
  ephemeral : EphemeralResult;
  (** the real [srv.listen(chosen)]: [None] when it listens, [Some msg]
      when it reports an error whose message is [msg] *)
  listen : Z -> option string;
  (** [new Date().toISOString()], by number of readings so far *)
  clock : nat -> string;
  (** the checks of [http.request] on path, method and headers: [Some code]
      when it throws a TypeError with that code *)
  illegalOptions : RequestOptions -> option string
}.

Definition Listener := nat.

Inductive Body : Type :=
| Text (s : string)
| RoutesJson (rs : list ProxyRoute.t)    (* JSON.stringify(this.getRoutes()) *)
| DashboardHtml.                          (* this.serveDashboard() *)

(** What the service does to the outside, in the order it does it. *)
Inductive Effect : Type :=
| Probe (p : Z)                              (* tryPort: bind and release *)
| ProbeEphemeral                             (* listen(0) and release *)
| Listen (p : Z)                             (* srv.listen(chosen, '127.0.0.1') *)
| CloseServer                                (* server.close *)
| Publish (evt : ProxyEvent.t)               (* this.emit('event', evt) *)
| Deliver (l : Listener) (evt : ProxyEvent.t)
| Respond (status : Z) (contentType : string) (body : Body)
| HttpRequest (opts : RequestOptions)        (* http.request to the backend *)
| ClientDestroy                              (* clientSocket.destroy() *)
| NetConnect (host : string) (p : Z).        (* net.createConnection *)

(* ================================================================== *)
(** ** class LocalProxyService *)
(* ================================================================== *)

Definition DEFAULT_PORTS : list Z := [9000; 9001; 9002; 9100]%Z.

Record Server : Type := mkServer { boundTo : Z }.

Record Service : Type := mkService {
  server : option Server;
  routes : JsMap ProxyRoute.t;
  port : option Z;
  (** the listeners of 'event', in registration order *)
  listeners : list Listener;
  (** how often the clock was read, and everything done to the outside *)
  ticks : nat;
  trace : list Effect
}.

Definition localProxyService : Service := mkService None [] None [] 0 [].

(** State passing: an operation maps the service to a result and the
    service afterwards. *)
Definition M (A : Type) : Type := Service -> A * Service.

Definition ret {A} (a : A) : M A := fun s => (a, s).
Definition bind {A B} (c : M A) (f : A -> M B) : M B :=
  fun s => let '(a, s') := c s in f a s'.

Declare Scope service_scope.
Delimit Scope service_scope with service.
Notation "x <- c ;; k" := (bind c (fun x => k))
  (at level 61, c at next level, right associativity) : service_scope.
Notation "c ;; k" := (bind c (fun _ => k))
  (at level 61, right associativity) : service_scope.
Local Open Scope service_scope.

Definition this : M Service := fun s => (s, s).
Definition io (e : Effect) : M unit :=
  fun s => (tt, mkService (server s) (routes s) (port s) (listeners s) (ticks s)
                          (trace s ++ [e])).
Definition ios (es : list Effect) : M unit :=
  fun s => (tt, mkService (server s) (routes s) (port s) (listeners s) (ticks s)
                          (trace s ++ es)).
Definition set_server (v : option Server) : M unit :=
  fun s => (tt, mkService v (routes s) (port s) (listeners s) (ticks s) (trace s)).
Definition set_port (v : option Z) : M unit :=
  fun s => (tt, mkService (server s) (routes s) v (listeners s) (ticks s) (trace s)).
Definition set_routes (v : JsMap ProxyRoute.t) : M unit :=
  fun s => (tt, mkService (server s) v (port s) (listeners s) (ticks s) (trace s)).
Definition set_listeners (v : list Listener) : M unit :=
  fun s => (tt, mkService (server s) (routes s) (port s) v (ticks s) (trace s)).

(** [new Date().toISOString()] *)
Definition now (w : World) : M string :=
  fun s => (clock w (ticks s),
            mkService (server s) (routes s) (port s) (listeners s) (S (ticks s))
                      (trace s)).

(** *** Helpers *)

(** [emitProxyEvent]: stamps the event and hands it to every listener of
    'event', in registration order. *)
Definition emitProxyEvent (w : World) (type : ProxyEventType.t)
           (route : option ProxyRoute.t) (error : option string) : M unit :=
  ts <- now w ;;
  s <- this ;;
  let evt := ProxyEvent.mk type route error ts in
  io (Publish evt) ;;
  ios (map (fun l => Deliver l evt) (listeners s)).

(** [onEvent(listener)] and the unsubscribe function it returns. *)
Definition onEvent (l : Listener) : M unit :=
  s <- this ;;
  set_listeners (listeners s ++ [l]).

Fixpoint removeFirst (l : Listener) (ls : list Listener) : list Listener :=
  match ls with
  | [] => []
  | x :: ls' => if Nat.eqb l x then ls' else x :: removeFirst l ls'
  end.

(** [off] removes the most recently added occurrence. *)
Definition unsubscribe (l : Listener) : M unit :=
  s <- this ;;
  set_listeners (rev (removeFirst l (rev (listeners s)))).

(** [extractSubdomain]: [req.headers.host || ''] matched against the host
    pattern; [match[1]] on a match, [null] otherwise. *)
Definition hostOf (req : IncomingMessage) : string :=
  orString (header_host req) EmptyString.

Definition extractSubdomain (req : IncomingMessage) : option string :=
  let host := hostOf req in
  match exec HOST_RE host with
  | Some mt => group 1 mt
  | None => None
  end.

(** [tryPort] inside [pickAvailablePort].  [server.listen(port, ...)] runs
    in the executor of the promise: when it throws for a port that is not
    legal, nothing was bound and the promise is rejected ([inl]). *)
Definition tryPort (w : World) (p : Z) : M (Exception + bool) :=
  if isLegalPort p then
    io (Probe p) ;;
    ret (inr (canBind w p))
  else ret (inl (ERR_SOCKET_BAD_PORT p)).

(** The [for (const p of preferred)] loop: [inr (Some p)] when it returned
    [p], [inl e] when an [await tryPort(p)] threw [e]. *)
Fixpoint probeInOrder (w : World) (preferred : list Z) : M (Exception + option Z) :=
  match preferred with
  | [] => ret (inr None)
  | p :: ps =>
      r <- tryPort w p ;;
      match r with
      | inl e => ret (inl e)
      | inr true => ret (inr (Some p))
      | inr false => probeInOrder w ps
      end
  end.

(** The fallback: [resolve(port || 9000)], and [resolve(9000)] on error. *)
Definition ephemeralPort (w : World) : M Z :=
  io ProbeEphemeral ;;
  ret (match ephemeral w with
       | Listening addr =>
           let port := match addr with Some a => ai_port a | None => 0%Z end in
           if truthyNumber port then port else 9000%Z
       | ListenError => 9000%Z
       end).

(** [pickAvailablePort]: the promise is rejected ([inl]) when a probe
    threw. *)
Definition pickAvailablePort (w : World) (preferred : list Z) : M (Exception + Z) :=
  found <- probeInOrder w preferred ;;
  match found with
  | inl e => ret (inl e)
  | inr (Some p) => ret (inr p)
  | inr None => p <- ephemeralPort w ;; ret (inr p)
  end.

(** *** Lifecycle *)

Record StartResult : Type := mkStartResult {
  ok : bool;
  sr_port : option Z;
  sr_error : option string
}.

(** [port ? [port, ...DEFAULT_PORTS] : DEFAULT_PORTS] *)
Definition candidates (port : option Z) : list Z :=
  match port with
  | Some p => if truthyNumber p then p :: DEFAULT_PORTS else DEFAULT_PORTS
  | None => DEFAULT_PORTS
  end.

(** [start] from l.23 on, once it has found no server.  When
    [pickAvailablePort] is rejected the [await] throws and [start] is
    rejected with the same exception ([inl]), having done nothing else.  The
    port chosen otherwise is a legal one ([pickAvailablePort_returns_legal]),
    so [srv.listen(chosen, ...)] does not throw. *)
Definition startListening (w : World) (port_arg : option Z)
  : M (Exception + StartResult) :=
  picked <- pickAvailablePort w (candidates port_arg) ;;
  match picked with
  | inl e => ret (inl e)
  | inr chosen =>
      io (Listen chosen) ;;
      match listen w chosen with
      | None =>
          set_server (Some (mkServer chosen)) ;;
          set_port (Some chosen) ;;
          emitProxyEvent w ProxyEventType.started None None ;;
          ret (inr (mkStartResult true (Some chosen) None))
      | Some msg =>
          emitProxyEvent w ProxyEventType.error None (Some msg) ;;
          ret (inr (mkStartResult false None
                      (Some ("Failed to listen on port " +++ Number_toString chosen))))
      end
  end.

(** [start]: [inr r] when the promise is fulfilled with [r], [inl e] when
    it is rejected with [e]. *)
Definition start (w : World) (port_arg : option Z) : M (Exception + StartResult) :=
  s <- this ;;
  match server s with
  | Some _ => ret (inr (mkStartResult true (port s) None))
  | None => startListening w port_arg
  end.

Definition stop (w : World) : M bool :=
  s <- this ;;
  match server s with
  | None => ret true
  | Some _ =>
      io CloseServer ;;
      set_server None ;;
      set_port None ;;
      set_routes [] ;;
      emitProxyEvent w ProxyEventType.stopped None None ;;
      ret true
  end.

(** *** Route registry *)

Record Error : Type := mkError { message : string }.

(** The two failures of [addRoute], as the errors it throws. *)
Definition InvalidName (name : string) : Error :=
  mkError ("Invalid route name: " +++ dq +++ name +++ dq
           +++ " — must be lowercase alphanumeric with hyphens").
Definition DuplicateName (name : string) : Error :=
  mkError ("Route " +++ dq +++ name +++ dq +++ " already exists").

Record AddRouteOpts : Type := mkOpts {
  opt_taskId : option string;
  opt_targetHost : option string
}.

(** The object literal of [addRoute], given [this.port] and the time. *)
Definition newRoute (name : string) (targetPort : Z) (opts : option AddRouteOpts)
           (port : option Z) (ts : string) : ProxyRoute.t :=
  ProxyRoute.mk name targetPort
    (orString (match opts with Some o => opt_targetHost o | None => None end)
              "127.0.0.1")
    ProxyRouteStatus.running
    (match opts with Some o => opt_taskId o | None => None end)
    ("http://" +++ name +++ ".localhost:" +++ showPort port)
    ts None.

(** [addRoute] from l.86 on: the route is built, stored and announced. *)
Definition storeRoute (w : World) (name : string) (targetPort : Z)
           (opts : option AddRouteOpts) : M ProxyRoute.t :=
  s1 <- this ;;
  ts <- now w ;;
  let route := newRoute name targetPort opts (port s1) ts in
  s2 <- this ;;
  set_routes (Map_set name route (routes s2)) ;;
  emitProxyEvent w ProxyEventType.route_added (Some route) None ;;
  ret route.

(** [addRoute], awaited: [inl e] when it throws [e], [inr route] when it
    returns [route].  The result of the implicit [start()] is not looked
    at; without a port argument [start] probes legal ports only and is not
    rejected ([start_default_stopped]). *)
Definition addRoute (w : World) (name : string) (targetPort : Z)
           (opts : option AddRouteOpts) : M (Error + ProxyRoute.t) :=
  s <- this ;;
  if negb (test SLUG_RE name) then ret (inl (InvalidName name))
  else if Map_has name (routes s) then ret (inl (DuplicateName name))
  else
    (match server s with
     | None => _ <- start w None ;; ret tt
     | Some _ => ret tt
     end) ;;
    route <- storeRoute w name targetPort opts ;;
    ret (inr route).

(** A call of [addRoute] that is not awaited runs until it gives control
    back: to its end when it throws or when the engine has a server, and
    otherwise to the [await] of l.83, where it stays suspended, [start()]
    having gone past its own test of [this.server]. *)
Record PendingAddRoute : Type := mkPending {
  pa_name : string;
  pa_targetPort : Z;
  pa_opts : option AddRouteOpts
}.

Inductive Begun : Type :=
| Settled (result : Error + ProxyRoute.t)
| Suspended (call : PendingAddRoute).

Definition beginAddRoute (w : World) (name : string) (targetPort : Z)
           (opts : option AddRouteOpts) : M Begun :=
  s <- this ;;
  if negb (test SLUG_RE name) then ret (Settled (inl (InvalidName name)))
  else if Map_has name (routes s) then ret (Settled (inl (DuplicateName name)))
  else
    match server s with
    | None => ret (Suspended (mkPending name targetPort opts))
    | Some _ =>
        route <- storeRoute w name targetPort opts ;;
        ret (Settled (inr route))
    end.

(** The rest of a suspended call: the rest of its [start()] (l.23-47), then
    l.86-99. *)
Definition resumeAddRoute (w : World) (call : PendingAddRoute)
  : M (Error + ProxyRoute.t) :=
  _ <- startListening w None ;;
  route <- storeRoute w (pa_name call) (pa_targetPort call) (pa_opts call) ;;
  ret (inr route).

Definition removeRoute (w : World) (name : string) : M bool :=
  s <- this ;;
  match Map_get name (routes s) with
  | None => ret false
  | Some route =>
      set_routes (Map_delete name (routes s)) ;;
      emitProxyEvent w ProxyEventType.route_removed (Some route) None ;;
      ret true
  end.

(** The event carries the route as it is when published. *)
Definition updateRouteStatus (w : World) (name : string)
           (status : ProxyRouteStatus.t) : M bool :=
  s <- this ;;
  match Map_get name (routes s) with
  | None => ret false
  | Some route =>
      let route' := ProxyRoute.with_status route status in
      set_routes (Map_set name route' (routes s)) ;;
      emitProxyEvent w ProxyEventType.route_status (Some route') None ;;
      ret true
  end.

Definition getRoute (name : string) (s : Service) : option ProxyRoute.t :=
  Map_get name (routes s).

Definition getRoutes (s : Service) : list ProxyRoute.t := Map_values (routes s).

Definition getState (s : Service) : ProxyState.t :=
  ProxyState.mk (match server s with Some _ => true | None => false end)
                (port s) (getRoutes s).

(** *** Request handling *)

Definition htmlType : string := "text/html; charset=utf-8".

(** The body of the 502 answer for a subdomain without a route. *)
Definition unknownRouteBody (subdomain : string) (port : option Z) : string :=
  ("<html><body style=" +++ dq
     +++ "background:#1a1a2e;color:#e0e0e0;font-family:system-ui;padding:2rem"
     +++ dq +++ ">")
  +++ "<h1>502 — Unknown route</h1>"
  +++ ("<p>No route registered for <code>" +++ subdomain +++ "</code>.</p>")
  +++ ("<p><a href=" +++ dq +++ "http://localhost:" +++ showPort port +++ dq
       +++ " style=" +++ dq +++ "color:#7c9aff" +++ dq
       +++ ">View dashboard</a></p>")
  +++ "</body></html>".

(** The branch [if (!subdomain)]: the routes API or the dashboard. *)
Definition controlSurface (req : IncomingMessage) : M unit :=
  s <- this ;;
  let urlPath := orString (req_url req) "/" in
  if String.eqb urlPath "/api/routes"
  then io (Respond 200 "application/json" (RoutesJson (getRoutes s)))
  else io (Respond 200 htmlType DashboardHtml).

Definition backendHost (route : ProxyRoute.t) : string :=
  ProxyRoute.targetHost route +++ ":" +++ Number_toString (ProxyRoute.targetPort route).

(** [http.request(options, callback)]: it throws ([inl]) when the options
    are not legal, the port being checked last, and otherwise the request is
    under way with the options as passed ([HttpRequest]; a port 0 stands for
    the default port of the protocol). *)
Definition http_request (w : World) (opts : RequestOptions) : M (Exception + unit) :=
  match illegalOptions w opts with
  | Some code => ret (inl (TypeError code))
  | None =>
      if isLegalPort (ro_port opts) then
        io (HttpRequest opts) ;;
        ret (inr tt)
      else ret (inl (ERR_SOCKET_BAD_PORT (ro_port opts)))
  end.

(** [net.createConnection({ host, port }, callback)] *)
Definition net_createConnection (host : string) (p : Z) : M (Exception + unit) :=
  if isLegalPort p then
    io (NetConnect host p) ;;
    ret (inr tt)
  else ret (inl (ERR_SOCKET_BAD_PORT p)).

(** [handleRequest], up to the creation of the outbound request; what the
    backend answers later arrives in callbacks.  [inr tt] when it returns,
    [inl e] when it throws [e]. *)
Definition handleRequest (w : World) (req : IncomingMessage) : M (Exception + unit) :=
  match extractSubdomain req with
  | None => controlSurface req ;; ret (inr tt)
  | Some subdomain =>
      if negb (truthyString subdomain) then controlSurface req ;; ret (inr tt)
      else
        s <- this ;;
        match Map_get subdomain (routes s) with
        | None =>
            io (Respond 502 htmlType (Text (unknownRouteBody subdomain (port s)))) ;;
            ret (inr tt)
        | Some route =>
            ts <- now w ;;
            set_routes (Map_set subdomain (ProxyRoute.with_lastAccessed route ts)
                                (routes s)) ;;
            http_request w
              (mkRequestOptions (ProxyRoute.targetHost route)
                 (ProxyRoute.targetPort route) (req_url req) (req_method req)
                 (setHeader "host" (backendHost route) (req_headers req)))
        end
  end.

(** [handleUpgrade], up to the creation of the connection to the backend;
    the handshake and the two pipes run in its callback.  [inr tt] when it
    returns, [inl e] when it throws [e]. *)
Definition handleUpgrade (w : World) (req : IncomingMessage) : M (Exception + unit) :=
  match extractSubdomain req with
  | None => io ClientDestroy ;; ret (inr tt)
  | Some subdomain =>
      if negb (truthyString subdomain) then io ClientDestroy ;; ret (inr tt)
      else
        s <- this ;;
        match Map_get subdomain (routes s) with
        | None => io ClientDestroy ;; ret (inr tt)
        | Some route =>
            ts <- now w ;;
            set_routes (Map_set subdomain (ProxyRoute.with_lastAccessed route ts)
                                (routes s)) ;;
            net_createConnection (ProxyRoute.targetHost route)
                                 (ProxyRoute.targetPort route)
        end
  end.

(** *** Reading the trace *)

Fixpoint published (tr : list Effect) : list ProxyEvent.t :=
  match tr with
  | [] => []
  | Publish evt :: tr' => evt :: published tr'
  | _ :: tr' => published tr'
  end.

Fixpoint deliveredTo (l : Listener) (tr : list Effect) : list ProxyEvent.t :=
  match tr with
  | [] => []
  | Deliver l' evt :: tr' =>
      if Nat.eqb l l' then evt :: deliveredTo l tr' else deliveredTo l tr'
  | _ :: tr' => deliveredTo l tr'
  end.

Definition isOutbound (e : Effect) : bool :=
  match e with
  | HttpRequest _ | NetConnect _ _ => true
  | _ => false
  end.

Definition isResponse (e : Effect) : bool :=
  match e with
  | Respond _ _ _ => true
  | _ => false
  end.

(** *** The slug grammar, spelled out

    A slug is one character of [a-z0-9], or a first and a last character of
    [a-z0-9] around any number of characters of [a-z0-9-]. *)
Definition isAlnum : ascii -> bool := in_class alnum.
Definition isAlnumHyphen : ascii -> bool := in_class alnumHyphen.
Definition isDigit : ascii -> bool := in_class digit.

Definition isSlug (l : list ascii) : bool :=
  match l with
  | [] => false
  | a :: t => isAlnum a && forallb isAlnumHyphen t && isAlnum (last t a)
  end.

(** The optional port suffix of a Host value: nothing, or a colon and one
    or more digits. *)
Definition isPortSuffix (l : list ascii) : bool :=
  match l with
  | [] => true
  | c :: ds =>
      Ascii.eqb c ":"%char
      && match ds with [] => false | _ :: _ => forallb isDigit ds end
  end.

(** What the host pattern takes for a name: a character of [a-z0-9] and
    then any number of characters of [a-z0-9-]. *)
Definition isHostLabel (l : list ascii) : bool :=
  match l with
  | [] => false
  | a :: t => isAlnum a && forallb isAlnumHyphen t
  end.

(** A request whose only header is [Host]. *)
Definition requestTo (host : string) : IncomingMessage :=
  mkRequest [("host", host)] (Some "/") "GET" "1.1".

(** *** Devices for stating what an operation did *)

Definition addTrace (s : Service) (es : list Effect) : Service :=
  mkService (server s) (routes s) (port s) (listeners s) (ticks s) (trace s ++ es).

(** The service once a handler has stamped [lastAccessed] on the route of
    the subdomain, and the options with which [handleRequest] then calls
    [http.request]. *)
Definition accessed (w : World) (subdomain : string) (route : ProxyRoute.t)
           (s : Service) : Service :=
  mkService (server s)
            (Map_set subdomain (ProxyRoute.with_lastAccessed route (clock w (ticks s)))
                     (routes s))
            (port s) (listeners s) (S (ticks s)) (trace s).

Definition forwardOptions (req : IncomingMessage) (route : ProxyRoute.t)
  : RequestOptions :=
  mkRequestOptions (ProxyRoute.targetHost route) (ProxyRoute.targetPort route)
                   (req_url req) (req_method req)
                   (setHeader "host" (backendHost route) (req_headers req)).

(** The effects of one [emitProxyEvent] for the given listeners. *)
Definition emission (evt : ProxyEvent.t) (ls : list Listener) : list Effect :=
  Publish evt :: map (fun l => Deliver l evt) ls.

Arguments emission : simpl never.

(** Effects that publish and deliver nothing. *)
Definition quiet (es : list Effect) : Prop :=
  published es = [] /\ forall l, deliveredTo l es = [].

(** Every subscriber receives what was published, in that order, once per
    registration. *)
Definition faithful (ls : list Listener) (es : list Effect) : Prop :=
  forall l, deliveredTo l es
            = flat_map (fun evt => repeat evt (count_occ Nat.eq_dec ls l))
                       (published es).

(** [s.includes(sub)] as a proposition. *)
Definition includes (s sub : string) : Prop :=
  exists pre post, s = pre +++ sub +++ post.

(** Two worlds for examples: one where every bind succeeds, one where the
    probes succeed and the real bind reports that the address is in use. *)
Definition isoClock (n : nat) : string :=
  "2025-01-01T00:00:" +++ (if Nat.ltb n 10 then "0" else EmptyString)
                      +++ Number_toString (Z.of_nat n) +++ ".000Z".

Definition port50000 : AddressInfo := mkAddressInfo 50000 eq_refl.

Definition calmWorld : World :=
  mkWorld (fun _ => true) (Listening (Some port50000)) (fun _ => None) isoClock
          (fun _ => None).

Definition raceWorld : World :=
  mkWorld (fun _ => true) (Listening (Some port50000))
          (fun _ => Some "listen EADDRINUSE: address already in use") isoClock
          (fun _ => None).

(** A world where only port 9001 is free, and one where no candidate is. *)
Definition only9001 : World :=
  mkWorld (fun p => Z.eqb p 9001) (Listening (Some port50000)) (fun _ => None) isoClock
          (fun _ => None).

Definition crowdedWorld : World :=
  mkWorld (fun _ => false) (Listening (Some port50000)) (fun _ => None) isoClock
          (fun _ => None).

(** A world where no candidate is free and the listener on port 0 fails. *)
Definition deafWorld : World :=
  mkWorld (fun _ => false) ListenError (fun _ => None) isoClock (fun _ => None).

(** The state in which [addRoute] creates the route: after the implicit
    start when the engine was stopped. *)
Definition afterAutoStart (w : World) (s : Service) : Service :=
  match server s with
  | None => snd (start w None s)
  | Some _ => s
  end.

(** A session with one subscriber: start, add a route, remove it, stop. *)
Definition demoSubscribed : Service := snd (onEvent 7 localProxyService).
Definition demoTwoSubscribers : Service := snd (onEvent 8 demoSubscribed).
Definition demoStarted : (Exception + StartResult) * Service :=
  start calmWorld (Some 18900%Z) demoSubscribed.
Definition demoAdded : (Error + ProxyRoute.t) * Service :=
  addRoute calmWorld "evt-test" 3000 None (snd demoStarted).
Definition demoRemoved : bool * Service :=
  removeRoute calmWorld "evt-test" (snd demoAdded).
Definition demoStopped : bool * Service := stop calmWorld (snd demoRemoved).

(** The registry is empty whenever the engine is stopped. *)
Definition registryEmptyWhenStopped (s : Service) : Prop :=
  server s = None -> routes s = [].

(** A listening engine knows its port. *)
Definition listeningHasPort (s : Service) : Prop :=
  forall srv, server s = Some srv -> exists p, port s = Some p.

(* ================================================================== *)
(** ** Sequences of calls *)
(* ================================================================== *)

(** One call on the service, or one event of its server, with the world in
    which it happens. *)
Inductive Call : Type :=
| CallStart (w : World) (port : option Z)
| CallStop (w : World)
| CallAddRoute (w : World) (name : string) (targetPort : Z)
               (opts : option AddRouteOpts)
| CallRemoveRoute (w : World) (name : string)
| CallUpdateRouteStatus (w : World) (name : string) (status : ProxyRouteStatus.t)
| CallOnEvent (l : Listener)
| CallUnsubscribe (l : Listener)
| CallRequest (w : World) (req : IncomingMessage)
| CallUpgrade (w : World) (req : IncomingMessage).

Definition perform (c : Call) (s : Service) : Service :=
  match c with
  | CallStart w port => snd (start w port s)
  | CallStop w => snd (stop w s)
  | CallAddRoute w name targetPort opts => snd (addRoute w name targetPort opts s)
  | CallRemoveRoute w name => snd (removeRoute w name s)
  | CallUpdateRouteStatus w name status => snd (updateRouteStatus w name status s)
  | CallOnEvent l => snd (onEvent l s)
  | CallUnsubscribe l => snd (unsubscribe l s)
  | CallRequest w req => snd (handleRequest w req s)
  | CallUpgrade w req => snd (handleUpgrade w req s)
  end.

Definition performAll (cs : list Call) (s : Service) : Service :=
  fold_left (fun s c => perform c s) cs s.

(** The states the exported instance can be in. *)
Definition Reachable (s : Service) : Prop :=
  exists cs, s = performAll cs localProxyService.

Definition changesListeners (c : Call) : bool :=
  match c with
  | CallOnEvent _ | CallUnsubscribe _ => true
  | _ => false
  end.

(** The names of the registry, in insertion order. *)
Definition routeNames (s : Service) : list string := map fst (routes s).

(** A listening engine and its port go together. *)
Definition portOfServer (s : Service) : Prop :=
  match server s with
  | Some srv => port s = Some (boundTo srv)
  | None => port s = None
  end.

(** Every route is stored once, under its own name, and that name is a slug. *)
Definition registryKeyed (s : Service) : Prop :=
  NoDup (routeNames s)
  /\ forall k r, getRoute k s = Some r ->
                 ProxyRoute.name r = k /\ test SLUG_RE k = true.

(** A route as it was, a later access apart. *)
Definition sameButLastAccessed (r r' : ProxyRoute.t) : Prop :=
  ProxyRoute.name r' = ProxyRoute.name r
  /\ ProxyRoute.targetPort r' = ProxyRoute.targetPort r
  /\ ProxyRoute.targetHost r' = ProxyRoute.targetHost r
  /\ ProxyRoute.status r' = ProxyRoute.status r
  /\ ProxyRoute.taskId r' = ProxyRoute.taskId r
  /\ ProxyRoute.url r' = ProxyRoute.url r
  /\ ProxyRoute.registeredAt r' = ProxyRoute.registeredAt r.

(* ================================================================== *)
(** ** The integration with task previews ([proxyIntegration]) *)
(* ================================================================== *)

(** [.replace(/[^a-z0-9-]/g, '-')] *)
Definition replaceOthersByHyphen (l : list ascii) : list ascii :=
  map (fun c => if isAlnumHyphen c then c else "-"%char) l.

(** [.replace(/-+/g, '-')] *)
Fixpoint collapseHyphens (l : list ascii) : list ascii :=
  match l with
  | [] => []
  | c :: t =>
      if Ascii.eqb c "-"%char
      then match t with
           | c' :: _ => if Ascii.eqb c' "-"%char then collapseHyphens t
                        else c :: collapseHyphens t
           | [] => [c]
           end
      else c :: collapseHyphens t
  end.

(** [.replace(/-$/, '')] *)
Fixpoint stripTrailingHyphen (l : list ascii) : list ascii :=
  match l with
  | [] => []
  | c :: t =>
      match t with
      | [] => if Ascii.eqb c "-"%char then [] else [c]
      | _ :: _ => c :: stripTrailingHyphen t
      end
  end.

Definition stripLeadingHyphen (l : list ascii) : list ascii :=
  match l with
  | c :: t => if Ascii.eqb c "-"%char then t else l
  | [] => []
  end.

(** [.replace(/^-|-$/g, '')]: the first alternative can only match at the
    start, the second only at the end of what is left. *)
Definition trimHyphens (l : list ascii) : list ascii :=
  stripTrailingHyphen (stripLeadingHyphen l).

Section Integration.

(** [String.prototype.toLowerCase] and [parsePort] (which rests on the
    platform's [URL] and [parseInt]) are taken as they come. *)
Variable toLowerCase : string -> string.
Variable parsePort : string -> option Z.

(** [toSlug] *)
Definition toSlug (taskId : string) : string :=
  let l := stripTrailingHyphen
             (firstn 30
                (trimHyphens
                   (collapseHyphens
                      (replaceOthersByHyphen
                         (list_ascii_of_string (toLowerCase taskId)))))) in
  let slug := string_of_list_ascii l in
  if truthyString slug then slug else "task".

(** The [for] loop of [uniqueSlug]: [i] is the next suffix and [n] the
    number of iterations left. *)
Fixpoint firstFreeCandidate (base : string) (s : Service) (i : Z) (n : nat)
  : option string :=
  match n with
  | O => None
  | S n' =>
      let candidate := base +++ "-" +++ Number_toString i in
      match getRoute candidate s with
      | None => Some candidate
      | Some _ => firstFreeCandidate base s (i + 1) n'
      end
  end.

(** [uniqueSlug]; [dateNow] is the value of [Date.now()]. *)
Definition uniqueSlug (dateNow : Z) (base : string) (s : Service) : string :=
  match getRoute base s with
  | None => base
  | Some _ =>
      match firstFreeCandidate base s 2 98 with
      | Some candidate => candidate
      | None => base +++ "-" +++ Number_toString dateNow
      end
  end.

(** What the handler reads of a [HostPreviewEvent]. *)
Record HostPreviewEvent : Type := mkHostPreviewEvent {
  hp_type : string;
  hp_url : option string;
  hp_taskId : option string
}.

(** The service together with [taskSlugMap] and the calls of [addRoute]
    that the listener has started and that are suspended, oldest first. *)
Record Integration : Type := mkIntegration {
  svc : Service;
  taskSlugMap : JsMap string;
  suspended : list PendingAddRoute
}.

Definition truthyOpt (o : option string) : option string :=
  match o with
  | Some x => if truthyString x then Some x else None
  | None => None
  end.

(** The listener that [initProxyIntegration] registers, from an event to
    its return.  [addRoute] is not awaited: a call that throws is only
    logged, and a call made while the engine has no server is still
    suspended when the listener returns. *)
Definition onHostPreviewEvent (w : World) (dateNow : Z) (evt : HostPreviewEvent)
           (st : Integration) : Integration :=
  match (if String.eqb (hp_type evt) "url" then truthyOpt (hp_url evt) else None),
        truthyOpt (hp_taskId evt) with
  | Some url, Some taskId =>
      match parsePort url with
      | None => st
      | Some parsed =>
          if truthyNumber parsed then
            let base := toSlug taskId in
            let slug := uniqueSlug dateNow base (svc st) in
            let '(begun, s') :=
              beginAddRoute w slug parsed (Some (mkOpts (Some taskId) None)) (svc st) in
            mkIntegration s'
              (Map_set taskId slug (taskSlugMap st))
              (match begun with
               | Suspended call => suspended st ++ [call]
               | Settled _ => suspended st
               end)
          else st
      end
  | _, _ =>
      if String.eqb (hp_type evt) "exit" then
        match truthyOpt (hp_taskId evt) with
        | Some taskId =>
            match truthyOpt (Map_get taskId (taskSlugMap st)) with
            | Some slug =>
                mkIntegration
                  (snd (updateRouteStatus w slug ProxyRouteStatus.stopped (svc st)))
                  (taskSlugMap st) (suspended st)
            | None => st
            end
        | None => st
        end
      else st
  end.

(** The oldest suspended call of [addRoute] runs to its end, in the world
    it finds. *)
Definition settle (w : World) (st : Integration) : Integration :=
  match suspended st with
  | [] => st
  | call :: calls =>
      mkIntegration (snd (resumeAddRoute w call (svc st))) (taskSlugMap st) calls
  end.

End Integration.

(** The frame of a call: the listeners stay, the trace grows by effects
    that hand every subscriber what was published. *)
Definition framed (s s' : Service) : Prop :=
  listeners s' = listeners s
  /\ exists es, trace s' = trace s ++ es /\ faithful (listeners s) es.

(** What every call keeps. *)
Definition keepsInvariants (s s' : Service) : Prop :=
  (portOfServer s -> portOfServer s') /\ (registryKeyed s -> registryKeyed s').

(** The session above after a request for the route it added. *)
Definition demoRequest : IncomingMessage :=
  mkRequest [("host", "evt-test.localhost:18900"); ("accept", "*/*")]
            (Some "/path?q=1") "GET" "1.1".

Definition demoRequested : Service := snd (handleRequest calmWorld demoRequest (snd demoAdded)).

(** Shapes of names, for the statements about [toSlug] and [uniqueSlug]. *)
Fixpoint noDoubleHyphen (l : list ascii) : bool :=
  match l with
  | c :: t =>
      match t with
      | c' :: _ => negb (Ascii.eqb c "-"%char && Ascii.eqb c' "-"%char)
                   && noDoubleHyphen t
      | [] => true
      end
  | [] => true
  end.

Definition startsWithHyphen (l : list ascii) : bool :=
  match l with
  | c :: _ => Ascii.eqb c "-"%char
  | [] => false
  end.

Definition endsWithHyphen (l : list ascii) : bool :=
  match l with
  | c :: t => Ascii.eqb (last t c) "-"%char
  | [] => false
  end.

(** The candidate [`${base}-${i}`] of [uniqueSlug]. *)
Definition candidateName (base : string) (i : Z) : string :=
  base +++ "-" +++ Number_toString i.

(** A preview session for examples: lower-casing of ASCII letters, a
    [parsePort] that knows one url, and the events of one task. *)
Definition asciiLower (s : string) : string :=
  string_of_list_ascii
    (map (fun c => if Nat.leb 65 (nat_of_ascii c) && Nat.leb (nat_of_ascii c) 90
                   then ascii_of_nat (nat_of_ascii c + 32) else c)
         (list_ascii_of_string s)).

Definition demoParsePort (url : string) : option Z :=
  if String.eqb url "http://localhost:5173/" then Some 5173%Z else None.

Definition demoNow : Z := 1700000000000%Z.

Definition demoUrlEvent : HostPreviewEvent :=
  mkHostPreviewEvent "url" (Some "http://localhost:5173/") (Some "Task #42").

Definition demoExitEvent : HostPreviewEvent :=
  mkHostPreviewEvent "exit" None (Some "Task #42").

Definition demoIntegration : Integration := mkIntegration (snd demoAdded) [] [].

(** The integration before the engine was ever started. *)
Definition coldIntegration : Integration := mkIntegration localProxyService [] [].

(** A route whose target port is no port, and a request for it. *)
Definition demoBigAdded : (Error + ProxyRoute.t) * Service :=
  addRoute calmWorld "big" 70000 None (snd demoStarted).

Definition demoBigRequest : IncomingMessage :=
  mkRequest [("host", "big.localhost:18900")] (Some "/") "GET" "1.1".

Definition demoAfterUrl : Integration :=
  onHostPreviewEvent asciiLower demoParsePort calmWorld demoNow demoUrlEvent
                     demoIntegration.

(* ================================================================== *)
(** * Properties *)
(* ================================================================== *)

(** ** The matcher agrees with the relation *)

Section MatcherCorrect.

Lemma starLoop_sound r
      (IH : forall k st fin, m r k st = Some fin ->
                             exists st', Steps r st st' /\ k st' = Some fin) :
  forall fuel k st fin,
    starLoop (groupsOf r) (m r) fuel k st = Some fin ->
    exists st', Steps (Star r) st st' /\ k st' = Some fin.
Proof.
  induction fuel as [|fuel IHf]; intros k st fin H; simpl in H.
  - exists st. split; [constructor | assumption].
  - destruct (m r _ (clearCaps (groupsOf r) st)) as [x|] eqn:E.
    + injection H as ->.
      apply IH in E. destruct E as (st1 & Hst1 & Hk).
      destruct (progressed st st1) eqn:Hp; [|discriminate].
      apply IHf in Hk. destruct Hk as (st' & Hstar & Hk).
      exists st'. split; [|assumption].
      eapply Steps_Star_more; eassumption.
    + exists st. split; [constructor | assumption].
Qed.

Theorem m_sound :
  forall r k st fin,
    m r k st = Some fin -> exists st', Steps r st st' /\ k st' = Some fin.
Proof.
  induction r as [ |c|rs|r1 IH1 r2 IH2|r1 IH1|r1 IH1|r1 IH1|i r1 IH1| | ];
    intros k st fin H; simpl in H.
  - exists st. split; [constructor | assumption].
  - destruct (rest st) as [|a t] eqn:Hr; [discriminate|].
    destruct (Ascii.eqb a c) eqn:Hc; [|discriminate].
    apply Ascii.eqb_eq in Hc. subst a.
    exists (advance st t). split; [constructor; assumption | assumption].
  - destruct (rest st) as [|a t] eqn:Hr; [discriminate|].
    destruct (in_class rs a) eqn:Hc; [|discriminate].
    exists (advance st t). split; [econstructor; eassumption | assumption].
  - apply IH1 in H. destruct H as (st1 & H1 & H).
    apply IH2 in H. destruct H as (st2 & H2 & H).
    exists st2. split; [econstructor; eassumption | assumption].
  - eapply starLoop_sound; eassumption.
  - apply IH1 in H. destruct H as (st1 & H1 & H).
    apply (starLoop_sound IH1) in H. destruct H as (st2 & H2 & H).
    exists st2. split; [econstructor; eassumption | assumption].
  - destruct (m r1 _ (clearCaps (groupsOf r1) st)) as [x|] eqn:E.
    + injection H as ->.
      apply IH1 in E. destruct E as (st1 & Hst1 & Hk).
      destruct (progressed st st1) eqn:Hp; [|discriminate].
      exists st1. split; [|assumption].
      apply Steps_Opt_take; assumption.
    + exists st. split; [constructor | assumption].
  - apply IH1 in H. destruct H as (st1 & H1 & H).
    exists (setCap i st st1). split; [constructor; assumption | assumption].
  - destruct (Nat.eqb (consumed st) 0) eqn:Hc; [|discriminate].
    apply Nat.eqb_eq in Hc.
    exists st. split; [constructor; assumption | assumption].
  - destruct (rest st) as [|a t] eqn:Hr; [|discriminate].
    exists st. split; [constructor; assumption | assumption].
Qed.

Lemma starLoop_complete r
      (IH : forall k st st' fin, Steps r st st' -> k st' = Some fin ->
                                 exists fin', m r k st = Some fin') :
  forall fuel k st st' fin,
    length (rest st) <= fuel ->
    Steps (Star r) st st' -> k st' = Some fin ->
    exists fin', starLoop (groupsOf r) (m r) fuel k st = Some fin'.
Proof.
  induction fuel as [|fuel IHf]; intros k st st' fin Hlen Hs Hk; simpl.
  - inversion Hs as [ | | | |? ?|? ? st1 ? Hbody Hp Hrest| | | | | | ]; subst.
    + eauto.
    + apply Nat.ltb_lt in Hp. lia.
  - inversion Hs as [ | | | |? ?|? ? st1 ? Hbody Hp Hrest| | | | | | ]; subst.
    + destruct (m r _ (clearCaps (groupsOf r) st')); eauto.
    + assert (Hlt : length (rest st1) < length (rest st))
        by (apply Nat.ltb_lt; assumption).
      destruct (IHf k st1 st' fin) as (x & Hx); [lia|assumption|assumption|].
      destruct (IH (fun st'0 => if progressed st st'0
                                then starLoop (groupsOf r) (m r) fuel k st'0
                                else None)
                   (clearCaps (groupsOf r) st) st1 x Hbody) as (y & Hy).
      { rewrite Hp. assumption. }
      rewrite Hy. eauto.
Qed.

Theorem m_complete :
  forall r k st st' fin,
    Steps r st st' -> k st' = Some fin -> exists fin', m r k st = Some fin'.
Proof.
  induction r as [ |c|rs|r1 IH1 r2 IH2|r1 IH1|r1 IH1|r1 IH1|i r1 IH1| | ];
    intros k st st' fin Hs Hk.
  - inversion Hs; subst; simpl. eauto.
  - inversion Hs as [ |? ? t Hr| | | | | | | | | | ]; subst; simpl.
    rewrite Hr, Ascii.eqb_refl. eauto.
  - inversion Hs as [ | |? a ? t Hr Hc| | | | | | | | | ]; subst; simpl.
    rewrite Hr, Hc. eauto.
  - inversion Hs as [ | | |? ? ? st1 ? H1 H2| | | | | | | | ]; subst; simpl.
    destruct (IH2 k _ _ _ H2 Hk) as (x & Hx).
    eapply IH1; eassumption.
  - simpl. eapply (starLoop_complete IH1); [apply Nat.le_refl|eassumption|eassumption].
  - inversion Hs as [ | | | | | |? ? st1 ? H1 H2| | | | | ]; subst; simpl.
    destruct (starLoop_complete IH1 (fuel := length (rest st1)) k
                                (Nat.le_refl _) H2 Hk) as (x & Hx).
    eapply IH1; [eassumption|]. simpl. eassumption.
  - inversion Hs as [ | | | | | | |? ?|? ? ? Hbody Hp| | | ]; subst; simpl.
    + destruct (m r1 _ _); eauto.
    + destruct (IH1 (fun st'0 => if progressed st st'0 then k st'0 else None)
                    (clearCaps (groupsOf r1) st) st' fin Hbody) as (x & Hx).
      { rewrite Hp. assumption. }
      rewrite Hx. eauto.
  - inversion Hs as [ | | | | | | | | |? ? ? st1 H1| | ]; subst; simpl.
    eapply IH1; [eassumption|]. simpl. eassumption.
  - inversion Hs as [ | | | | | | | | | |? Hc| ]; subst; simpl.
    rewrite Hc. simpl. eauto.
  - inversion Hs as [ | | | | | | | | | | |? Hc]; subst; simpl.
    rewrite Hc. eauto.
Qed.

End MatcherCorrect.

(** ** Reading matches off the relation *)

Section StepsFacts.

Lemma clearCaps_nil st : clearCaps [] st = st.
Proof.
  destruct st as [n l cs]. unfold clearCaps. simpl. f_equal.
  induction cs as [|c cs IH]; simpl; [reflexivity | now rewrite IH].
Qed.

Lemma Steps_Seq_inv r1 r2 st st2 :
  Steps (Seq r1 r2) st st2 -> exists st1, Steps r1 st st1 /\ Steps r2 st1 st2.
Proof. inversion 1; subst; eauto. Qed.

Lemma Steps_Class_inv rs st st' :
  Steps (Class rs) st st' ->
  exists a t, rest st = a :: t /\ in_class rs a = true /\ st' = advance st t.
Proof. inversion 1; subst; eauto. Qed.

Lemma Steps_Chr_inv c st st' :
  Steps (Chr c) st st' -> exists t, rest st = c :: t /\ st' = advance st t.
Proof. inversion 1; subst; eauto. Qed.

Lemma Steps_Group_inv i r st st' :
  Steps (Group i r) st st' -> exists st1, Steps r st st1 /\ st' = setCap i st st1.
Proof. inversion 1; subst; eauto. Qed.

Lemma Steps_Opt_inv r st st' :
  Steps (Opt r) st st' ->
  st' = st \/ (Steps r (clearCaps (groupsOf r) st) st' /\ progressed st st' = true).
Proof. inversion 1; subst; eauto. Qed.

Lemma Steps_Plus_inv r st st' :
  Steps (Plus r) st st' ->
  exists st1, Steps r (clearCaps (groupsOf r) st) st1 /\ Steps (Star r) st1 st'.
Proof. inversion 1; subst; eauto. Qed.

Lemma Steps_Bol_inv st st' : Steps Bol st st' -> st' = st /\ consumed st = 0.
Proof. inversion 1; subst; eauto. Qed.

Lemma Steps_Eol_inv st st' : Steps Eol st st' -> st' = st /\ rest st = [].
Proof. inversion 1; subst; eauto. Qed.

Lemma Steps_star_class_inv rs st st' :
  Steps (Star (Class rs)) st st' ->
  exists l, ahead st l st' /\ forallb (in_class rs) l = true.
Proof.
  intros H. remember (Star (Class rs)) as r eqn:Hr.
  induction H as [ | | | |r0 st|r0 st st1 st2 Hbody _ Hp Hrest IH| | | | | | ];
    try discriminate; injection Hr as ->.
  - exists []. repeat split. simpl. lia.
  - simpl in Hbody. rewrite clearCaps_nil in Hbody.
    apply Steps_Class_inv in Hbody. destruct Hbody as (a & t & Ha & Hc & ->).
    destruct (IH eq_refl) as (l & (Hl1 & Hl2 & Hl3) & Hall).
    exists (a :: l). simpl in *. repeat split.
    + rewrite Ha, Hl1. reflexivity.
    + simpl. lia.
    + assumption.
    + simpl. rewrite Hc. assumption.
Qed.

Lemma Steps_star_class_intro rs l : forall n tl cs,
  forallb (in_class rs) l = true ->
  Steps (Star (Class rs)) (mkMState n (l ++ tl) cs)
        (mkMState (n + length l) tl cs).
Proof.
  induction l as [|a l IH]; intros n tl cs Hall; simpl in *.
  - rewrite Nat.add_0_r. constructor.
  - apply andb_true_iff in Hall. destruct Hall as [Ha Hall].
    eapply Steps_Star_more with (st1 := mkMState (S n) (l ++ tl) cs).
    + simpl. rewrite clearCaps_nil.
      apply (@Steps_Class rs a (mkMState n (a :: l ++ tl) cs) (l ++ tl) eq_refl Ha).
    + unfold progressed. simpl. apply Nat.ltb_lt. lia.
    + replace (n + S (length l)) with (S n + length l) by lia.
      apply IH. assumption.
Qed.

Lemma Steps_ofString_inv s : forall st st',
  Steps (ofString s) st st' -> ahead st s st'.
Proof.
  induction s as [|c s IH]; intros st st' H; simpl in H.
  - inversion H; subst. repeat split. simpl. lia.
  - apply Steps_Seq_inv in H. destruct H as (st1 & Hc & Hs).
    apply Steps_Chr_inv in Hc. destruct Hc as (t & Ht & ->).
    apply IH in Hs. destruct Hs as (H1 & H2 & H3). simpl in *.
    repeat split.
    + rewrite Ht, H1. reflexivity.
    + simpl. lia.
    + assumption.
Qed.

Lemma Steps_ofString_intro s : forall n tl cs,
  Steps (ofString s) (mkMState n (s ++ tl) cs) (mkMState (n + length s) tl cs).
Proof.
  induction s as [|c s IH]; intros n tl cs; simpl.
  - rewrite Nat.add_0_r. constructor.
  - eapply Steps_Seq with (st1 := mkMState (S n) (s ++ tl) cs).
    + apply (@Steps_Chr c (mkMState n (c :: s ++ tl) cs) (s ++ tl) eq_refl).
    + replace (n + S (length s)) with (S n + length s) by lia. apply IH.
Qed.

End StepsFacts.

(** ** A pattern that starts with [^] is only tried at position 0 *)

Lemma m_Bol_later r k st : consumed st <> 0 -> m (Seq Bol r) k st = None.
Proof.
  intros H. simpl. destruct (Nat.eqb (consumed st) 0) eqn:E; [|reflexivity].
  apply Nat.eqb_eq in E. contradiction.
Qed.

Lemma searchFrom_Bol_later r l : forall n, searchFrom (Seq Bol r) (S n) l = None.
Proof.
  induction l as [|a l IH]; intros n; simpl; [reflexivity | apply IH].
Qed.

Lemma exec_anchored r s :
  exec (Seq Bol r) s
  = option_map caps (m (Seq Bol r) Some (mkMState 0 (list_ascii_of_string s) [])).
Proof.
  unfold exec. destruct (list_ascii_of_string s) as [|a l]; simpl.
  - destruct (m r Some _); reflexivity.
  - destruct (m r Some _); [reflexivity|]. now rewrite searchFrom_Bol_later.
Qed.

(** ** The slug pattern accepts exactly the slugs *)

Lemma alnum_alnumHyphen a : isAlnum a = true -> isAlnumHyphen a = true.
Proof.
  unfold isAlnum, isAlnumHyphen, in_class, alnum, alnumHyphen. simpl.
  intros H. apply orb_true_iff in H. destruct H as [H|H].
  - rewrite H. reflexivity.
  - rewrite orb_false_r in H. rewrite H. now rewrite orb_true_r.
Qed.

Lemma SLUG_RE_sound l fin :
  Steps SLUG_RE (mkMState 0 l []) fin -> isSlug l = true.
Proof.
  unfold SLUG_RE. intros H.
  apply Steps_Seq_inv in H. destruct H as (s0 & H0 & H).
  apply Steps_Bol_inv in H0. destruct H0 as (-> & _).
  apply Steps_Seq_inv in H. destruct H as (s1 & H1 & H).
  apply Steps_Class_inv in H1. destruct H1 as (a & t & Hl & Ha & ->).
  simpl in Hl. subst l.
  apply Steps_Seq_inv in H. destruct H as (s2 & H2 & H).
  apply Steps_Eol_inv in H. destruct H as (-> & Hend).
  apply Steps_Opt_inv in H2. destruct H2 as [-> | [H2 _]].
  - simpl in Hend. subst t. unfold isSlug, isAlnum. cbn [forallb last].
    rewrite Ha. reflexivity.
  - apply Steps_Group_inv in H2. destruct H2 as (s3 & H3 & ->).
    apply Steps_Seq_inv in H3. destruct H3 as (s4 & H4 & H5).
    apply Steps_star_class_inv in H4. destruct H4 as (mid & (Hm & _ & _) & Hall).
    apply Steps_Class_inv in H5. destruct H5 as (b & t' & Hb & Hcb & ->).
    simpl in Hend, Hm. subst t'. rewrite Hb in Hm. subst t.
    pose proof (alnum_alnumHyphen b Hcb) as Hb'.
    unfold isSlug, isAlnum, isAlnumHyphen in *.
    rewrite Ha, forallb_app, last_last, Hall, Hcb. cbn [forallb].
    rewrite Hb'. reflexivity.
Qed.

Lemma SLUG_RE_complete l :
  isSlug l = true -> exists fin, Steps SLUG_RE (mkMState 0 l []) fin.
Proof.
  destruct l as [|a t]; [discriminate|]. simpl. intros H.
  apply andb_true_iff in H. destruct H as [H Hlast].
  apply andb_true_iff in H. destruct H as [Ha Hall].
  destruct t as [|c t'].
  - exists (mkMState 1 [] []). unfold SLUG_RE.
    eapply Steps_Seq; [constructor; reflexivity|].
    eapply Steps_Seq.
    + apply (@Steps_Class alnum a (mkMState 0 [a] []) [] eq_refl Ha).
    + eapply Steps_Seq; [apply Steps_Opt_skip|].
      constructor. reflexivity.
  - destruct (@exists_last _ (c :: t')) as (mid & b & Ht); [discriminate|].
    rewrite Ht in *. clear Ht. rewrite last_last in Hlast. rewrite forallb_app in Hall.
    apply andb_true_iff in Hall. destruct Hall as [Hmid _].
    eexists. unfold SLUG_RE.
    eapply Steps_Seq; [constructor; reflexivity|].
    eapply Steps_Seq.
    + apply (@Steps_Class alnum a (mkMState 0 (a :: mid ++ [b]) []) (mid ++ [b])
                          eq_refl Ha).
    + eapply Steps_Seq.
      * apply Steps_Opt_take.
        -- apply Steps_Group. eapply Steps_Seq.
           ++ apply (Steps_star_class_intro alnumHyphen mid 1 [b] [] Hmid).
           ++ apply (@Steps_Class alnum b (mkMState (1 + length mid) [b] []) []
                                  eq_refl Hlast).
        -- unfold progressed. simpl. apply Nat.ltb_lt.
           rewrite length_app. simpl. lia.
      * constructor. reflexivity.
Qed.

Theorem test_SLUG_RE s : test SLUG_RE s = isSlug (list_ascii_of_string s).
Proof.
  unfold test. change SLUG_RE with (Seq Bol (Seq (Class alnum)
    (Seq (Opt (Group 1 (Seq (Star (Class alnumHyphen)) (Class alnum)))) Eol))).
  rewrite exec_anchored.
  fold SLUG_RE.
  destruct (m SLUG_RE Some _) as [fin|] eqn:E; simpl.
  - apply m_sound in E. destruct E as (st' & Hs & _).
    symmetry. eapply SLUG_RE_sound. eassumption.
  - destruct (isSlug (list_ascii_of_string s)) eqn:Hslug; [|reflexivity].
    apply SLUG_RE_complete in Hslug. destruct Hslug as (fin & Hs).
    destruct (m_complete Some Hs eq_refl) as (fin' & Hfin).
    congruence.
Qed.

(** ** What the host pattern accepts, and what its first group holds *)

Lemma ahead_trans st l1 st1 l2 st2 :
  ahead st l1 st1 -> ahead st1 l2 st2 -> ahead st (l1 ++ l2) st2.
Proof.
  intros (A1 & A2 & A3) (B1 & B2 & B3). repeat split.
  - rewrite A1, B1. now rewrite app_assoc.
  - rewrite length_app. lia.
  - congruence.
Qed.

Lemma ahead_class rs st st' :
  Steps (Class rs) st st' -> exists a, ahead st [a] st' /\ in_class rs a = true.
Proof.
  intros H. apply Steps_Class_inv in H. destruct H as (a & t & Hr & Hc & ->).
  exists a. split; [|assumption]. repeat split; simpl; [assumption | lia].
Qed.

Lemma ahead_chr c st st' : Steps (Chr c) st st' -> ahead st [c] st'.
Proof.
  intros H. apply Steps_Chr_inv in H. destruct H as (t & Hr & ->).
  repeat split; simpl; [assumption | lia].
Qed.

Lemma HOST_RE_unfold :
  HOST_RE = Seq Bol (Seq (Group 1 hostLabel)
                         (Seq (ofString dotLocalhost) (Seq portGroup Eol))).
Proof. reflexivity. Qed.

Lemma hostLabel_sound st st' :
  Steps hostLabel st st' -> exists g, ahead st g st' /\ isHostLabel g = true.
Proof.
  unfold hostLabel. intros H.
  apply Steps_Seq_inv in H. destruct H as (s1 & H1 & H).
  apply Steps_Seq_inv in H. destruct H as (s2 & H2 & H3).
  apply ahead_class in H1. destruct H1 as (a & Ha & Hca).
  apply Steps_star_class_inv in H2. destruct H2 as (mid & Hmid & Hall).
  apply Steps_Opt_inv in H3. destruct H3 as [-> | [H3 _]].
  - exists (a :: mid). split.
    + apply (ahead_trans Ha Hmid).
    + unfold isHostLabel, isAlnum, isAlnumHyphen. now rewrite Hca, Hall.
  - simpl in H3. rewrite clearCaps_nil in H3.
    apply ahead_class in H3. destruct H3 as (b & Hb & Hcb).
    exists (a :: mid ++ [b]). split.
    + apply (ahead_trans Ha (ahead_trans Hmid Hb)).
    + pose proof (alnum_alnumHyphen b Hcb) as Hb'.
      unfold isHostLabel, isAlnum, isAlnumHyphen in *.
      rewrite Hca, forallb_app, Hall. cbn [forallb].
      now rewrite Hb'.
Qed.

Lemma hostLabel_complete g n tl cs :
  isHostLabel g = true ->
  Steps hostLabel (mkMState n (g ++ tl) cs) (mkMState (n + length g) tl cs).
Proof.
  destruct g as [|a mid]; [discriminate|]. unfold isHostLabel.
  intros H. apply andb_true_iff in H. destruct H as [Ha Hmid].
  unfold hostLabel. eapply Steps_Seq.
  - apply (@Steps_Class alnum a (mkMState n ((a :: mid) ++ tl) cs) (mid ++ tl)
                        eq_refl Ha).
  - eapply Steps_Seq; [|apply Steps_Opt_skip].
    replace (n + length (a :: mid)) with (S n + length mid) by (simpl; lia).
    apply (Steps_star_class_intro alnumHyphen mid (S n) tl cs Hmid).
Qed.

Lemma getCap_clearCaps i gs st :
  mem_nat i gs = false -> getCap i (caps (clearCaps gs st)) = getCap i (caps st).
Proof.
  intros Hi. destruct st as [n l cs]. simpl.
  induction cs as [|[j s] cs IH]; simpl; [reflexivity|].
  destruct (Nat.eqb i j) eqn:E.
  - apply Nat.eqb_eq in E. subst j. rewrite Hi. simpl.
    now rewrite Nat.eqb_refl.
  - destruct (negb (mem_nat j gs)); simpl; [rewrite E|]; exact IH.
Qed.

Lemma portGroup_sound st st' :
  Steps portGroup st st' ->
  exists suf, rest st = suf ++ rest st' /\ isPortSuffix suf = true
              /\ getCap 1 (caps st') = getCap 1 (caps st).
Proof.
  unfold portGroup. intros H.
  apply Steps_Opt_inv in H. destruct H as [-> | [H _]].
  - exists []. auto.
  - apply Steps_Group_inv in H. destruct H as (s1 & H & ->).
    apply Steps_Seq_inv in H. destruct H as (s2 & Hc & H).
    apply Steps_Plus_inv in H. destruct H as (s3 & Hd & Hds).
    simpl in Hd. rewrite clearCaps_nil in Hd.
    apply ahead_chr in Hc. apply ahead_class in Hd. destruct Hd as (d & Hd & Hcd).
    apply Steps_star_class_inv in Hds. destruct Hds as (ds & Hds & Hall).
    pose proof (ahead_trans Hc (ahead_trans Hd Hds)) as (A1 & A2 & A3).
    exists (":"%char :: d :: ds). repeat split.
    + exact A1.
    + unfold isPortSuffix, isDigit. cbn [forallb]. now rewrite Hcd, Hall.
    + simpl. rewrite A3. apply getCap_clearCaps. reflexivity.
Qed.

Lemma portGroup_complete suf n cs :
  isPortSuffix suf = true ->
  exists fin, Steps portGroup (mkMState n suf cs) fin /\ rest fin = [].
Proof.
  destruct suf as [|c ds]; intros H.
  - exists (mkMState n [] cs). split; [apply Steps_Opt_skip | reflexivity].
  - unfold isPortSuffix in H. apply andb_true_iff in H. destruct H as [Hc H].
    apply Ascii.eqb_eq in Hc. subst c.
    destruct ds as [|d ds]; [discriminate|]. cbn [forallb] in H.
    apply andb_true_iff in H. destruct H as [Hd Hds].
    pose (st := mkMState n (":"%char :: d :: ds) cs).
    pose (st0 := clearCaps [2] st).
    exists (setCap 2 st0 (mkMState (S (S n) + length ds) [] (caps st0))).
    split; [|reflexivity].
    apply Steps_Opt_take.
    + apply Steps_Group. eapply Steps_Seq.
      * apply (@Steps_Chr ":"%char st0 (d :: ds) eq_refl).
      * eapply Steps_Plus.
        -- simpl. rewrite clearCaps_nil.
           apply (@Steps_Class digit d (advance st0 (d :: ds)) ds eq_refl Hd).
        -- pose proof (Steps_star_class_intro digit ds (S (S n)) [] (caps st0)) as Hs.
           rewrite app_nil_r in Hs. apply Hs. exact Hds.
    + unfold progressed. simpl. reflexivity.
Qed.

Lemma firstn_exact (g tl : list ascii) : firstn (length g) (g ++ tl) = g.
Proof.
  induction g as [|a g IH]; simpl; [now destruct tl | now rewrite IH].
Qed.

Lemma HOST_RE_sound l fin :
  Steps HOST_RE (mkMState 0 l []) fin ->
  exists g suf, l = g ++ dotLocalhost ++ suf
                /\ isHostLabel g = true /\ isPortSuffix suf = true
                /\ getCap 1 (caps fin) = Some g.
Proof.
  rewrite HOST_RE_unfold. intros H.
  apply Steps_Seq_inv in H. destruct H as (s0 & H0 & H).
  apply Steps_Bol_inv in H0. destruct H0 as (-> & _).
  apply Steps_Seq_inv in H. destruct H as (s1 & H1 & H).
  apply Steps_Group_inv in H1. destruct H1 as (s1' & H1 & ->).
  apply hostLabel_sound in H1. destruct H1 as (g & (G1 & G2 & G3) & Hg).
  apply Steps_Seq_inv in H. destruct H as (s2 & H2 & H).
  apply Steps_ofString_inv in H2. destruct H2 as (D1 & D2 & D3).
  apply Steps_Seq_inv in H. destruct H as (s3 & H3 & H).
  apply Steps_Eol_inv in H. destruct H as (-> & Hend).
  apply portGroup_sound in H3. destruct H3 as (suf & P1 & P2 & P3).
  simpl in *.
  exists g, suf. repeat split; try assumption.
  - rewrite G1, D1, P1, Hend, app_nil_r. reflexivity.
  - rewrite P3, D3. simpl. rewrite G2, Nat.sub_0_r, G1. simpl.
    now rewrite firstn_exact.
Qed.

Lemma HOST_RE_complete g suf :
  isHostLabel g = true -> isPortSuffix suf = true ->
  exists fin, Steps HOST_RE (mkMState 0 (g ++ dotLocalhost ++ suf) []) fin.
Proof.
  intros Hg Hsuf. rewrite HOST_RE_unfold.
  pose (st0 := mkMState 0 (g ++ dotLocalhost ++ suf) []).
  pose (st1 := setCap 1 st0 (mkMState (0 + length g) (dotLocalhost ++ suf) [])).
  destruct (@portGroup_complete suf (consumed st1 + length dotLocalhost) (caps st1) Hsuf)
    as (fin & Hfin & Hend).
  exists fin.
  eapply Steps_Seq; [constructor; reflexivity|].
  eapply Steps_Seq with (st1 := st1).
  - apply Steps_Group. apply hostLabel_complete. exact Hg.
  - eapply Steps_Seq.
    + apply (Steps_ofString_intro dotLocalhost (consumed st1) suf (caps st1)).
    + eapply Steps_Seq; [exact Hfin|]. constructor. exact Hend.
Qed.

Lemma list_ascii_of_string_app s1 s2 :
  list_ascii_of_string (s1 +++ s2) = list_ascii_of_string s1 ++ list_ascii_of_string s2.
Proof. induction s1 as [|c s1 IH]; simpl; [reflexivity | now rewrite IH]. Qed.

Lemma split_at_first (c : ascii) : forall l1 l2 r1 r2,
  ~ In c l1 -> ~ In c l2 -> l1 ++ c :: r1 = l2 ++ c :: r2 -> l1 = l2 /\ r1 = r2.
Proof.
  induction l1 as [|a l1 IH]; intros [|b l2] r1 r2 H1 H2 E; simpl in *.
  - injection E as ->. auto.
  - injection E as -> _. exfalso. apply H2. now left.
  - injection E as -> _. exfalso. apply H1. now left.
  - injection E as -> E. destruct (IH l2 r1 r2) as [-> ->]; auto.
Qed.

Lemma hostLabel_no_dot g : isHostLabel g = true -> ~ In "."%char g.
Proof.
  destruct g as [|a t]; [discriminate|]. unfold isHostLabel.
  intros H Hin. apply andb_true_iff in H. destruct H as [Ha Ht].
  destruct Hin as [E | Hin].
  - subst a. vm_compute in Ha. discriminate.
  - rewrite forallb_forall in Ht. apply Ht in Hin. vm_compute in Hin. discriminate.
Qed.

Lemma isSlug_isHostLabel l : isSlug l = true -> isHostLabel l = true.
Proof.
  destruct l as [|a t]; [discriminate|]. unfold isSlug, isHostLabel.
  intros H. apply andb_true_iff in H. exact (proj1 H).
Qed.

(** On a match, the first group is the label before [.localhost]. *)
Theorem exec_HOST_RE_sound s cs :
  exec HOST_RE s = Some cs ->
  exists g suf, list_ascii_of_string s = g ++ dotLocalhost ++ suf
                /\ isHostLabel g = true /\ isPortSuffix suf = true
                /\ getCap 1 cs = Some g.
Proof.
  rewrite HOST_RE_unfold, exec_anchored, <- HOST_RE_unfold.
  destruct (m HOST_RE Some _) as [fin|] eqn:E; [|discriminate].
  simpl. intros [= <-].
  apply m_sound in E. destruct E as (st' & Hs & [= ->]).
  eapply HOST_RE_sound. eassumption.
Qed.

Theorem exec_HOST_RE_complete s g suf :
  list_ascii_of_string s = g ++ dotLocalhost ++ suf ->
  isHostLabel g = true -> isPortSuffix suf = true ->
  exists cs, exec HOST_RE s = Some cs /\ getCap 1 cs = Some g.
Proof.
  intros Hs Hg Hsuf.
  destruct (HOST_RE_complete g suf Hg Hsuf) as (fin & Hfin).
  rewrite <- Hs in Hfin.
  destruct (m_complete Some Hfin eq_refl) as (fin' & Hm).
  assert (Hex : exec HOST_RE s = Some (caps fin')).
  { rewrite HOST_RE_unfold, exec_anchored, <- HOST_RE_unfold. now rewrite Hm. }
  exists (caps fin'). split; [exact Hex|].
  destruct (@exec_HOST_RE_sound s _ Hex) as (g' & suf' & Hs' & Hg' & _ & Hcap).
  rewrite Hs in Hs'. unfold dotLocalhost in Hs'. simpl in Hs'.
  apply split_at_first in Hs'; try (apply hostLabel_no_dot; assumption).
  destruct Hs' as [-> _]. exact Hcap.
Qed.

(** [extractSubdomain] returns [name] exactly for the Host values made of a
    label [name], [.localhost] and an optional port. *)
Theorem extractSubdomain_spec req name :
  extractSubdomain req = Some name <->
  exists suf,
    list_ascii_of_string (hostOf req)
    = list_ascii_of_string name ++ dotLocalhost ++ suf
    /\ isHostLabel (list_ascii_of_string name) = true
    /\ isPortSuffix suf = true.
Proof.
  unfold extractSubdomain. split.
  - destruct (exec HOST_RE (hostOf req)) as [cs|] eqn:E; [|discriminate].
    destruct (@exec_HOST_RE_sound _ _ E) as (g & suf & Hs & Hg & Hsuf & Hcap).
    unfold group. rewrite Hcap. simpl. intros [= <-].
    rewrite list_ascii_of_string_of_list_ascii.
    exists suf. repeat split; assumption.
  - intros (suf & Hs & Hg & Hsuf).
    destruct (@exec_HOST_RE_complete _ _ _ Hs Hg Hsuf) as (cs & -> & Hcap).
    unfold group. rewrite Hcap. simpl.
    now rewrite string_of_list_ascii_of_string.
Qed.

Theorem extractSubdomain_none req :
  extractSubdomain req = None <->
  forall g suf, isHostLabel g = true -> isPortSuffix suf = true ->
                list_ascii_of_string (hostOf req) <> g ++ dotLocalhost ++ suf.
Proof.
  split.
  - intros Hnone g suf Hg Hsuf Hs.
    assert (H : extractSubdomain req = Some (string_of_list_ascii g)).
    { apply extractSubdomain_spec. exists suf.
      rewrite list_ascii_of_string_of_list_ascii. auto. }
    congruence.
  - intros H. destruct (extractSubdomain req) as [name|] eqn:E; [|reflexivity].
    apply extractSubdomain_spec in E. destruct E as (suf & Hs & Hg & Hsuf).
    exfalso. exact (H _ _ Hg Hsuf Hs).
Qed.

(** A subdomain that was extracted is never the empty string. *)
Lemma extractSubdomain_truthy req name :
  extractSubdomain req = Some name -> truthyString name = true.
Proof.
  intros H. apply extractSubdomain_spec in H. destruct H as (_ & _ & Hg & _).
  destruct name; [discriminate | reflexivity].
Qed.

(* ================================================================== *)
(** ** The service: what each operation does to the state *)
(* ================================================================== *)

Lemma addTrace_nil s : addTrace s [] = s.
Proof. destruct s. unfold addTrace. simpl. now rewrite app_nil_r. Qed.

Lemma emitProxyEvent_run w ty r e s :
  emitProxyEvent w ty r e s
  = (tt, mkService (server s) (routes s) (port s) (listeners s) (S (ticks s))
                   (trace s ++ emission (ProxyEvent.mk ty r e (clock w (ticks s)))
                                        (listeners s))).
Proof.
  unfold emitProxyEvent, bind, now, this, io, ios, emission. simpl.
  now rewrite <- app_assoc.
Qed.

Lemma tryPort_legal w p s :
  isLegalPort p = true -> tryPort w p s = (inr (canBind w p), addTrace s [Probe p]).
Proof. intros H. unfold tryPort. rewrite H. reflexivity. Qed.

Lemma tryPort_illegal w p s :
  isLegalPort p = false -> tryPort w p s = (inl (ERR_SOCKET_BAD_PORT p), s).
Proof. intros H. unfold tryPort. rewrite H. reflexivity. Qed.

Lemma probeInOrder_cons w p ps s :
  probeInOrder w (p :: ps) s
  = if isLegalPort p then
      if canBind w p then (inr (Some p), addTrace s [Probe p])
      else probeInOrder w ps (addTrace s [Probe p])
    else (inl (ERR_SOCKET_BAD_PORT p), s).
Proof.
  cbn [probeInOrder]. unfold bind at 1.
  destruct (isLegalPort p) eqn:E.
  - rewrite (tryPort_legal w p s E). destruct (canBind w p); reflexivity.
  - rewrite (tryPort_illegal w p s E). reflexivity.
Qed.

Lemma addTrace_addTrace s es1 es2 :
  addTrace (addTrace s es1) es2 = addTrace s (es1 ++ es2).
Proof. unfold addTrace. simpl. now rewrite <- app_assoc. Qed.

Lemma probeInOrder_all_busy w l : forall s,
  (forall q, In q l -> isLegalPort q = true) ->
  (forall q, In q l -> canBind w q = false) ->
  probeInOrder w l s = (inr None, addTrace s (map Probe l)).
Proof.
  induction l as [|p l IH]; intros s Hl H.
  - simpl. unfold ret. now rewrite addTrace_nil.
  - rewrite probeInOrder_cons.
    rewrite (Hl p (or_introl eq_refl)), (H p (or_introl eq_refl)).
    rewrite IH; [| intros q Hq; apply Hl; now right | intros q Hq; apply H; now right].
    now rewrite addTrace_addTrace.
Qed.

Lemma probeInOrder_first_free w pre p post : forall s,
  (forall q, In q (pre ++ [p]) -> isLegalPort q = true) ->
  (forall q, In q pre -> canBind w q = false) ->
  canBind w p = true ->
  probeInOrder w (pre ++ p :: post) s
  = (inr (Some p), addTrace s (map Probe (pre ++ [p]))).
Proof.
  induction pre as [|a pre IH]; intros s Hl H Hp.
  - cbn [app]. rewrite probeInOrder_cons.
    rewrite (Hl p (or_introl eq_refl)), Hp. reflexivity.
  - cbn [app]. rewrite probeInOrder_cons.
    rewrite (Hl a (or_introl eq_refl)), (H a (or_introl eq_refl)).
    rewrite IH; [| intros q Hq; apply Hl; now right
                 | intros q Hq; apply H; now right | exact Hp].
    now rewrite addTrace_addTrace.
Qed.

(** The loop is rejected at the first candidate that is not a legal port,
    when no candidate before it has bound. *)
Lemma probeInOrder_illegal w pre p post : forall s,
  (forall q, In q pre -> isLegalPort q = true) ->
  (forall q, In q pre -> canBind w q = false) ->
  isLegalPort p = false ->
  probeInOrder w (pre ++ p :: post) s
  = (inl (ERR_SOCKET_BAD_PORT p), addTrace s (map Probe pre)).
Proof.
  induction pre as [|a pre IH]; intros s Hl H Hp.
  - cbn [app map]. rewrite probeInOrder_cons, Hp. now rewrite addTrace_nil.
  - cbn [app]. rewrite probeInOrder_cons.
    rewrite (Hl a (or_introl eq_refl)), (H a (or_introl eq_refl)).
    rewrite IH; [| intros q Hq; apply Hl; now right
                 | intros q Hq; apply H; now right | exact Hp].
    now rewrite addTrace_addTrace.
Qed.

(** Among legal candidates the loop is not rejected, and a port it returns
    is one of them. *)
Lemma probeInOrder_legal w l : forall s,
  (forall q, In q l -> isLegalPort q = true) ->
  exists found s', probeInOrder w l s = (inr found, s')
                   /\ forall p, found = Some p -> In p l.
Proof.
  induction l as [|p l IH]; intros s Hl.
  - exists None, s. split; [reflexivity | discriminate].
  - rewrite probeInOrder_cons, (Hl p (or_introl eq_refl)).
    destruct (canBind w p).
    + eexists _, _. split; [reflexivity|]. intros q [= <-]. now left.
    + destruct (IH (addTrace s [Probe p])) as (found & s' & -> & Hin);
        [intros q Hq; apply Hl; now right|].
      exists found, s'. split; [reflexivity|]. intros q Hq. right. now apply Hin.
Qed.

Lemma probeInOrder_returns_legal w l : forall s p s',
  probeInOrder w l s = (inr (Some p), s') -> isLegalPort p = true.
Proof.
  induction l as [|a l IH]; intros s p s' H.
  - discriminate.
  - rewrite probeInOrder_cons in H. destruct (isLegalPort a) eqn:E; [|discriminate].
    destruct (canBind w a).
    + injection H as <- _. exact E.
    + eapply IH. exact H.
Qed.

Lemma published_app es1 es2 : published (es1 ++ es2) = published es1 ++ published es2.
Proof.
  induction es1 as [|e es1 IH]; simpl; [reflexivity|].
  destruct e; simpl; now rewrite IH.
Qed.

Lemma deliveredTo_app l es1 es2 :
  deliveredTo l (es1 ++ es2) = deliveredTo l es1 ++ deliveredTo l es2.
Proof.
  induction es1 as [|e es1 IH]; simpl; [reflexivity|].
  destruct e; simpl; try now rewrite IH.
  destruct (Nat.eqb l l0); simpl; now rewrite IH.
Qed.

Lemma quiet_nil : quiet [].
Proof. split; reflexivity. Qed.

Lemma quiet_app es1 es2 : quiet es1 -> quiet es2 -> quiet (es1 ++ es2).
Proof.
  intros [P1 D1] [P2 D2]. split.
  - now rewrite published_app, P1, P2.
  - intros l. now rewrite deliveredTo_app, D1, D2.
Qed.

Lemma quiet_faithful ls es : quiet es -> faithful ls es.
Proof. intros [P D] l. now rewrite P, D. Qed.

Lemma faithful_app ls es1 es2 :
  faithful ls es1 -> faithful ls es2 -> faithful ls (es1 ++ es2).
Proof.
  intros H1 H2 l.
  now rewrite deliveredTo_app, published_app, flat_map_app, H1, H2.
Qed.

Lemma published_deliveries evt ls :
  published (map (fun l => Deliver l evt) ls) = [].
Proof. induction ls as [|x ls IH]; simpl; [reflexivity | exact IH]. Qed.

Lemma deliveredTo_deliveries evt l ls :
  deliveredTo l (map (fun l' => Deliver l' evt) ls)
  = repeat evt (count_occ Nat.eq_dec ls l).
Proof.
  induction ls as [|x ls IH]; simpl; [reflexivity|].
  destruct (Nat.eq_dec x l) as [->|Hne].
  - rewrite Nat.eqb_refl. simpl. now rewrite IH.
  - destruct (Nat.eqb l x) eqn:E.
    + apply Nat.eqb_eq in E. congruence.
    + exact IH.
Qed.

Lemma faithful_emission evt ls : faithful ls (emission evt ls).
Proof.
  intros l. unfold emission. simpl.
  now rewrite published_deliveries, deliveredTo_deliveries, app_nil_r.
Qed.

Lemma published_emission evt ls : published (emission evt ls) = [evt].
Proof. unfold emission. simpl. now rewrite published_deliveries. Qed.

(** [pickAvailablePort] only probes: it leaves the service as it was, the
    probes apart. *)
Lemma probeInOrder_quiet w l : forall s,
  exists found es, probeInOrder w l s = (found, addTrace s es) /\ quiet es.
Proof.
  induction l as [|p l IH]; intros s.
  - exists (inr None), []. simpl. unfold ret. rewrite addTrace_nil.
    split; [reflexivity | apply quiet_nil].
  - rewrite probeInOrder_cons. destruct (isLegalPort p).
    + destruct (canBind w p).
      * eexists _, [Probe p]. split; [reflexivity | split; reflexivity].
      * destruct (IH (addTrace s [Probe p])) as (found & es & -> & Hq).
        exists found, (Probe p :: es). split.
        -- now rewrite addTrace_addTrace.
        -- destruct Hq as [Q1 Q2]. split; simpl; [exact Q1 | exact Q2].
    + eexists _, []. rewrite addTrace_nil. split; [reflexivity | apply quiet_nil].
Qed.

Lemma pickAvailablePort_quiet w l s :
  exists picked es, pickAvailablePort w l s = (picked, addTrace s es) /\ quiet es.
Proof.
  unfold pickAvailablePort, bind.
  destruct (probeInOrder_quiet w l s) as (found & es & -> & Hq).
  destruct found as [e|[p|]].
  - exists (inl e), es. split; [reflexivity | exact Hq].
  - exists (inr p), es. split; [reflexivity | exact Hq].
  - unfold ephemeralPort, bind, io, ret. simpl.
    eexists _, (es ++ [ProbeEphemeral]). split.
    + unfold addTrace. simpl. rewrite <- app_assoc. reflexivity.
    + apply quiet_app; [exact Hq | split; reflexivity].
Qed.

(** A port that [pickAvailablePort] returns is a legal one. *)
Lemma pickAvailablePort_returns_legal w l s p s' :
  pickAvailablePort w l s = (inr p, s') -> isLegalPort p = true.
Proof.
  unfold pickAvailablePort, bind.
  destruct (probeInOrder w l s) as [[e|[q|]] s1] eqn:E; unfold ret.
  - discriminate.
  - intros [= <- _]. exact (probeInOrder_returns_legal w l s E).
  - unfold ephemeralPort, bind, io, ret. cbn. intros [= <- _].
    destruct (ephemeral w) as [[a|]|]; try reflexivity.
    destruct (truthyNumber (ai_port a)); [apply ai_legal | reflexivity].
Qed.

(** Among legal candidates [pickAvailablePort] is not rejected. *)
Lemma pickAvailablePort_legal w l s :
  (forall q, In q l -> isLegalPort q = true) ->
  exists p s', pickAvailablePort w l s = (inr p, s').
Proof.
  intros Hl. unfold pickAvailablePort, bind.
  destruct (probeInOrder_legal w l s Hl) as (found & s1 & -> & _).
  destruct found as [p|]; unfold ret.
  - eauto.
  - destruct (ephemeralPort w s1) as [p s2]. eauto.
Qed.

Lemma DEFAULT_PORTS_legal q : In q DEFAULT_PORTS -> isLegalPort q = true.
Proof. intros [<- | [<- | [<- | [<- | []]]]]; reflexivity. Qed.

(** [startListening]: probes, then one real bind and one event, unless a
    probe threw. *)
Lemma startListening_run w a s :
  exists picked es,
    quiet es /\
    pickAvailablePort w (candidates a) s = (picked, addTrace s es) /\
    startListening w a s =
    match picked with
    | inl e => (inl e, addTrace s es)
    | inr chosen =>
        match listen w chosen with
        | None =>
            (inr (mkStartResult true (Some chosen) None),
             mkService (Some (mkServer chosen)) (routes s) (Some chosen) (listeners s)
                       (S (ticks s))
                       (trace s ++ es ++ Listen chosen
                          :: emission (ProxyEvent.mk ProxyEventType.started None None
                                                     (clock w (ticks s)))
                                      (listeners s)))
        | Some msg =>
            (inr (mkStartResult false None
                    (Some ("Failed to listen on port " +++ Number_toString chosen))),
             mkService (server s) (routes s) (port s) (listeners s) (S (ticks s))
                       (trace s ++ es ++ Listen chosen
                          :: emission (ProxyEvent.mk ProxyEventType.error None (Some msg)
                                                     (clock w (ticks s)))
                                      (listeners s)))
        end
    end.
Proof.
  destruct (pickAvailablePort_quiet w (candidates a) s) as (picked & es & Hpick & Hq).
  exists picked, es. split; [exact Hq|]. split; [exact Hpick|].
  unfold startListening, bind at 1. rewrite Hpick.
  destruct picked as [e|chosen]; [reflexivity|].
  destruct (listen w chosen) as [msg|].
  - unfold bind, io, ret. rewrite emitProxyEvent_run. simpl.
    rewrite <- !app_assoc. reflexivity.
  - unfold bind, io, set_server, set_port, ret. rewrite emitProxyEvent_run. simpl.
    rewrite <- !app_assoc. reflexivity.
Qed.

Lemma start_startListening w a s :
  server s = None -> start w a s = startListening w a s.
Proof. intros H. unfold start, bind, this. now rewrite H. Qed.

(** [start] on a stopped engine. *)
Lemma start_stopped_run w a s :
  server s = None ->
  exists picked es,
    quiet es /\
    pickAvailablePort w (candidates a) s = (picked, addTrace s es) /\
    start w a s =
    match picked with
    | inl e => (inl e, addTrace s es)
    | inr chosen =>
        match listen w chosen with
        | None =>
            (inr (mkStartResult true (Some chosen) None),
             mkService (Some (mkServer chosen)) (routes s) (Some chosen) (listeners s)
                       (S (ticks s))
                       (trace s ++ es ++ Listen chosen
                          :: emission (ProxyEvent.mk ProxyEventType.started None None
                                                     (clock w (ticks s)))
                                      (listeners s)))
        | Some msg =>
            (inr (mkStartResult false None
                    (Some ("Failed to listen on port " +++ Number_toString chosen))),
             mkService None (routes s) (port s) (listeners s) (S (ticks s))
                       (trace s ++ es ++ Listen chosen
                          :: emission (ProxyEvent.mk ProxyEventType.error None (Some msg)
                                                     (clock w (ticks s)))
                                      (listeners s)))
        end
    end.
Proof.
  intros Hs. rewrite (start_startListening w a s Hs).
  destruct (startListening_run w a s) as (picked & es & Hq & Hpick & Hrun).
  exists picked, es. split; [exact Hq|]. split; [exact Hpick|].
  rewrite Hrun. now rewrite Hs.
Qed.

(** [start] on a stopped engine, when every candidate is a legal port: it
    is not rejected. *)
Lemma start_stopped w a s :
  server s = None ->
  (forall q, In q (candidates a) -> isLegalPort q = true) ->
  exists chosen es,
    quiet es /\
    pickAvailablePort w (candidates a) s = (inr chosen, addTrace s es) /\
    start w a s =
    match listen w chosen with
    | None =>
        (inr (mkStartResult true (Some chosen) None),
         mkService (Some (mkServer chosen)) (routes s) (Some chosen) (listeners s)
                   (S (ticks s))
                   (trace s ++ es ++ Listen chosen
                      :: emission (ProxyEvent.mk ProxyEventType.started None None
                                                 (clock w (ticks s)))
                                  (listeners s)))
    | Some msg =>
        (inr (mkStartResult false None
                (Some ("Failed to listen on port " +++ Number_toString chosen))),
         mkService None (routes s) (port s) (listeners s) (S (ticks s))
                   (trace s ++ es ++ Listen chosen
                      :: emission (ProxyEvent.mk ProxyEventType.error None (Some msg)
                                                 (clock w (ticks s)))
                                  (listeners s)))
    end.
Proof.
  intros Hs Hl.
  destruct (start_stopped_run w a s Hs) as (picked & es & Hq & Hpick & Hrun).
  destruct (pickAvailablePort_legal w (candidates a) s Hl) as (p & s' & Hp).
  rewrite Hp in Hpick. injection Hpick as <- ->.
  exists p, es. auto.
Qed.

(** Without a port argument the candidates are the default ports. *)
Lemma start_default_stopped w s :
  server s = None ->
  exists chosen es,
    quiet es /\
    pickAvailablePort w DEFAULT_PORTS s = (inr chosen, addTrace s es) /\
    start w None s =
    match listen w chosen with
    | None =>
        (inr (mkStartResult true (Some chosen) None),
         mkService (Some (mkServer chosen)) (routes s) (Some chosen) (listeners s)
                   (S (ticks s))
                   (trace s ++ es ++ Listen chosen
                      :: emission (ProxyEvent.mk ProxyEventType.started None None
                                                 (clock w (ticks s)))
                                  (listeners s)))
    | Some msg =>
        (inr (mkStartResult false None
                (Some ("Failed to listen on port " +++ Number_toString chosen))),
         mkService None (routes s) (port s) (listeners s) (S (ticks s))
                   (trace s ++ es ++ Listen chosen
                      :: emission (ProxyEvent.mk ProxyEventType.error None (Some msg)
                                                 (clock w (ticks s)))
                                  (listeners s)))
    end.
Proof. intros Hs. apply (start_stopped w None s Hs). apply DEFAULT_PORTS_legal. Qed.

Lemma start_running w a s srv :
  server s = Some srv -> start w a s = (inr (mkStartResult true (port s) None), s).
Proof. intros H. unfold start, bind, this, ret. now rewrite H. Qed.

Lemma stop_stopped w s : server s = None -> stop w s = (true, s).
Proof. intros H. unfold stop, bind, this, ret. now rewrite H. Qed.

Lemma stop_running w s srv :
  server s = Some srv ->
  stop w s =
  (true, mkService None [] None (listeners s) (S (ticks s))
           (trace s ++ CloseServer
              :: emission (ProxyEvent.mk ProxyEventType.stopped None None
                                         (clock w (ticks s)))
                          (listeners s))).
Proof.
  intros H. unfold stop, bind at 1, this. rewrite H.
  unfold bind, io, set_server, set_port, set_routes, ret.
  rewrite emitProxyEvent_run. simpl.
  rewrite <- !app_assoc. reflexivity.
Qed.

Lemma addRoute_invalid w name tp o s :
  test SLUG_RE name = false -> addRoute w name tp o s = (inl (InvalidName name), s).
Proof. intros H. unfold addRoute, bind, this, ret. now rewrite H. Qed.

Lemma addRoute_duplicate w name tp o s :
  test SLUG_RE name = true -> Map_has name (routes s) = true ->
  addRoute w name tp o s = (inl (DuplicateName name), s).
Proof. intros H1 H2. unfold addRoute, bind, this, ret. now rewrite H1, H2. Qed.

Lemma storeRoute_run w name tp o s :
  let route := newRoute name tp o (port s) (clock w (ticks s)) in
  storeRoute w name tp o s =
  (route,
   mkService (server s) (Map_set name route (routes s)) (port s) (listeners s)
             (S (S (ticks s)))
             (trace s ++ emission (ProxyEvent.mk ProxyEventType.route_added
                                     (Some route) None (clock w (S (ticks s))))
                                  (listeners s))).
Proof.
  cbv zeta. unfold storeRoute, bind, ret, this, now, set_routes.
  rewrite emitProxyEvent_run. reflexivity.
Qed.

Lemma addRoute_fresh w name tp o s :
  test SLUG_RE name = true -> Map_has name (routes s) = false ->
  let s1 := afterAutoStart w s in
  let route := newRoute name tp o (port s1) (clock w (ticks s1)) in
  addRoute w name tp o s =
  (inr route,
   mkService (server s1) (Map_set name route (routes s1)) (port s1) (listeners s1)
             (S (S (ticks s1)))
             (trace s1 ++ emission (ProxyEvent.mk ProxyEventType.route_added
                                      (Some route) None (clock w (S (ticks s1))))
                                   (listeners s1))).
Proof.
  intros H1 H2. unfold addRoute, bind at 1, this. rewrite H1, H2.
  change (negb true) with false. cbv iota.
  unfold afterAutoStart.
  destruct (server s) as [srv|] eqn:Hs.
  - unfold bind, ret. rewrite storeRoute_run. reflexivity.
  - unfold bind at 1. unfold bind at 1.
    destruct (start w None s) as [r s1]. unfold ret at 1.
    unfold bind, ret. rewrite storeRoute_run. reflexivity.
Qed.

(** A call of [addRoute] that is begun and, when it was suspended, resumed
    with nothing in between is the awaited call. *)
Lemma addRoute_begin_resume w name tp o s :
  addRoute w name tp o s
  = match beginAddRoute w name tp o s with
    | (Settled r, s') => (r, s')
    | (Suspended call, s') => resumeAddRoute w call s'
    end.
Proof.
  unfold addRoute, beginAddRoute, resumeAddRoute, bind, this, ret.
  destruct (negb (test SLUG_RE name)); [reflexivity|].
  destruct (Map_has name (routes s)); [reflexivity|].
  destruct (server s) as [srv|] eqn:Hs.
  - destruct (storeRoute w name tp o s). reflexivity.
  - cbn [pa_name pa_targetPort pa_opts].
    rewrite (start_startListening w None s Hs).
    destruct (startListening w None s) as [r s1]. reflexivity.
Qed.

Lemma beginAddRoute_suspended w name tp o s :
  test SLUG_RE name = true -> Map_has name (routes s) = false -> server s = None ->
  beginAddRoute w name tp o s = (Suspended (mkPending name tp o), s).
Proof.
  intros H1 H2 H3. unfold beginAddRoute, bind, this, ret. now rewrite H1, H2, H3.
Qed.

Lemma beginAddRoute_settled w name tp o s srv :
  server s = Some srv ->
  beginAddRoute w name tp o s
  = (Settled (fst (addRoute w name tp o s)), snd (addRoute w name tp o s)).
Proof.
  intros Hs. rewrite addRoute_begin_resume.
  unfold beginAddRoute, bind, this, ret.
  destruct (negb (test SLUG_RE name)); [reflexivity|].
  destruct (Map_has name (routes s)); [reflexivity|].
  rewrite Hs. destruct (storeRoute w name tp o s). reflexivity.
Qed.

Lemma beginAddRoute_thrown w name tp o s err :
  fst (addRoute w name tp o s) = inl err ->
  beginAddRoute w name tp o s = (Settled (inl err), s).
Proof.
  rewrite addRoute_begin_resume.
  unfold beginAddRoute, resumeAddRoute, bind, this, ret.
  destruct (negb (test SLUG_RE name)); [cbn; now intros [= <-]|].
  destruct (Map_has name (routes s)); [cbn; now intros [= <-]|].
  destruct (server s) as [srv|].
  - destruct (storeRoute w name tp o s). discriminate.
  - destruct (startListening w None s) as [r s1].
    destruct (storeRoute _ _ _ _ s1). discriminate.
Qed.

(** ** The registry *)

Lemma Map_get_set_same {V} k (v : V) mp : Map_get k (Map_set k v mp) = Some v.
Proof.
  induction mp as [|[k' v'] mp IH]; simpl.
  - now rewrite String.eqb_refl.
  - destruct (String.eqb k k') eqn:E; simpl; rewrite E; [reflexivity | exact IH].
Qed.

Lemma Map_get_set_other {V} k k' (v : V) mp :
  k' <> k -> Map_get k' (Map_set k v mp) = Map_get k' mp.
Proof.
  intros Hne. induction mp as [|[k0 v0] mp IH]; simpl.
  - destruct (String.eqb k' k) eqn:E; [|reflexivity].
    apply String.eqb_eq in E. contradiction.
  - destruct (String.eqb k k0) eqn:E; simpl.
    + apply String.eqb_eq in E. subst k0.
      destruct (String.eqb k' k) eqn:E'; [|reflexivity].
      apply String.eqb_eq in E'. contradiction.
    + now rewrite IH.
Qed.

Lemma Map_has_set_same {V} k (v : V) mp : Map_has k (Map_set k v mp) = true.
Proof. unfold Map_has. now rewrite Map_get_set_same. Qed.

(** The grammar in words: what makes a name fail the slug pattern. *)
Lemma test_SLUG_RE_chars name :
  test SLUG_RE name = true ->
  name <> EmptyString
  /\ forallb isAlnumHyphen (list_ascii_of_string name) = true
  /\ (exists a t, list_ascii_of_string name = a :: t
                  /\ isAlnum a = true /\ isAlnum (last t a) = true).
Proof.
  rewrite test_SLUG_RE. destruct name as [|a t]; [discriminate|].
  simpl. intros H.
  apply andb_true_iff in H. destruct H as [H Hlast].
  apply andb_true_iff in H. destruct H as [Ha Hall].
  split; [discriminate|]. split.
  - now rewrite (alnum_alnumHyphen a Ha), Hall.
  - exists a, (list_ascii_of_string t). auto.
Qed.

Lemma test_SLUG_RE_bad_char name c :
  In c (list_ascii_of_string name) -> isAlnumHyphen c = false ->
  test SLUG_RE name = false.
Proof.
  intros Hin Hc. destruct (test SLUG_RE name) eqn:E; [|reflexivity].
  apply test_SLUG_RE_chars in E. destruct E as (_ & Hall & _).
  rewrite forallb_forall in Hall. rewrite (Hall c Hin) in Hc. discriminate.
Qed.

Lemma test_SLUG_RE_leading_hyphen t : test SLUG_RE (String "-"%char t) = false.
Proof. rewrite test_SLUG_RE. reflexivity. Qed.

Lemma test_SLUG_RE_empty : test SLUG_RE EmptyString = false.
Proof. reflexivity. Qed.

(** C3: for every name that the slug pattern rejects (uppercase letters, a
    leading hyphen, an embedded space, the empty name, ...), [addRoute]
    fails with the InvalidName error and leaves the service, and so the
    registry, exactly as it was. *)
Theorem C3_addRoute_invalid_name w name targetPort opts s :
  test SLUG_RE name = false ->
  addRoute w name targetPort opts s = (inl (InvalidName name), s)
  /\ routes (snd (addRoute w name targetPort opts s)) = routes s.
Proof.
  intros H. rewrite (addRoute_invalid w name targetPort opts s H).
  split; reflexivity.
Qed.

Lemma C3_witness :
  test SLUG_RE "UPPERCASE" = false
  /\ addRoute calmWorld "UPPERCASE" 3000 None localProxyService
     = (inl (InvalidName "UPPERCASE"), localProxyService).
Proof.
  split; [reflexivity|].
  apply (C3_addRoute_invalid_name calmWorld "UPPERCASE" 3000 None localProxyService).
  reflexivity.
Defined.

(** For a name that matches the slug pattern and is not registered, an
    awaited [addRoute] succeeds and stores the route it returns; a second
    [addRoute] with the same name, whatever its other arguments, fails with
    the DuplicateName error and changes nothing, so the first registration
    stays. *)
Lemma addRoute_then_duplicate w1 w2 name p1 p2 o1 o2 s :
  test SLUG_RE name = true ->
  Map_has name (routes s) = false ->
  exists route s1,
    addRoute w1 name p1 o1 s = (inr route, s1)
    /\ getRoute name s1 = Some route
    /\ addRoute w2 name p2 o2 s1 = (inl (DuplicateName name), s1)
    /\ getRoute name (snd (addRoute w2 name p2 o2 s1)) = Some route.
Proof.
  intros Hslug Hfresh.
  pose proof (addRoute_fresh w1 name p1 o1 s Hslug Hfresh) as Hadd.
  cbv zeta in Hadd. rewrite Hadd.
  eexists _, _. split; [reflexivity|].
  assert (Hget : forall r mp, @Map_get ProxyRoute.t name (Map_set name r mp) = Some r)
    by (intros; apply Map_get_set_same).
  split; [unfold getRoute; simpl; apply Hget|].
  rewrite addRoute_duplicate.
  - split; [reflexivity|]. unfold getRoute. simpl. apply Hget.
  - exact Hslug.
  - simpl. apply Map_has_set_same.
Qed.

(** A suspended call of [addRoute] returns a route when it is resumed,
    whatever became of its [start()] and of the registry in between. *)
Lemma resumeAddRoute_returns w call s :
  exists route s',
    resumeAddRoute w call s = (inr route, s')
    /\ getRoute (pa_name call) s' = Some route
    /\ ProxyRoute.targetPort route = pa_targetPort call.
Proof.
  unfold resumeAddRoute, bind. destruct (startListening w None s) as [r s1].
  rewrite storeRoute_run. cbv zeta. unfold ret. eexists _, _.
  split; [reflexivity|]. split; [|reflexivity].
  unfold getRoute. cbn [routes]. apply Map_get_set_same.
Qed.

(** Two calls of [addRoute] with one name that are both made before either
    is resumed, on an engine without a server: both pass the test of l.77,
    both are suspended, and both return a route when they are resumed; the
    registry holds the route of the call resumed last. *)
Lemma addRoute_overlapping w1 w2 name p1 p2 o1 o2 s :
  test SLUG_RE name = true -> Map_has name (routes s) = false -> server s = None ->
  exists r1 s1 r2 s2,
    beginAddRoute w1 name p1 o1 s = (Suspended (mkPending name p1 o1), s)
    /\ beginAddRoute w2 name p2 o2 s = (Suspended (mkPending name p2 o2), s)
    /\ resumeAddRoute w1 (mkPending name p1 o1) s = (inr r1, s1)
    /\ resumeAddRoute w2 (mkPending name p2 o2) s1 = (inr r2, s2)
    /\ getRoute name s2 = Some r2
    /\ ProxyRoute.targetPort r2 = p2.
Proof.
  intros Hslug Hhas Hs.
  destruct (resumeAddRoute_returns w1 (mkPending name p1 o1) s) as (r1 & s1 & H1 & _).
  destruct (resumeAddRoute_returns w2 (mkPending name p2 o2) s1)
    as (r2 & s2 & H2 & Hget & Hport).
  exists r1, s1, r2, s2.
  split; [now apply beginAddRoute_suspended|].
  split; [now apply beginAddRoute_suspended|]. auto.
Qed.

(** C4: [addRoute('my-app', 3000)] on a stopped engine, in a world where
    the real bind reports an error, stores the route although the engine
    stays stopped; [stop()] then returns without clearing the registry, and
    after a [start()] that succeeds the first [addRoute('my-app', ...)] of
    the engine's lifetime fails with the DuplicateName error: the name is
    taken by a route registered before the engine ever listened. *)
Theorem C4_first_addRoute_of_a_lifetime_is_a_duplicate :
  exists route s1 s2,
    addRoute raceWorld "my-app" 3000 None localProxyService = (inr route, s1)
    /\ server s1 = None
    /\ stop calmWorld s1 = (true, s1)
    /\ start calmWorld None s1 = (inr (mkStartResult true (Some 9000%Z) None), s2)
    /\ server s2 = Some (mkServer 9000%Z)
    /\ addRoute calmWorld "my-app" 3001 None s2 = (inl (DuplicateName "my-app"), s2)
    /\ getRoutes s2 = [route]
    /\ ProxyRoute.targetPort route = 3000%Z.
Proof.
  eexists _, _, _. split; [vm_compute; reflexivity|].
  split; [reflexivity|]. split; [vm_compute; reflexivity|].
  split; [vm_compute; reflexivity|].
  repeat split.
Qed.

Lemma addRoute_failure w name targetPort opts s err s' :
  addRoute w name targetPort opts s = (inl err, s') ->
  s' = s /\ (err = InvalidName name \/ err = DuplicateName name).
Proof.
  intros H.
  destruct (test SLUG_RE name) eqn:Hslug.
  - destruct (Map_has name (routes s)) eqn:Hhas.
    + rewrite (addRoute_duplicate w name targetPort opts s Hslug Hhas) in H.
      injection H as <- <-. auto.
    + pose proof (addRoute_fresh w name targetPort opts s Hslug Hhas) as Hadd.
      cbv zeta in Hadd. rewrite Hadd in H. discriminate.
  - rewrite (addRoute_invalid w name targetPort opts s Hslug) in H.
    injection H as <- <-. auto.
Qed.

(** C10: when [addRoute] fails, the error is InvalidName or DuplicateName
    and the service is exactly what it was: same engine state and port, same
    registry, same clock readings, and nothing added to the trace, hence no
    probe, no bind and no event; a stopped engine stays stopped. *)
Theorem C10_failed_addRoute_changes_nothing w name targetPort opts s err s' :
  addRoute w name targetPort opts s = (inl err, s') ->
  s' = s
  /\ (err = InvalidName name \/ err = DuplicateName name)
  /\ getState s' = getState s
  /\ trace s' = trace s.
Proof.
  intros H. apply addRoute_failure in H. destruct H as (-> & Herr). auto.
Qed.

Lemma C10_witness :
  addRoute raceWorld "-leading" 3000 None localProxyService
  = (inl (InvalidName "-leading"), localProxyService)
  /\ (localProxyService = localProxyService
      /\ (InvalidName "-leading" = InvalidName "-leading"
          \/ InvalidName "-leading" = DuplicateName "-leading")
      /\ getState localProxyService = getState localProxyService
      /\ trace localProxyService = trace localProxyService).
Proof.
  split; [reflexivity|].
  apply (@C10_failed_addRoute_changes_nothing raceWorld "-leading" 3000 None
           localProxyService (InvalidName "-leading") localProxyService).
  reflexivity.
Defined.

(** ** Requests *)

Lemma unknownRouteBody_phrase subdomain port :
  includes (unknownRouteBody subdomain port) "Unknown route".
Proof.
  exists ("<html><body style=" +++ dq
          +++ "background:#1a1a2e;color:#e0e0e0;font-family:system-ui;padding:2rem"
          +++ dq +++ "><h1>502 — ").
  exists ("</h1>"
          +++ ("<p>No route registered for <code>" +++ subdomain +++ "</code>.</p>")
          +++ ("<p><a href=" +++ dq +++ "http://localhost:" +++ showPort port +++ dq
               +++ " style=" +++ dq +++ "color:#7c9aff" +++ dq
               +++ ">View dashboard</a></p>")
          +++ "</body></html>").
  reflexivity.
Qed.

Lemma handleRequest_unknown w req s subdomain :
  extractSubdomain req = Some subdomain ->
  getRoute subdomain s = None ->
  handleRequest w req s
  = (inr tt, addTrace s [Respond 502 htmlType
                             (Text (unknownRouteBody subdomain (port s)))]).
Proof.
  intros Hsub Hget. unfold handleRequest. rewrite Hsub.
  rewrite (extractSubdomain_truthy req Hsub). cbn [negb].
  unfold bind, this. unfold getRoute in Hget. rewrite Hget. reflexivity.
Qed.

(** C2: when the Host header yields a subdomain for which no route is
    registered, the only thing the proxy does is answer 502 with an HTML
    body that contains the phrase "Unknown route": nothing else is added to
    the trace, so no request or connection to a backend is made, and the
    service is otherwise unchanged. *)
Theorem C2_unknown_subdomain_502 w req s subdomain :
  extractSubdomain req = Some subdomain ->
  getRoute subdomain s = None ->
  exists body,
    handleRequest w req s = (inr tt, addTrace s [Respond 502 htmlType (Text body)])
    /\ includes body "Unknown route"
    /\ forall e, In e [Respond 502 htmlType (Text body)] -> isOutbound e = false.
Proof.
  intros Hsub Hget. exists (unknownRouteBody subdomain (port s)).
  split; [apply handleRequest_unknown; assumption|].
  split; [apply unknownRouteBody_phrase|].
  intros e [<- | []]. reflexivity.
Qed.

Lemma C2_witness :
  exists body,
    handleRequest calmWorld (requestTo "unknown.localhost:9000") localProxyService
    = (inr tt, addTrace localProxyService [Respond 502 htmlType (Text body)])
    /\ includes body "Unknown route"
    /\ forall e, In e [Respond 502 htmlType (Text body)] -> isOutbound e = false.
Proof.
  apply (@C2_unknown_subdomain_502 calmWorld (requestTo "unknown.localhost:9000")
           localProxyService "unknown"); reflexivity.
Defined.

(** C8: an Upgrade request whose Host header yields no subdomain, or a
    subdomain without a route, makes the proxy destroy the client socket
    and do nothing else: no response is written and the service is
    otherwise unchanged. *)
Theorem C8_upgrade_rejected_at_socket_level w req s :
  extractSubdomain req = None
  \/ (exists subdomain, extractSubdomain req = Some subdomain
                        /\ getRoute subdomain s = None) ->
  handleUpgrade w req s = (inr tt, addTrace s [ClientDestroy])
  /\ forall e, In e [ClientDestroy] -> isResponse e = false /\ isOutbound e = false.
Proof.
  intros H. split.
  - unfold handleUpgrade. destruct H as [-> | (sub & Hsub & Hget)].
    + reflexivity.
    + rewrite Hsub, (extractSubdomain_truthy req Hsub). cbn [negb].
      unfold bind, this. unfold getRoute in Hget. rewrite Hget. reflexivity.
  - intros e [<- | []]. split; reflexivity.
Qed.

Lemma C8_witness :
  handleUpgrade calmWorld (requestTo "localhost:9000") localProxyService
  = (inr tt, addTrace localProxyService [ClientDestroy])
  /\ forall e, In e [ClientDestroy] -> isResponse e = false /\ isOutbound e = false.
Proof.
  apply (C8_upgrade_rejected_at_socket_level calmWorld (requestTo "localhost:9000")
                                             localProxyService).
  left. reflexivity.
Defined.

(** ** Port selection *)

Lemma pickAvailablePort_first_free w pre p post s :
  (forall q, In q (pre ++ [p]) -> isLegalPort q = true) ->
  (forall q, In q pre -> canBind w q = false) ->
  canBind w p = true ->
  pickAvailablePort w (pre ++ p :: post) s
  = (inr p, addTrace s (map Probe (pre ++ [p]))).
Proof.
  intros Hl Hpre Hp. unfold pickAvailablePort, bind.
  now rewrite (probeInOrder_first_free w pre p post s Hl Hpre Hp).
Qed.

Lemma pickAvailablePort_all_busy w l s :
  (forall q, In q l -> isLegalPort q = true) ->
  (forall q, In q l -> canBind w q = false) ->
  pickAvailablePort w l s
  = (inr (match ephemeral w with
          | Listening (Some a) => if Z.eqb (ai_port a) 0 then 9000%Z else ai_port a
          | Listening None => 9000%Z
          | ListenError => 9000%Z
          end),
     addTrace s (map Probe l ++ [ProbeEphemeral])).
Proof.
  intros Hlegal Hl. unfold pickAvailablePort, bind.
  rewrite (probeInOrder_all_busy w l s Hlegal Hl).
  unfold ephemeralPort, bind, io, ret. simpl.
  rewrite <- app_assoc. unfold addTrace. simpl. do 2 f_equal.
  destruct (ephemeral w) as [[a|]|]; try reflexivity.
  unfold truthyNumber. now destruct (Z.eqb (ai_port a) 0).
Qed.

(** A candidate that is not a legal port, reached because no candidate
    before it has bound, makes [pickAvailablePort] throw: the candidates
    after it are not probed and port 0 is not tried. *)
Lemma pickAvailablePort_illegal w pre p post s :
  (forall q, In q pre -> isLegalPort q = true) ->
  (forall q, In q pre -> canBind w q = false) ->
  isLegalPort p = false ->
  pickAvailablePort w (pre ++ p :: post) s
  = (inl (ERR_SOCKET_BAD_PORT p), addTrace s (map Probe pre)).
Proof.
  intros Hl Hpre Hp. unfold pickAvailablePort, bind.
  now rewrite (probeInOrder_illegal w pre p post s Hl Hpre Hp).
Qed.

(** C7: the candidates are the preferred port, when one is given, followed
    by the four default ports; [pickAvailablePort] probes the candidate
    ports in order and returns the first one whose probe binds, having
    probed exactly the candidates up to it; when no candidate binds it has
    probed them all, binds port 0 and returns the port the operating system
    allocated.  A candidate port is a number from 0 to 65535. *)
Theorem C7_port_selection w :
  candidates None = [9000; 9001; 9002; 9100]%Z
  /\ (forall p, p <> 0%Z -> candidates (Some p) = (p :: [9000; 9001; 9002; 9100])%Z)
  /\ (forall pre p post s,
         (forall q, In q (pre ++ [p]) -> isLegalPort q = true) ->
         (forall q, In q pre -> canBind w q = false) ->
         canBind w p = true ->
         pickAvailablePort w (pre ++ p :: post) s
         = (inr p, addTrace s (map Probe (pre ++ [p]))))
  /\ (forall l a s,
         (forall q, In q l -> isLegalPort q = true) ->
         (forall q, In q l -> canBind w q = false) ->
         ephemeral w = Listening (Some a) -> ai_port a <> 0%Z ->
         pickAvailablePort w l s
         = (inr (ai_port a), addTrace s (map Probe l ++ [ProbeEphemeral]))).
Proof.
  split; [reflexivity|]. split; [|split].
  - intros p Hp. unfold candidates, truthyNumber.
    destruct (Z.eqb p 0) eqn:E; [|reflexivity].
    apply Z.eqb_eq in E. contradiction.
  - intros pre p post s. apply pickAvailablePort_first_free.
  - intros l a s Hlegal Hl He Hp.
    rewrite (pickAvailablePort_all_busy w l s Hlegal Hl), He.
    destruct (Z.eqb (ai_port a) 0) eqn:E; [|reflexivity].
    apply Z.eqb_eq in E. contradiction.
Qed.

Lemma C7_witness :
  candidates (Some 18900%Z) = [18900; 9000; 9001; 9002; 9100]%Z
  /\ pickAvailablePort only9001 ([18900; 9000] ++ 9001 :: [9002; 9100])%Z
                       localProxyService
     = (inr 9001%Z,
        addTrace localProxyService (map Probe ([18900; 9000] ++ [9001])%Z))
  /\ pickAvailablePort crowdedWorld [9000; 9001; 9002; 9100]%Z localProxyService
     = (inr (ai_port port50000),
        addTrace localProxyService
                 (map Probe [9000; 9001; 9002; 9100]%Z ++ [ProbeEphemeral])).
Proof.
  split; [|split].
  - apply (proj1 (proj2 (C7_port_selection calmWorld))). discriminate.
  - apply (proj1 (proj2 (proj2 (C7_port_selection only9001)))).
    + intros q [<- | [<- | [<- | []]]]; reflexivity.
    + intros q [<- | [<- | []]]; reflexivity.
    + reflexivity.
  - apply (proj2 (proj2 (proj2 (C7_port_selection crowdedWorld)))).
    + intros q [<- | [<- | [<- | [<- | []]]]]; reflexivity.
    + intros q _. reflexivity.
    + reflexivity.
    + discriminate.
Defined.

(** ** Events *)

Lemma removeRoute_present w name s route :
  Map_get name (routes s) = Some route ->
  removeRoute w name s =
  (true, mkService (server s) (Map_delete name (routes s)) (port s) (listeners s)
           (S (ticks s))
           (trace s ++ emission (ProxyEvent.mk ProxyEventType.route_removed
                                   (Some route) None (clock w (ticks s)))
                                (listeners s))).
Proof.
  intros H. unfold removeRoute, bind at 1, this. rewrite H.
  unfold bind, set_routes, ret. rewrite emitProxyEvent_run. reflexivity.
Qed.

Lemma removeRoute_absent w name s :
  Map_get name (routes s) = None -> removeRoute w name s = (false, s).
Proof. intros H. unfold removeRoute, bind, this, ret. now rewrite H. Qed.

Lemma faithful_cons_silent ls e es :
  published [e] = [] -> (forall l, deliveredTo l [e] = []) ->
  faithful ls es -> faithful ls (e :: es).
Proof.
  intros Hp Hd H. change (e :: es) with ([e] ++ es).
  apply faithful_app; [|exact H]. apply quiet_faithful. split; assumption.
Qed.

Lemma published_Listen p es : published (Listen p :: es) = published es.
Proof. reflexivity. Qed.

Lemma published_CloseServer es : published (CloseServer :: es) = published es.
Proof. reflexivity. Qed.

(** C9: on a stopped engine, for calls [start], [addRoute], [removeRoute]
    of the route just added and [stop], made in that order and each
    awaited, with [start] reporting that it is listening and [addRoute]
    returning a route, the events published by the four calls are, in
    order, started, route:added, route:removed and stopped, and every
    subscriber is handed exactly that sequence in that order. *)
Theorem C9_lifecycle_event_order
        w1 w2 w3 w4 portArg name targetPort opts s r1 s1 route s2 b3 s3 b4 s4 :
  server s = None ->
  start w1 portArg s = (inr r1, s1) -> ok r1 = true ->
  addRoute w2 name targetPort opts s1 = (inr route, s2) ->
  removeRoute w3 name s2 = (b3, s3) ->
  stop w4 s3 = (b4, s4) ->
  exists es,
    trace s4 = trace s ++ es
    /\ map ProxyEvent.type (published es)
       = [ProxyEventType.started; ProxyEventType.route_added;
          ProxyEventType.route_removed; ProxyEventType.stopped]
    /\ faithful (listeners s) es.
Proof.
  intros Hstopped Hstart Hok Hadd Hremove Hstop.
  destruct (start_stopped_run w1 portArg s Hstopped) as (picked & es0 & Hq & _ & Hrun).
  rewrite Hrun in Hstart. clear Hrun.
  destruct picked as [e|chosen]; [discriminate|].
  destruct (listen w1 chosen) as [msg|];
    injection Hstart as <- <-; [discriminate|]. clear Hok.
  destruct (test SLUG_RE name) eqn:Hslug;
    [|rewrite addRoute_invalid in Hadd by exact Hslug; discriminate].
  match type of Hadd with addRoute _ _ _ _ ?st = _ =>
    destruct (Map_has name (routes st)) eqn:Hhas;
    [rewrite addRoute_duplicate in Hadd by assumption; discriminate|];
    pose proof (addRoute_fresh w2 name targetPort opts st Hslug Hhas) as Hfresh
  end.
  cbv zeta in Hfresh. unfold afterAutoStart in Hfresh. simpl in Hfresh.
  rewrite Hfresh in Hadd. clear Hfresh. injection Hadd as <- <-.
  erewrite removeRoute_present in Hremove
    by (simpl; apply Map_get_set_same).
  injection Hremove as <- <-.
  erewrite stop_running in Hstop by reflexivity.
  injection Hstop as <- <-. cbn [trace listeners].
  eexists. split; [|split].
  - rewrite <- ?app_assoc. reflexivity.
  - destruct Hq as [Hq _].
    rewrite !published_app, Hq, published_Listen, published_CloseServer.
    rewrite !published_emission. reflexivity.
  - apply faithful_app; [apply quiet_faithful; exact Hq|].
    apply faithful_app.
    + apply faithful_cons_silent; [reflexivity | reflexivity | apply faithful_emission].
    + repeat (apply faithful_app; [apply faithful_emission|]).
      apply faithful_cons_silent; [reflexivity | reflexivity | apply faithful_emission].
Qed.

Lemma C9_witness :
  exists es,
    trace (snd demoStopped) = trace demoSubscribed ++ es
    /\ map ProxyEvent.type (published es)
       = [ProxyEventType.started; ProxyEventType.route_added;
          ProxyEventType.route_removed; ProxyEventType.stopped]
    /\ faithful (listeners demoSubscribed) es.
Proof.
  eapply (@C9_lifecycle_event_order
            calmWorld calmWorld calmWorld calmWorld (Some 18900%Z) "evt-test"
            3000%Z None demoSubscribed
            (mkStartResult true (Some 18900%Z) None) (snd demoStarted)
            _ (snd demoAdded)
            (fst demoRemoved) (snd demoRemoved)
            (fst demoStopped) (snd demoStopped)).
  - reflexivity.
  - vm_compute. reflexivity.
  - vm_compute. reflexivity.
  - vm_compute. reflexivity.
  - vm_compute. reflexivity.
  - vm_compute. reflexivity.
Defined.

(** ** The route that [addRoute] returns *)

(** Every route returned by [addRoute]: its fields, and where it is stored.
    The url is built from [this.port] as it is after the implicit start. *)
Lemma addRoute_returns w name targetPort opts s route s' :
  addRoute w name targetPort opts s = (inr route, s') ->
  ProxyRoute.name route = name
  /\ ProxyRoute.targetPort route = targetPort
  /\ ProxyRoute.status route = ProxyRouteStatus.running
  /\ ProxyRoute.targetHost route
     = orString (match opts with Some o => opt_targetHost o | None => None end)
                "127.0.0.1"
  /\ ProxyRoute.registeredAt route = clock w (ticks (afterAutoStart w s))
  /\ ProxyRoute.url route = "http://" +++ name +++ ".localhost:" +++ showPort (port s')
  /\ getRoute name s' = Some route
  /\ server s' = server (afterAutoStart w s)
  /\ port s' = port (afterAutoStart w s).
Proof.
  intros H.
  destruct (test SLUG_RE name) eqn:Hslug;
    [|rewrite addRoute_invalid in H by exact Hslug; discriminate].
  destruct (Map_has name (routes s)) eqn:Hhas;
    [rewrite addRoute_duplicate in H by assumption; discriminate|].
  pose proof (addRoute_fresh w name targetPort opts s Hslug Hhas) as Hfresh.
  cbv zeta in Hfresh. rewrite Hfresh in H. injection H as <- <-.
  repeat split. unfold getRoute. cbn [routes]. apply Map_get_set_same.
Qed.

Lemma addRoute_default_host w name targetPort s route s' :
  addRoute w name targetPort None s = (inr route, s') ->
  ProxyRoute.targetHost route = "127.0.0.1".
Proof. intros H. now apply addRoute_returns in H. Qed.

(** When the engine is listening once [addRoute] is done, the url carries
    the number of the listening port. *)
Lemma addRoute_url_when_listening w name targetPort opts s route s' :
  listeningHasPort s ->
  addRoute w name targetPort opts s = (inr route, s') ->
  server s' <> None ->
  exists p, port s' = Some p
            /\ ProxyRoute.url route
               = "http://" +++ name +++ ".localhost:" +++ Number_toString p.
Proof.
  intros Hinv H Hlistening.
  apply addRoute_returns in H.
  destruct H as (_ & _ & _ & _ & _ & Hurl & _ & Hserver & Hport).
  assert (Hp : exists p, port s' = Some p).
  { rewrite Hport. rewrite Hserver in Hlistening. unfold afterAutoStart in *.
    destruct (server s) as [srv|] eqn:Hs.
    - apply (Hinv srv Hs).
    - destruct (start_default_stopped w s Hs) as (chosen & es & _ & _ & Hrun).
      rewrite Hrun in *. destruct (listen w chosen); simpl in *.
      + contradiction.
      + eauto. }
  destruct Hp as (p & Hp). exists p. split; [exact Hp|].
  rewrite Hurl, Hp. reflexivity.
Qed.

(** C5: at [addRoute('my-app', 3000)] on a stopped engine, in a world where
    the probe of port 9000 binds and the real bind then reports an error,
    the call still returns a route; its url ends in the text null and the
    engine is not listening. *)
Theorem C5_route_created_without_listening_port :
  exists route s',
    addRoute raceWorld "my-app" 3000 None localProxyService = (inr route, s')
    /\ ProxyRoute.url route = "http://my-app.localhost:null"
    /\ ProxyRoute.status route = ProxyRouteStatus.running
    /\ server s' = None
    /\ port s' = None
    /\ map ProxyEvent.type (published (trace s'))
       = [ProxyEventType.error; ProxyEventType.route_added].
Proof.
  eexists _, _. split; [vm_compute; reflexivity|].
  repeat split.
Qed.

(** ** Stopping *)

Lemma stop_resets_listening_engine w s srv :
  server s = Some srv ->
  getState (snd (stop w s)) = ProxyState.mk false None [].
Proof. intros H. rewrite (stop_running w s H). reflexivity. Qed.

Lemma stop_keeps_registryEmptyWhenStopped w s :
  registryEmptyWhenStopped s -> registryEmptyWhenStopped (snd (stop w s)).
Proof.
  intros Hinv. destruct (server s) as [srv|] eqn:Hs.
  - rewrite (stop_running w s Hs). intros _. reflexivity.
  - rewrite (stop_stopped w s Hs). exact Hinv.
Qed.

Lemma start_keeps_registryEmptyWhenStopped w a s :
  registryEmptyWhenStopped s -> registryEmptyWhenStopped (snd (start w a s)).
Proof.
  intros Hinv. destruct (server s) as [srv|] eqn:Hs.
  - rewrite (start_running w a s Hs). exact Hinv.
  - destruct (start_stopped_run w a s Hs) as (picked & es & _ & _ & ->).
    destruct picked as [e|chosen]; [simpl; intros _; exact (Hinv Hs)|].
    destruct (listen w chosen); simpl; intros H.
    + exact (Hinv Hs).
    + discriminate.
Qed.

Lemma removeRoute_keeps_registryEmptyWhenStopped w name s :
  registryEmptyWhenStopped s -> registryEmptyWhenStopped (snd (removeRoute w name s)).
Proof.
  intros Hinv. destruct (Map_get name (routes s)) as [route|] eqn:Hget.
  - rewrite (removeRoute_present w name s Hget). simpl. intros Hs.
    rewrite (Hinv Hs) in Hget. discriminate.
  - rewrite (removeRoute_absent w name s Hget). exact Hinv.
Qed.

(** [addRoute] keeps the registry empty on a stopped engine except when it
    returns a route while the engine is not listening. *)
Lemma addRoute_keeps_registryEmptyWhenStopped w name targetPort opts s :
  registryEmptyWhenStopped s ->
  (forall route, fst (addRoute w name targetPort opts s) = inr route ->
                 server (snd (addRoute w name targetPort opts s)) <> None) ->
  registryEmptyWhenStopped (snd (addRoute w name targetPort opts s)).
Proof.
  intros Hinv Hlistening.
  destruct (addRoute w name targetPort opts s) as [[err|route] s'] eqn:H.
  - apply addRoute_failure in H. destruct H as (-> & _).
    exact Hinv.
  - simpl in *. intros Hs. exfalso. exact (Hlistening route eq_refl Hs).
Qed.

(** C6: after [addRoute('my-app', 3000)] on a stopped engine, in a world
    where the real bind reports an error, the engine is stopped and the
    registry holds the route; [stop()] then returns without clearing it, so
    [getState()] reports a route on a stopped engine. *)
Theorem C6_route_on_a_stopped_engine_survives_stop :
  exists route,
    fst (addRoute raceWorld "my-app" 3000 None localProxyService) = inr route
    /\ getState (snd (addRoute raceWorld "my-app" 3000 None localProxyService))
       = ProxyState.mk false None [route]
    /\ getState (snd (stop calmWorld
                        (snd (addRoute raceWorld "my-app" 3000 None
                                       localProxyService))))
       = ProxyState.mk false None [route].
Proof.
  eexists. split; [vm_compute; reflexivity|].
  split; vm_compute; reflexivity.
Qed.

(** ** Subdomain routing *)

(** A Host value made of a slug, [.localhost] and an optional port yields
    that slug. *)
Lemma extractSubdomain_slug_host req name suffix :
  test SLUG_RE name = true ->
  isPortSuffix (list_ascii_of_string suffix) = true ->
  hostOf req = name +++ ".localhost" +++ suffix ->
  extractSubdomain req = Some name.
Proof.
  intros Hslug Hsuf Hhost. apply extractSubdomain_spec.
  exists (list_ascii_of_string suffix). split; [|split].
  - rewrite Hhost, !list_ascii_of_string_app. reflexivity.
  - apply isSlug_isHostLabel. now rewrite <- test_SLUG_RE.
  - exact Hsuf.
Qed.

(** Without a subdomain the request is answered by the proxy itself. *)
Lemma handleRequest_control_surface w req s :
  extractSubdomain req = None ->
  exists body,
    handleRequest w req s
    = (inr tt, addTrace s [Respond 200 (match body with
                                    | RoutesJson _ => "application/json"
                                    | _ => htmlType
                                    end) body])
    /\ (body = RoutesJson (getRoutes s) \/ body = DashboardHtml).
Proof.
  intros H. unfold handleRequest. rewrite H. unfold controlSurface, bind, this.
  destruct (String.eqb (orString (req_url req) "/") "/api/routes").
  - exists (RoutesJson (getRoutes s)). split; [reflexivity | now left].
  - exists DashboardHtml. split; [reflexivity | now right].
Qed.

(** With a subdomain the request goes by the registry: when there is a
    route, [lastAccessed] is stamped and [http.request] is called. *)
Lemma handleRequest_routed_run w req s subdomain route :
  extractSubdomain req = Some subdomain ->
  getRoute subdomain s = Some route ->
  handleRequest w req s
  = http_request w (forwardOptions req route) (accessed w subdomain route s).
Proof.
  intros Hsub Hget. unfold handleRequest. rewrite Hsub.
  rewrite (extractSubdomain_truthy req Hsub). cbn [negb].
  unfold bind at 1, this. unfold getRoute in Hget. rewrite Hget. reflexivity.
Qed.

Lemma http_request_accepted w opts s :
  illegalOptions w opts = None -> isLegalPort (ro_port opts) = true ->
  http_request w opts s = (inr tt, addTrace s [HttpRequest opts]).
Proof. intros H1 H2. unfold http_request. rewrite H1, H2. reflexivity. Qed.

Lemma http_request_bad_port w opts s :
  isLegalPort (ro_port opts) = false ->
  exists e, http_request w opts s = (inl e, s).
Proof.
  intros H. unfold http_request. rewrite H.
  destruct (illegalOptions w opts); eexists; reflexivity.
Qed.

(** Either way [http.request] adds at most the request to the trace. *)
Lemma http_request_cases w opts s :
  (http_request w opts s = (inr tt, addTrace s [HttpRequest opts]))
  \/ (exists e, http_request w opts s = (inl e, s)).
Proof.
  unfold http_request. destruct (illegalOptions w opts).
  - right. eexists. reflexivity.
  - destruct (isLegalPort (ro_port opts)).
    + left. reflexivity.
    + right. eexists. reflexivity.
Qed.

Lemma net_createConnection_cases host p s :
  (isLegalPort p = true
   /\ net_createConnection host p s = (inr tt, addTrace s [NetConnect host p]))
  \/ (isLegalPort p = false
      /\ net_createConnection host p s = (inl (ERR_SOCKET_BAD_PORT p), s)).
Proof.
  unfold net_createConnection. destruct (isLegalPort p).
  - left. split; reflexivity.
  - right. split; reflexivity.
Qed.

Lemma handleRequest_routed w req s subdomain route :
  extractSubdomain req = Some subdomain ->
  getRoute subdomain s = Some route ->
  illegalOptions w (forwardOptions req route) = None ->
  isLegalPort (ProxyRoute.targetPort route) = true ->
  handleRequest w req s
  = (inr tt, mkService (server s)
           (Map_set subdomain
                    (ProxyRoute.with_lastAccessed route (clock w (ticks s)))
                    (routes s))
           (port s) (listeners s) (S (ticks s))
           (trace s ++ [HttpRequest
                          (mkRequestOptions (ProxyRoute.targetHost route)
                             (ProxyRoute.targetPort route) (req_url req)
                             (req_method req)
                             (setHeader "host" (backendHost route)
                                        (req_headers req)))])).
Proof.
  intros Hsub Hget Hopts Hport.
  rewrite (handleRequest_routed_run w req s Hsub Hget).
  rewrite http_request_accepted by assumption. reflexivity.
Qed.

(** Whether [http.request] throws or not, the service afterwards is the
    one with [lastAccessed] stamped, with at most the request added to the
    trace. *)
Lemma handleRequest_routed_state w req s subdomain route :
  extractSubdomain req = Some subdomain ->
  getRoute subdomain s = Some route ->
  exists es,
    snd (handleRequest w req s) = addTrace (accessed w subdomain route s) es
    /\ (es = [] \/ es = [HttpRequest (forwardOptions req route)]).
Proof.
  intros Hsub Hget. rewrite (handleRequest_routed_run w req s Hsub Hget).
  destruct (http_request_cases w (forwardOptions req route)
                               (accessed w subdomain route s)) as [-> | (e & ->)].
  - eexists. split; [reflexivity | now right].
  - exists []. rewrite addTrace_nil. split; [reflexivity | now left].
Qed.

(** The Host value [a-.localhost] is not a slug followed by [.localhost] and
    an optional port. *)
Lemma trailing_hyphen_host_is_no_slug_host name suffix :
  test SLUG_RE name = true ->
  isPortSuffix (list_ascii_of_string suffix) = true ->
  "a-.localhost" <> name +++ ".localhost" +++ suffix.
Proof.
  intros Hslug Hsuf Heq. rewrite test_SLUG_RE in Hslug.
  apply (f_equal list_ascii_of_string) in Heq.
  rewrite !list_ascii_of_string_app in Heq.
  change (list_ascii_of_string "a-.localhost")
    with (["a"%char; "-"%char] ++ "."%char :: list_ascii_of_string "localhost") in Heq.
  change (list_ascii_of_string ".localhost")
    with ("."%char :: list_ascii_of_string "localhost") in Heq.
  simpl app in Heq at 3.
  apply split_at_first in Heq.
  - destruct Heq as [Hname _]. rewrite <- Hname in Hslug. discriminate.
  - intros [H | [H | []]]; discriminate.
  - apply hostLabel_no_dot. now apply isSlug_isHostLabel.
Qed.

(** C1: the Host value [a-.localhost] has the name [a-], which the slug
    pattern rejects; [extractSubdomain] returns that name all the same, and
    the request is answered 502 for an unknown route, not by the control
    surface. *)
Theorem C1_trailing_hyphen_host_is_subdomain_routed w :
  test SLUG_RE "a-" = false
  /\ extractSubdomain (requestTo "a-.localhost") = Some "a-"
  /\ handleRequest w (requestTo "a-.localhost") localProxyService
     = (inr tt, addTrace localProxyService
                     [Respond 502 htmlType (Text (unknownRouteBody "a-" None))]).
Proof.
  split; [reflexivity|]. split; [reflexivity|].
  apply (@handleRequest_unknown w (requestTo "a-.localhost") localProxyService "a-");
    reflexivity.
Qed.

(* ================================================================== *)
(** ** More about the registry *)
(* ================================================================== *)

Section MapFacts.

Variable V : Type.
Implicit Types (mp : JsMap V) (k : string) (v : V).

Lemma Map_get_None_iff k mp : Map_get k mp = None <-> ~ In k (map fst mp).
Proof.
  induction mp as [|[k' v'] mp IH]; simpl.
  - split; auto.
  - destruct (String.eqb k k') eqn:E.
    + apply String.eqb_eq in E. subst k'. split; [discriminate|].
      intros H. exfalso. apply H. now left.
    + apply String.eqb_neq in E. rewrite IH. split.
      * intros H [H1 | H1]; [congruence | contradiction].
      * intros H H1. apply H. now right.
Qed.

Lemma Map_get_Some_In k v mp : Map_get k mp = Some v -> In k (map fst mp).
Proof.
  intros H. destruct (in_dec string_dec k (map fst mp)) as [Hin | Hnin]; [exact Hin|].
  apply Map_get_None_iff in Hnin. congruence.
Qed.

Lemma Map_set_keys k v mp :
  map fst (Map_set k v mp)
  = if Map_has k mp then map fst mp else map fst mp ++ [k].
Proof.
  unfold Map_has. induction mp as [|[k' v'] mp IH]; simpl; [reflexivity|].
  destruct (String.eqb k k') eqn:E; simpl; [reflexivity|].
  rewrite IH. now destruct (Map_get k mp).
Qed.

Lemma Map_set_values_fresh k v mp :
  Map_has k mp = false -> Map_values (Map_set k v mp) = Map_values mp ++ [v].
Proof.
  unfold Map_has, Map_values. induction mp as [|[k' v'] mp IH]; simpl; [reflexivity|].
  destruct (String.eqb k k') eqn:E; [discriminate|].
  intros H. simpl. now rewrite IH.
Qed.

Lemma Map_set_NoDup k v mp : NoDup (map fst mp) -> NoDup (map fst (Map_set k v mp)).
Proof.
  intros Hnd. rewrite Map_set_keys. unfold Map_has.
  destruct (Map_get k mp) eqn:E; [exact Hnd|].
  apply Map_get_None_iff in E.
  apply NoDup_app; [exact Hnd | repeat constructor; intros [] |].
  intros x Hx [<- | []]. contradiction.
Qed.

Lemma Map_delete_keys_incl k k' mp :
  In k' (map fst (Map_delete k mp)) -> In k' (map fst mp).
Proof.
  induction mp as [|[k0 v0] mp IH]; simpl; [auto|].
  destruct (String.eqb k k0); simpl; [now right|].
  intros [H | H]; [now left | right; auto].
Qed.

Lemma Map_delete_NoDup k mp :
  NoDup (map fst mp) -> NoDup (map fst (Map_delete k mp)).
Proof.
  induction mp as [|[k0 v0] mp IH]; simpl; intros Hnd; [constructor|].
  inversion Hnd as [|? ? Hnotin Hnd']; subst.
  destruct (String.eqb k k0); simpl; [exact Hnd'|].
  constructor; [|auto]. intros Hin. apply Hnotin.
  eapply Map_delete_keys_incl. exact Hin.
Qed.

Lemma Map_get_delete_other k k' mp :
  k' <> k -> Map_get k' (Map_delete k mp) = Map_get k' mp.
Proof.
  intros Hne. induction mp as [|[k0 v0] mp IH]; simpl; [reflexivity|].
  destruct (String.eqb k k0) eqn:E; simpl.
  - apply String.eqb_eq in E. subst k0.
    destruct (String.eqb k' k) eqn:E'; [|reflexivity].
    apply String.eqb_eq in E'. contradiction.
  - now rewrite IH.
Qed.

Lemma Map_get_delete_same k mp :
  NoDup (map fst mp) -> Map_get k (Map_delete k mp) = None.
Proof.
  induction mp as [|[k0 v0] mp IH]; simpl; intros Hnd; [reflexivity|].
  inversion Hnd as [|? ? Hnotin Hnd']; subst.
  destruct (String.eqb k k0) eqn:E; simpl.
  - apply String.eqb_eq in E. subst k0. now apply Map_get_None_iff.
  - rewrite E. auto.
Qed.

Lemma Map_delete_keys k mp :
  NoDup (map fst mp) ->
  forall k', In k' (map fst (Map_delete k mp)) <-> In k' (map fst mp) /\ k' <> k.
Proof.
  intros Hnd k'. split.
  - intros Hin. split; [eapply Map_delete_keys_incl; exact Hin|].
    intros ->. pose proof (@Map_get_delete_same k mp Hnd) as H.
    apply Map_get_None_iff in H. contradiction.
  - intros [Hin Hne].
    destruct (Map_get k' mp) as [v|] eqn:E.
    + rewrite <- (@Map_get_delete_other k k' mp Hne) in E.
      eapply Map_get_Some_In. exact E.
    + apply Map_get_None_iff in E. contradiction.
Qed.

End MapFacts.

(** ** What the remaining operations do to the state *)

Lemma updateRouteStatus_present w name status s route :
  Map_get name (routes s) = Some route ->
  updateRouteStatus w name status s =
  (true, mkService (server s)
           (Map_set name (ProxyRoute.with_status route status) (routes s))
           (port s) (listeners s) (S (ticks s))
           (trace s ++ emission (ProxyEvent.mk ProxyEventType.route_status
                                   (Some (ProxyRoute.with_status route status))
                                   None (clock w (ticks s)))
                                (listeners s))).
Proof.
  intros H. unfold updateRouteStatus, bind at 1, this. rewrite H.
  unfold bind, set_routes, ret. rewrite emitProxyEvent_run. reflexivity.
Qed.

Lemma updateRouteStatus_absent w name status s :
  Map_get name (routes s) = None -> updateRouteStatus w name status s = (false, s).
Proof. intros H. unfold updateRouteStatus, bind, this, ret. now rewrite H. Qed.

Lemma handleUpgrade_routed_run w req s subdomain route :
  extractSubdomain req = Some subdomain ->
  getRoute subdomain s = Some route ->
  handleUpgrade w req s
  = net_createConnection (ProxyRoute.targetHost route) (ProxyRoute.targetPort route)
                         (accessed w subdomain route s).
Proof.
  intros Hsub Hget. unfold handleUpgrade. rewrite Hsub.
  rewrite (extractSubdomain_truthy req Hsub). cbn [negb].
  unfold bind at 1, this. unfold getRoute in Hget. rewrite Hget. reflexivity.
Qed.

Lemma handleUpgrade_routed w req s subdomain route :
  extractSubdomain req = Some subdomain ->
  getRoute subdomain s = Some route ->
  isLegalPort (ProxyRoute.targetPort route) = true ->
  handleUpgrade w req s
  = (inr tt, mkService (server s)
           (Map_set subdomain
                    (ProxyRoute.with_lastAccessed route (clock w (ticks s)))
                    (routes s))
           (port s) (listeners s) (S (ticks s))
           (trace s ++ [NetConnect (ProxyRoute.targetHost route)
                                   (ProxyRoute.targetPort route)])).
Proof.
  intros Hsub Hget Hport.
  rewrite (handleUpgrade_routed_run w req s Hsub Hget).
  unfold net_createConnection. rewrite Hport. reflexivity.
Qed.

Lemma handleUpgrade_routed_state w req s subdomain route :
  extractSubdomain req = Some subdomain ->
  getRoute subdomain s = Some route ->
  exists es,
    snd (handleUpgrade w req s) = addTrace (accessed w subdomain route s) es
    /\ (es = [] \/ es = [NetConnect (ProxyRoute.targetHost route)
                                    (ProxyRoute.targetPort route)]).
Proof.
  intros Hsub Hget. rewrite (handleUpgrade_routed_run w req s Hsub Hget).
  destruct (net_createConnection_cases (ProxyRoute.targetHost route)
              (ProxyRoute.targetPort route) (accessed w subdomain route s))
    as [[_ ->] | [_ ->]].
  - eexists. split; [reflexivity | now right].
  - exists []. rewrite addTrace_nil. split; [reflexivity | now left].
Qed.

Lemma handleUpgrade_rejected w req s :
  (forall subdomain, extractSubdomain req = Some subdomain ->
                     getRoute subdomain s = None) ->
  handleUpgrade w req s = (inr tt, addTrace s [ClientDestroy]).
Proof.
  intros H. unfold handleUpgrade.
  destruct (extractSubdomain req) as [sub|] eqn:Hsub; [|reflexivity].
  rewrite (extractSubdomain_truthy req Hsub). cbn [negb].
  unfold bind, this. pose proof (H sub eq_refl) as Hget.
  unfold getRoute in Hget. rewrite Hget. reflexivity.
Qed.

(** ** What every call keeps *)

Lemma faithful_nil ls : faithful ls [].
Proof. apply quiet_faithful, quiet_nil. Qed.

Lemma faithful_single_silent ls e :
  published [e] = [] -> (forall l, deliveredTo l [e] = []) -> faithful ls [e].
Proof. intros H1 H2. apply quiet_faithful. split; assumption. Qed.

Lemma framed_refl s : framed s s.
Proof.
  split; [reflexivity|]. exists []. split; [now rewrite app_nil_r | apply faithful_nil].
Qed.

Lemma framed_trans s1 s2 s3 : framed s1 s2 -> framed s2 s3 -> framed s1 s3.
Proof.
  intros [L1 (es1 & T1 & F1)] [L2 (es2 & T2 & F2)]. split; [congruence|].
  exists (es1 ++ es2). split.
  - rewrite T2, T1. now rewrite app_assoc.
  - apply faithful_app; [exact F1|]. rewrite <- L1. exact F2.
Qed.

Lemma framed_emission s evt rs p n :
  framed s (mkService (server s) rs p (listeners s) n
                      (trace s ++ emission evt (listeners s))).
Proof.
  split; [reflexivity|]. eexists. split; [reflexivity | apply faithful_emission].
Qed.

Lemma registryKeyed_routes s s' :
  routes s' = routes s -> registryKeyed s -> registryKeyed s'.
Proof. unfold registryKeyed, routeNames, getRoute. now intros ->. Qed.

Lemma portOfServer_same s s' :
  server s' = server s -> port s' = port s -> portOfServer s -> portOfServer s'.
Proof. unfold portOfServer. now intros -> ->. Qed.

Lemma registryKeyed_set s s' k r :
  routes s' = Map_set k r (routes s) ->
  ProxyRoute.name r = k -> test SLUG_RE k = true ->
  registryKeyed s -> registryKeyed s'.
Proof.
  unfold registryKeyed, routeNames, getRoute. intros -> Hname Hslug [Hnd Hall].
  split; [now apply Map_set_NoDup|].
  intros k' r' Hget. destruct (string_dec k' k) as [->|Hne].
  - rewrite Map_get_set_same in Hget. injection Hget as <-. auto.
  - rewrite Map_get_set_other in Hget by exact Hne. auto.
Qed.

Lemma registryKeyed_delete s s' k :
  routes s' = Map_delete k (routes s) -> registryKeyed s -> registryKeyed s'.
Proof.
  unfold registryKeyed, routeNames, getRoute. intros -> [Hnd Hall].
  split; [now apply Map_delete_NoDup|].
  intros k' r' Hget. destruct (string_dec k' k) as [->|Hne].
  - rewrite Map_get_delete_same in Hget by exact Hnd. discriminate.
  - rewrite Map_get_delete_other in Hget by exact Hne. auto.
Qed.

Lemma registryKeyed_empty s : routes s = [] -> registryKeyed s.
Proof.
  unfold registryKeyed, routeNames, getRoute. intros ->. split; [constructor|].
  intros k r H. discriminate.
Qed.

Lemma start_frame w a s :
  routes (snd (start w a s)) = routes s
  /\ framed s (snd (start w a s))
  /\ (portOfServer s -> portOfServer (snd (start w a s))).
Proof.
  destruct (server s) as [srv|] eqn:Hs.
  - rewrite (start_running w a s Hs). simpl. auto using framed_refl.
  - destruct (start_stopped_run w a s Hs) as (picked & es & Hq & _ & ->).
    destruct picked as [e|chosen].
    { simpl. split; [reflexivity|]. split.
      - split; [reflexivity|]. exists es. split; [reflexivity|].
        apply quiet_faithful; exact Hq.
      - unfold portOfServer. simpl. auto. }
    destruct (listen w chosen); simpl.
    + split; [reflexivity|]. split.
      * split; [reflexivity|]. eexists. split; [reflexivity|].
        apply faithful_app; [apply quiet_faithful; exact Hq|].
        apply faithful_cons_silent; [reflexivity | reflexivity | apply faithful_emission].
      * unfold portOfServer. simpl. now rewrite Hs.
    + split; [reflexivity|]. split.
      * split; [reflexivity|]. eexists. split; [reflexivity|].
        apply faithful_app; [apply quiet_faithful; exact Hq|].
        apply faithful_cons_silent; [reflexivity | reflexivity | apply faithful_emission].
      * unfold portOfServer. simpl. reflexivity.
Qed.

Lemma start_keeps w a s :
  framed s (snd (start w a s)) /\ keepsInvariants s (snd (start w a s)).
Proof.
  destruct (start_frame w a s) as (Hr & Hf & Hp).
  split; [exact Hf|]. split; [exact Hp | now apply registryKeyed_routes].
Qed.

Lemma stop_keeps w s :
  framed s (snd (stop w s)) /\ keepsInvariants s (snd (stop w s)).
Proof.
  destruct (server s) as [srv|] eqn:Hs.
  - rewrite (stop_running w s Hs). simpl. split; [|split].
    + split; [reflexivity|]. eexists. split; [reflexivity|].
      apply faithful_cons_silent; [reflexivity | reflexivity | apply faithful_emission].
    + intros _. reflexivity.
    + intros _. now apply registryKeyed_empty.
  - rewrite (stop_stopped w s Hs). simpl.
    split; [apply framed_refl | split; auto].
Qed.

Lemma removeRoute_keeps w name s :
  framed s (snd (removeRoute w name s))
  /\ keepsInvariants s (snd (removeRoute w name s)).
Proof.
  destruct (Map_get name (routes s)) as [route|] eqn:Hget.
  - rewrite (removeRoute_present w name s Hget). simpl.
    split; [apply framed_emission|]. split.
    + now apply portOfServer_same.
    + now apply (@registryKeyed_delete s _ name).
  - rewrite (removeRoute_absent w name s Hget). simpl.
    split; [apply framed_refl | split; auto].
Qed.

Lemma updateRouteStatus_keeps w name status s :
  framed s (snd (updateRouteStatus w name status s))
  /\ keepsInvariants s (snd (updateRouteStatus w name status s)).
Proof.
  destruct (Map_get name (routes s)) as [route|] eqn:Hget.
  - rewrite (updateRouteStatus_present w name status s Hget). simpl.
    split; [apply framed_emission|]. split.
    + now apply portOfServer_same.
    + intros Hk. destruct (proj2 Hk name route Hget) as [Hname Hslug].
      now apply (@registryKeyed_set s _ name (ProxyRoute.with_status route status)).
  - rewrite (updateRouteStatus_absent w name status s Hget). simpl.
    split; [apply framed_refl | split; auto].
Qed.

Lemma afterAutoStart_keeps w s :
  routes (afterAutoStart w s) = routes s
  /\ framed s (afterAutoStart w s)
  /\ keepsInvariants s (afterAutoStart w s).
Proof.
  unfold afterAutoStart. destruct (server s) eqn:Hs.
  - split; [reflexivity|]. split; [apply framed_refl | split; auto].
  - destruct (start_frame w None s) as (Hr & Hf & Hp).
    split; [exact Hr|]. split; [exact Hf|].
    split; [exact Hp | now apply registryKeyed_routes].
Qed.

Lemma addRoute_keeps w name targetPort opts s :
  framed s (snd (addRoute w name targetPort opts s))
  /\ keepsInvariants s (snd (addRoute w name targetPort opts s)).
Proof.
  destruct (test SLUG_RE name) eqn:Hslug;
    [|rewrite addRoute_invalid by exact Hslug; simpl;
      split; [apply framed_refl | split; auto]].
  destruct (Map_has name (routes s)) eqn:Hhas;
    [rewrite addRoute_duplicate by assumption; simpl;
     split; [apply framed_refl | split; auto]|].
  pose proof (addRoute_fresh w name targetPort opts s Hslug Hhas) as Hfresh.
  cbv zeta in Hfresh. rewrite Hfresh. clear Hfresh. simpl.
  destruct (afterAutoStart_keeps w s) as (Hr & Hf & Hp & Hk).
  split; [|split].
  - eapply framed_trans; [exact Hf | apply framed_emission].
  - intros H. apply Hp in H. revert H. now apply portOfServer_same.
  - intros H. apply Hk in H. revert H.
    eapply (@registryKeyed_set (afterAutoStart w s));
      [simpl; reflexivity | reflexivity | exact Hslug].
Qed.

Lemma handleRequest_keeps w req s :
  framed s (snd (handleRequest w req s))
  /\ keepsInvariants s (snd (handleRequest w req s)).
Proof.
  destruct (extractSubdomain req) as [sub|] eqn:Hsub.
  - destruct (getRoute sub s) as [route|] eqn:Hget.
    + destruct (handleRequest_routed_state w req s Hsub Hget) as (es & -> & Hes).
      unfold accessed, addTrace. simpl. split; [|split].
      * split; [reflexivity|]. exists es. split; [reflexivity|].
        destruct Hes as [-> | ->];
          [apply faithful_nil | apply faithful_single_silent; reflexivity].
      * now apply portOfServer_same.
      * intros Hk. destruct (proj2 Hk sub route Hget) as [Hname Hslug].
        now apply (@registryKeyed_set s _ sub
                     (ProxyRoute.with_lastAccessed route (clock w (ticks s)))).
    + rewrite (handleRequest_unknown w req s Hsub Hget). simpl. split; [|split].
      * split; [reflexivity|]. eexists. split; [reflexivity|].
        apply faithful_single_silent; reflexivity.
      * now apply portOfServer_same.
      * now apply registryKeyed_routes.
  - destruct (handleRequest_control_surface w req s Hsub) as (body & -> & _). simpl.
    split; [|split].
    + split; [reflexivity|]. eexists. split; [reflexivity|].
      apply faithful_single_silent; reflexivity.
    + now apply portOfServer_same.
    + now apply registryKeyed_routes.
Qed.

Lemma handleUpgrade_keeps w req s :
  framed s (snd (handleUpgrade w req s))
  /\ keepsInvariants s (snd (handleUpgrade w req s)).
Proof.
  destruct (extractSubdomain req) as [sub|] eqn:Hsub.
  - destruct (getRoute sub s) as [route|] eqn:Hget.
    + destruct (handleUpgrade_routed_state w req s Hsub Hget) as (es & -> & Hes).
      unfold accessed, addTrace. simpl. split; [|split].
      * split; [reflexivity|]. exists es. split; [reflexivity|].
        destruct Hes as [-> | ->];
          [apply faithful_nil | apply faithful_single_silent; reflexivity].
      * now apply portOfServer_same.
      * intros Hk. destruct (proj2 Hk sub route Hget) as [Hname Hslug].
        now apply (@registryKeyed_set s _ sub
                     (ProxyRoute.with_lastAccessed route (clock w (ticks s)))).
    + rewrite handleUpgrade_rejected
        by (intros sub' Hsub'; rewrite Hsub in Hsub'; injection Hsub' as <-; exact Hget).
      simpl. split; [|split].
      * split; [reflexivity|]. eexists. split; [reflexivity|].
        apply faithful_single_silent; reflexivity.
      * now apply portOfServer_same.
      * now apply registryKeyed_routes.
  - rewrite handleUpgrade_rejected
      by (intros sub' Hsub'; rewrite Hsub in Hsub'; discriminate).
    simpl. split; [|split].
    + split; [reflexivity|]. eexists. split; [reflexivity|].
      apply faithful_single_silent; reflexivity.
    + now apply portOfServer_same.
    + now apply registryKeyed_routes.
Qed.

Lemma perform_keepsInvariants c s : keepsInvariants s (perform c s).
Proof.
  destruct c; simpl.
  - apply start_keeps.
  - apply stop_keeps.
  - apply addRoute_keeps.
  - apply removeRoute_keeps.
  - apply updateRouteStatus_keeps.
  - split; auto.
  - split; auto.
  - apply handleRequest_keeps.
  - apply handleUpgrade_keeps.
Qed.

Lemma perform_framed c s : changesListeners c = false -> framed s (perform c s).
Proof.
  destruct c; simpl; intros H; try discriminate.
  - apply start_keeps.
  - apply stop_keeps.
  - apply addRoute_keeps.
  - apply removeRoute_keeps.
  - apply updateRouteStatus_keeps.
  - apply handleRequest_keeps.
  - apply handleUpgrade_keeps.
Qed.

Lemma Reachable_invariants s :
  Reachable s -> portOfServer s /\ registryKeyed s.
Proof.
  intros (cs & ->). unfold performAll.
  assert (H : forall s0, portOfServer s0 /\ registryKeyed s0 ->
                         portOfServer (fold_left (fun s c => perform c s) cs s0)
                         /\ registryKeyed (fold_left (fun s c => perform c s) cs s0)).
  { induction cs as [|c cs IH]; intros s0 [Hp Hk]; simpl; [auto|].
    apply IH. destruct (perform_keepsInvariants c s0) as [H1 H2]. auto. }
  apply H. split; [reflexivity|]. now apply registryKeyed_empty.
Qed.

(* ================================================================== *)
(** ** Properties of the registry and of the engine state *)
(* ================================================================== *)

Lemma Map_get_of_In {V} k (v : V) mp :
  NoDup (map fst mp) -> In (k, v) mp -> Map_get k mp = Some v.
Proof.
  induction mp as [|[k0 v0] mp IH]; simpl; intros Hnd Hin; [contradiction|].
  inversion Hnd as [|? ? Hnotin Hnd']; subst.
  destruct Hin as [[= -> ->] | Hin].
  - now rewrite String.eqb_refl.
  - destruct (String.eqb k k0) eqn:E.
    + apply String.eqb_eq in E. subst k0. exfalso. apply Hnotin.
      change k with (fst (k, v)). now apply in_map.
    + auto.
Qed.

Lemma Reachable_names s :
  Reachable s -> map ProxyRoute.name (getRoutes s) = routeNames s.
Proof.
  intros H. apply Reachable_invariants in H. destruct H as [_ [Hnd Hall]].
  unfold getRoutes, Map_values, routeNames. rewrite map_map.
  apply map_ext_in. intros [k r] Hin. simpl.
  apply (Hall k r). unfold getRoute. now apply Map_get_of_In.
Qed.

(** X1: in every state the service can reach, [getRoutes()] lists no name
    twice, and a route found under a name carries that name, which matches
    the slug pattern. *)
Theorem X1_reachable_registry_is_keyed_by_slug s :
  Reachable s ->
  NoDup (map ProxyRoute.name (getRoutes s))
  /\ forall name route, getRoute name s = Some route ->
                        ProxyRoute.name route = name /\ test SLUG_RE name = true.
Proof.
  intros H. rewrite (Reachable_names H).
  apply Reachable_invariants in H. exact (proj2 H).
Qed.

Lemma X1_witness :
  NoDup (map ProxyRoute.name (getRoutes (snd demoAdded)))
  /\ forall name route, getRoute name (snd demoAdded) = Some route ->
                        ProxyRoute.name route = name /\ test SLUG_RE name = true.
Proof.
  apply X1_reachable_registry_is_keyed_by_slug.
  exists [CallOnEvent 7; CallStart calmWorld (Some 18900%Z);
          CallAddRoute calmWorld "evt-test" 3000 None].
  vm_compute. reflexivity.
Defined.

(** X2: in every state the service can reach, [getState()] reports
    [running: true] exactly when it reports a port, and that port is the one
    the server was bound to. *)
Theorem X2_reachable_running_iff_port s :
  Reachable s ->
  match server s with
  | Some srv => getState s = ProxyState.mk true (Some (boundTo srv)) (getRoutes s)
  | None => getState s = ProxyState.mk false None (getRoutes s)
  end.
Proof.
  intros H. apply Reachable_invariants in H. destruct H as [Hp _].
  unfold portOfServer in Hp. unfold getState.
  destruct (server s); now rewrite Hp.
Qed.

Lemma X2_witness :
  getState (snd demoStarted)
  = ProxyState.mk true (Some 18900%Z) (getRoutes (snd demoStarted)).
Proof.
  apply (@X2_reachable_running_iff_port (snd demoStarted)).
  exists [CallOnEvent 7; CallStart calmWorld (Some 18900%Z)].
  vm_compute. reflexivity.
Defined.

(** X3: in a reachable state, [removeRoute] of a registered name returns
    true, publishes one route:removed event that carries the route, leaves
    engine state and every other route alone, and makes the name absent; a
    second [removeRoute] of it returns false and changes nothing. *)
Theorem X3_removeRoute_then_absent w w' name s route :
  Reachable s ->
  getRoute name s = Some route ->
  exists s' evt,
    removeRoute w name s = (true, s')
    /\ getRoute name s' = None
    /\ (forall other, other <> name -> getRoute other s' = getRoute other s)
    /\ server s' = server s /\ port s' = port s
    /\ trace s' = trace s ++ emission evt (listeners s)
    /\ ProxyEvent.type evt = ProxyEventType.route_removed
    /\ ProxyEvent.route evt = Some route
    /\ removeRoute w' name s' = (false, s').
Proof.
  intros Hreach Hget. apply Reachable_invariants in Hreach.
  destruct Hreach as [_ [Hnd _]]. unfold getRoute in Hget.
  rewrite (removeRoute_present w name s Hget).
  eexists _, _. split; [reflexivity|].
  assert (Hgone : Map_get name (Map_delete name (routes s)) = None)
    by (apply Map_get_delete_same; exact Hnd).
  unfold getRoute. cbn [routes server port trace].
  split; [exact Hgone|].
  split; [intros other Hne; now apply Map_get_delete_other|].
  repeat (split; [reflexivity|]).
  apply removeRoute_absent. exact Hgone.
Qed.

Lemma X3_witness :
  exists s' evt,
    removeRoute calmWorld "evt-test" (snd demoAdded) = (true, s')
    /\ getRoute "evt-test" s' = None
    /\ (forall other, other <> "evt-test" ->
                      getRoute other s' = getRoute other (snd demoAdded))
    /\ server s' = server (snd demoAdded) /\ port s' = port (snd demoAdded)
    /\ trace s' = trace (snd demoAdded) ++ emission evt (listeners (snd demoAdded))
    /\ ProxyEvent.type evt = ProxyEventType.route_removed
    /\ ProxyEvent.route evt
       = Some (newRoute "evt-test" 3000 None (Some 18900%Z) (isoClock 1))
    /\ removeRoute calmWorld "evt-test" s' = (false, s').
Proof.
  apply X3_removeRoute_then_absent.
  - exists [CallOnEvent 7; CallStart calmWorld (Some 18900%Z);
            CallAddRoute calmWorld "evt-test" 3000 None].
    vm_compute. reflexivity.
  - vm_compute. reflexivity.
Defined.

(** X4: [updateRouteStatus] of a registered name returns true, replaces
    the status of that route and nothing else of it, keeps the order of the
    registry and every other route, and publishes one route:status event
    that carries the updated route; for a name that is not registered it
    returns false and changes nothing. *)
Theorem X4_updateRouteStatus w name status s :
  (forall route, getRoute name s = Some route ->
     exists s' evt,
       updateRouteStatus w name status s = (true, s')
       /\ getRoute name s' = Some (ProxyRoute.with_status route status)
       /\ (forall other, other <> name -> getRoute other s' = getRoute other s)
       /\ routeNames s' = routeNames s
       /\ server s' = server s /\ port s' = port s
       /\ trace s' = trace s ++ emission evt (listeners s)
       /\ ProxyEvent.type evt = ProxyEventType.route_status
       /\ ProxyEvent.route evt = Some (ProxyRoute.with_status route status))
  /\ (getRoute name s = None -> updateRouteStatus w name status s = (false, s)).
Proof.
  unfold getRoute. split.
  - intros route Hget. rewrite (updateRouteStatus_present w name status s Hget).
    eexists _, _. split; [reflexivity|].
    unfold getRoute, routeNames. cbn [routes server port trace].
    split; [apply Map_get_set_same|].
    split; [intros other Hne; now apply Map_get_set_other|].
    split.
    { rewrite Map_set_keys. unfold Map_has. now rewrite Hget. }
    repeat (split; [reflexivity|]). reflexivity.
  - apply updateRouteStatus_absent.
Qed.

Lemma X4_witness :
  (exists s' evt,
      updateRouteStatus calmWorld "evt-test" ProxyRouteStatus.stopped (snd demoAdded)
      = (true, s')
      /\ getRoute "evt-test" s'
         = Some (ProxyRoute.with_status
                   (newRoute "evt-test" 3000 None (Some 18900%Z) (isoClock 1))
                   ProxyRouteStatus.stopped)
      /\ (forall other, other <> "evt-test" ->
                        getRoute other s' = getRoute other (snd demoAdded))
      /\ routeNames s' = routeNames (snd demoAdded)
      /\ server s' = server (snd demoAdded) /\ port s' = port (snd demoAdded)
      /\ trace s' = trace (snd demoAdded) ++ emission evt (listeners (snd demoAdded))
      /\ ProxyEvent.type evt = ProxyEventType.route_status
      /\ ProxyEvent.route evt
         = Some (ProxyRoute.with_status
                   (newRoute "evt-test" 3000 None (Some 18900%Z) (isoClock 1))
                   ProxyRouteStatus.stopped))
  /\ updateRouteStatus calmWorld "other" ProxyRouteStatus.stopped (snd demoAdded)
     = (false, snd demoAdded).
Proof.
  split.
  - apply (proj1 (X4_updateRouteStatus calmWorld "evt-test" ProxyRouteStatus.stopped
                                       (snd demoAdded))).
    vm_compute. reflexivity.
  - apply (proj2 (X4_updateRouteStatus calmWorld "other" ProxyRouteStatus.stopped
                                       (snd demoAdded))).
    vm_compute. reflexivity.
Defined.

(** X5: a successful [addRoute] appends the new route at the end of what
    [getRoutes()] lists and leaves every other name as it was. *)
Theorem X5_addRoute_appends w name targetPort opts s route s' :
  addRoute w name targetPort opts s = (inr route, s') ->
  getRoutes s' = getRoutes s ++ [route]
  /\ forall other, other <> name -> getRoute other s' = getRoute other s.
Proof.
  intros H.
  destruct (test SLUG_RE name) eqn:Hslug;
    [|rewrite addRoute_invalid in H by exact Hslug; discriminate].
  destruct (Map_has name (routes s)) eqn:Hhas;
    [rewrite addRoute_duplicate in H by assumption; discriminate|].
  pose proof (addRoute_fresh w name targetPort opts s Hslug Hhas) as Hfresh.
  cbv zeta in Hfresh. rewrite Hfresh in H. injection H as <- <-.
  destruct (afterAutoStart_keeps w s) as (Hr & _).
  unfold getRoutes, getRoute. cbn [routes]. rewrite Hr. split.
  - now apply Map_set_values_fresh.
  - intros other Hne. now apply Map_get_set_other.
Qed.

Lemma X5_witness :
  getRoutes (snd demoAdded)
  = getRoutes (snd demoStarted)
    ++ [newRoute "evt-test" 3000 None (Some 18900%Z) (isoClock 1)]
  /\ forall other, other <> "evt-test" ->
                   getRoute other (snd demoAdded) = getRoute other (snd demoStarted).
Proof.
  apply (@X5_addRoute_appends calmWorld "evt-test" 3000%Z None (snd demoStarted)).
  vm_compute. reflexivity.
Defined.

(* ================================================================== *)
(** ** Properties of the lifecycle *)
(* ================================================================== *)

(** X6: [stop()] on a listening engine closes the server, empties the
    registry, forgets the port and publishes one stopped event, so that
    [getState()] is [{running: false, port: null, routes: []}]; a further
    [stop()] returns [{ok: true}] and does nothing. *)
Theorem X6_stop_listening_engine w w' s srv :
  server s = Some srv ->
  exists s' evt,
    stop w s = (true, s')
    /\ getState s' = ProxyState.mk false None []
    /\ trace s' = trace s ++ CloseServer :: emission evt (listeners s)
    /\ evt = ProxyEvent.mk ProxyEventType.stopped None None (clock w (ticks s))
    /\ stop w' s' = (true, s').
Proof.
  intros Hs. rewrite (stop_running w s Hs).
  eexists _, _. split; [reflexivity|].
  split; [reflexivity|]. split; [reflexivity|]. split; [reflexivity|].
  apply stop_stopped. reflexivity.
Qed.

Lemma X6_witness :
  exists s' evt,
    stop calmWorld (snd demoAdded) = (true, s')
    /\ getState s' = ProxyState.mk false None []
    /\ trace s' = trace (snd demoAdded)
                  ++ CloseServer :: emission evt (listeners (snd demoAdded))
    /\ evt = ProxyEvent.mk ProxyEventType.stopped None None
                           (clock calmWorld (ticks (snd demoAdded)))
    /\ stop calmWorld s' = (true, s').
Proof.
  apply (@X6_stop_listening_engine calmWorld calmWorld (snd demoAdded)
                                   (mkServer 18900%Z)).
  vm_compute. reflexivity.
Defined.

(** X7: when [start] on a stopped engine reports ok, the port it reports
    is the one [pickAvailablePort] chose for the candidates; the engine
    listens on it, the registry is untouched and one started event is
    published, after the real bind.  Any later [start], whatever port it
    asks for, returns that same port and does nothing. *)
Theorem X7_start_succeeds w w' portArg portArg' s r :
  server s = None ->
  fst (start w portArg s) = inr r -> ok r = true ->
  exists p es evt s',
    start w portArg s = (inr (mkStartResult true (Some p) None), s')
    /\ pickAvailablePort w (candidates portArg) s = (inr p, addTrace s es)
    /\ server s' = Some (mkServer p) /\ port s' = Some p
    /\ routes s' = routes s
    /\ trace s' = trace s ++ es ++ Listen p :: emission evt (listeners s)
    /\ published es = []
    /\ evt = ProxyEvent.mk ProxyEventType.started None None (clock w (ticks s))
    /\ start w' portArg' s' = (inr (mkStartResult true (Some p) None), s').
Proof.
  intros Hs Hr Hok.
  destruct (start_stopped_run w portArg s Hs) as (picked & es & Hq & Hpick & Hrun).
  rewrite Hrun in Hr |- *. destruct picked as [e|chosen]; [discriminate|].
  destruct (listen w chosen); [injection Hr as <-; discriminate|].
  exists chosen, es. eexists _, _. split; [reflexivity|].
  split; [exact Hpick|]. cbn [server port routes trace].
  repeat (split; [reflexivity|]). split; [exact (proj1 Hq)|].
  split; [reflexivity|].
  erewrite start_running by reflexivity. reflexivity.
Qed.

Lemma X7_witness :
  exists p es evt s',
    start calmWorld (Some 18900%Z) demoSubscribed
    = (inr (mkStartResult true (Some p) None), s')
    /\ pickAvailablePort calmWorld (candidates (Some 18900%Z)) demoSubscribed
       = (inr p, addTrace demoSubscribed es)
    /\ server s' = Some (mkServer p) /\ port s' = Some p
    /\ routes s' = routes demoSubscribed
    /\ trace s' = trace demoSubscribed
                  ++ es ++ Listen p :: emission evt (listeners demoSubscribed)
    /\ published es = []
    /\ evt = ProxyEvent.mk ProxyEventType.started None None
                           (clock calmWorld (ticks demoSubscribed))
    /\ start calmWorld (Some 9100%Z) s'
       = (inr (mkStartResult true (Some p) None), s').
Proof.
  apply (@X7_start_succeeds calmWorld calmWorld (Some 18900%Z) (Some 9100%Z)
                            demoSubscribed (mkStartResult true (Some 18900%Z) None));
    vm_compute; reflexivity.
Defined.

(** X8: when the real bind of [start] fails, the result is [ok: false]
    with the error text naming the chosen port, the engine stays stopped
    with its state untouched, and one error event carrying the message of
    the bind error is published. *)
Theorem X8_start_fails w portArg s r :
  server s = None ->
  fst (start w portArg s) = inr r -> ok r = false ->
  exists p es msg evt s',
    start w portArg s
    = (inr (mkStartResult false None
              (Some ("Failed to listen on port " +++ Number_toString p))), s')
    /\ pickAvailablePort w (candidates portArg) s = (inr p, addTrace s es)
    /\ listen w p = Some msg
    /\ server s' = None /\ port s' = port s /\ routes s' = routes s
    /\ trace s' = trace s ++ es ++ Listen p :: emission evt (listeners s)
    /\ published es = []
    /\ evt = ProxyEvent.mk ProxyEventType.error None (Some msg) (clock w (ticks s)).
Proof.
  intros Hs Hr Hok.
  destruct (start_stopped_run w portArg s Hs) as (picked & es & Hq & Hpick & Hrun).
  rewrite Hrun in Hr |- *. destruct picked as [e|chosen]; [discriminate|].
  destruct (listen w chosen) as [msg|] eqn:Hl; [|injection Hr as <-; discriminate].
  exists chosen, es, msg. eexists _, _. split; [reflexivity|].
  split; [exact Hpick|]. split; [exact Hl|]. cbn [server port routes trace].
  repeat (split; [reflexivity|]). split; [exact (proj1 Hq) | reflexivity].
Qed.

Lemma X8_witness :
  exists p es msg evt s',
    start raceWorld None localProxyService
    = (inr (mkStartResult false None
              (Some ("Failed to listen on port " +++ Number_toString p))), s')
    /\ pickAvailablePort raceWorld (candidates None) localProxyService
       = (inr p, addTrace localProxyService es)
    /\ listen raceWorld p = Some msg
    /\ server s' = None /\ port s' = port localProxyService
    /\ routes s' = routes localProxyService
    /\ trace s' = trace localProxyService
                  ++ es ++ Listen p :: emission evt (listeners localProxyService)
    /\ published es = []
    /\ evt = ProxyEvent.mk ProxyEventType.error None (Some msg)
                           (clock raceWorld (ticks localProxyService)).
Proof.
  apply (@X8_start_fails raceWorld None localProxyService
           (mkStartResult false None (Some "Failed to listen on port 9000")));
    vm_compute; reflexivity.
Defined.

Lemma first_free_split (f : Z -> bool) l :
  (exists d, In d l /\ f d = true) ->
  exists pre q post, l = pre ++ q :: post
                     /\ (forall x, In x pre -> f x = false) /\ f q = true.
Proof.
  induction l as [|a l IH]; intros (d & Hin & Hd); [contradiction|].
  destruct (f a) eqn:Ha.
  - exists [], a, l. split; [reflexivity|]. split; [intros x []|exact Ha].
  - destruct Hin as [-> | Hin]; [congruence|].
    destruct IH as (pre & q & post & -> & Hpre & Hq); [eauto|].
    exists (a :: pre), q, post. split; [reflexivity|]. split; [|exact Hq].
    intros x [<- | Hx]; auto.
Qed.

(** X9: if the preferred port is a legal port whose probe fails while the
    probe of some default port succeeds, and the real bind succeeds, [start]
    reports ok with a port that is not the preferred one: a default port
    whose probe succeeded. *)
Theorem X9_start_falls_back w p d s :
  server s = None ->
  isLegalPort p = true ->
  canBind w p = false ->
  In d DEFAULT_PORTS -> canBind w d = true ->
  (forall q, listen w q = None) ->
  exists q s',
    start w (Some p) s = (inr (mkStartResult true (Some q) None), s')
    /\ q <> p /\ In q DEFAULT_PORTS /\ canBind w q = true
    /\ port s' = Some q.
Proof.
  intros Hs Hlegal Hp Hd Hfree Hlisten.
  assert (Hall : forall q, In q (candidates (Some p)) -> isLegalPort q = true).
  { unfold candidates. intros q Hq. destruct (truthyNumber p).
    - destruct Hq as [<- | Hq]; [exact Hlegal | now apply DEFAULT_PORTS_legal].
    - now apply DEFAULT_PORTS_legal. }
  assert (Hcand : exists d', In d' (candidates (Some p)) /\ canBind w d' = true).
  { exists d. split; [|exact Hfree]. unfold candidates.
    destruct (truthyNumber p); [now right | exact Hd]. }
  apply first_free_split in Hcand.
  destruct Hcand as (pre & q & post & Hl & Hpre & Hq).
  destruct (start_stopped w (Some p) s Hs Hall) as (chosen & es & _ & Hpick & Hrun).
  rewrite Hl in Hpick.
  rewrite (pickAvailablePort_first_free w pre q post s) in Hpick;
    [| intros x Hx; apply Hall; rewrite Hl;
       apply in_app_or in Hx; apply in_or_app;
       destruct Hx as [Hx | [<- | []]]; [now left | right; now left]
     | exact Hpre | exact Hq].
  injection Hpick as <- _.
  rewrite Hrun, Hlisten. exists q. eexists. split; [reflexivity|].
  assert (Hne : q <> p) by (intros ->; congruence).
  split; [exact Hne|]. split; [|split; [exact Hq | reflexivity]].
  assert (Hin : In q (candidates (Some p))) by (rewrite Hl; apply in_elt).
  unfold candidates in Hin. destruct (truthyNumber p); [|exact Hin].
  destruct Hin as [<- | Hin]; [contradiction | exact Hin].
Qed.

Lemma X9_witness :
  exists q s',
    start only9001 (Some 18900%Z) localProxyService
    = (inr (mkStartResult true (Some q) None), s')
    /\ q <> 18900%Z /\ In q DEFAULT_PORTS /\ canBind only9001 q = true
    /\ port s' = Some q.
Proof.
  apply (@X9_start_falls_back only9001 18900%Z 9001%Z localProxyService).
  - reflexivity.
  - reflexivity.
  - reflexivity.
  - simpl. auto.
  - reflexivity.
  - intros q. reflexivity.
Defined.

(** X10: when the candidates are legal ports of which none binds, and the
    listener on port 0 reports an error, or no address, or port 0,
    [pickAvailablePort] returns 9000, having probed every candidate and
    then port 0. *)
Theorem X10_pickAvailablePort_last_resort w l s :
  (forall q, In q l -> isLegalPort q = true) ->
  (forall q, In q l -> canBind w q = false) ->
  ephemeral w = ListenError \/ ephemeral w = Listening None
  \/ (exists a, ephemeral w = Listening (Some a) /\ ai_port a = 0%Z) ->
  pickAvailablePort w l s
  = (inr 9000%Z, addTrace s (map Probe l ++ [ProbeEphemeral])).
Proof.
  intros Hlegal Hl He. rewrite (pickAvailablePort_all_busy w l s Hlegal Hl).
  destruct He as [-> | [-> | (a & -> & ->)]]; reflexivity.
Qed.

Lemma X10_witness :
  pickAvailablePort deafWorld DEFAULT_PORTS localProxyService
  = (inr 9000%Z,
     addTrace localProxyService (map Probe DEFAULT_PORTS ++ [ProbeEphemeral])).
Proof.
  apply X10_pickAvailablePort_last_resort.
  - apply DEFAULT_PORTS_legal.
  - intros q _. reflexivity.
  - left. reflexivity.
Defined.

(* ================================================================== *)
(** ** Properties of the event bus *)
(* ================================================================== *)

Lemma count_occ_removeFirst l ls l' :
  count_occ Nat.eq_dec (removeFirst l ls) l'
  = if Nat.eq_dec l l' then pred (count_occ Nat.eq_dec ls l')
    else count_occ Nat.eq_dec ls l'.
Proof.
  induction ls as [|x ls IH]; simpl.
  - now destruct (Nat.eq_dec l l').
  - destruct (Nat.eqb l x) eqn:E.
    + apply Nat.eqb_eq in E. subst x.
      destruct (Nat.eq_dec l l') as [->|Hne]; simpl.
      * now destruct (Nat.eq_dec l' l').
      * now destruct (Nat.eq_dec l l').
    + apply Nat.eqb_neq in E. simpl. rewrite IH.
      destruct (Nat.eq_dec x l') as [->|Hx]; destruct (Nat.eq_dec l l') as [->|Hl];
        try congruence; try reflexivity.
Qed.

Lemma deliveredTo_emission l evt ls :
  deliveredTo l (emission evt ls) = repeat evt (count_occ Nat.eq_dec ls l).
Proof. unfold emission. simpl. apply deliveredTo_deliveries. Qed.

(** X11: the function returned by [onEvent(l)] undoes it: subscribing and
    unsubscribing at once gives the service back as it was.  An event is
    handed to a listener once per registration, one more after [onEvent],
    one fewer (if any) after its unsubscribe, and the registrations of the
    other listeners are not affected by either. *)
Theorem X11_subscribe_unsubscribe l s evt :
  snd (unsubscribe l (snd (onEvent l s))) = s
  /\ deliveredTo l (emission evt (listeners (snd (onEvent l s))))
     = repeat evt (S (count_occ Nat.eq_dec (listeners s) l))
  /\ deliveredTo l (emission evt (listeners (snd (unsubscribe l s))))
     = repeat evt (pred (count_occ Nat.eq_dec (listeners s) l))
  /\ forall l', l' <> l ->
       deliveredTo l' (emission evt (listeners (snd (onEvent l s))))
       = deliveredTo l' (emission evt (listeners s))
       /\ deliveredTo l' (emission evt (listeners (snd (unsubscribe l s))))
          = deliveredTo l' (emission evt (listeners s)).
Proof.
  split; [|split; [|split]].
  - destruct s as [sv rs p ls n tr]. unfold unsubscribe, onEvent, bind, this,
      set_listeners. simpl. rewrite rev_app_distr. simpl.
    rewrite Nat.eqb_refl, rev_involutive. reflexivity.
  - rewrite deliveredTo_emission. unfold onEvent, bind, this, set_listeners. simpl.
    rewrite count_occ_app. simpl. destruct (Nat.eq_dec l l); [|congruence].
    now rewrite Nat.add_1_r.
  - rewrite deliveredTo_emission. unfold unsubscribe, bind, this, set_listeners. simpl.
    rewrite count_occ_rev, count_occ_removeFirst, count_occ_rev.
    destruct (Nat.eq_dec l l); [reflexivity | congruence].
  - intros l' Hne. rewrite !deliveredTo_emission.
    unfold onEvent, unsubscribe, bind, this, set_listeners. simpl. split.
    + rewrite count_occ_app. simpl. destruct (Nat.eq_dec l l'); [congruence|].
      now rewrite Nat.add_0_r.
    + rewrite count_occ_rev, count_occ_removeFirst, count_occ_rev.
      destruct (Nat.eq_dec l l'); [congruence | reflexivity].
Qed.

Lemma performAll_framed cs : forall s,
  forallb (fun c => negb (changesListeners c)) cs = true ->
  framed s (performAll cs s).
Proof.
  unfold performAll. induction cs as [|c cs IH]; intros s H; simpl.
  - apply framed_refl.
  - simpl in H. apply andb_true_iff in H. destruct H as [Hc Hcs].
    apply negb_true_iff in Hc.
    eapply framed_trans; [apply perform_framed; exact Hc | apply IH; exact Hcs].
Qed.

(** X12: over any sequence of calls and server events that does not
    subscribe or unsubscribe, the trace only grows, and every listener is
    handed exactly the events published meanwhile, in the order of their
    publication, once per registration. *)
Theorem X12_delivery_follows_publication cs s :
  forallb (fun c => negb (changesListeners c)) cs = true ->
  listeners (performAll cs s) = listeners s
  /\ exists es,
       trace (performAll cs s) = trace s ++ es
       /\ forall l,
            deliveredTo l es
            = flat_map (fun evt => repeat evt (count_occ Nat.eq_dec (listeners s) l))
                       (published es).
Proof. intros H. exact (performAll_framed cs s H). Qed.

Lemma X12_witness :
  listeners (performAll [CallStart calmWorld None;
                         CallAddRoute calmWorld "a" 3000 None;
                         CallStop calmWorld] demoSubscribed)
  = listeners demoSubscribed
  /\ exists es,
       trace (performAll [CallStart calmWorld None;
                          CallAddRoute calmWorld "a" 3000 None;
                          CallStop calmWorld] demoSubscribed)
       = trace demoSubscribed ++ es
       /\ forall l,
            deliveredTo l es
            = flat_map (fun evt => repeat evt
                                     (count_occ Nat.eq_dec (listeners demoSubscribed) l))
                       (published es).
Proof.
  apply X12_delivery_follows_publication. reflexivity.
Defined.

(* ================================================================== *)
(** ** Properties of request handling *)
(* ================================================================== *)

Lemma setHeader_Map_set k v h : setHeader k v h = Map_set k v h.
Proof.
  induction h as [|[k' v'] h IH]; simpl; [reflexivity|].
  destruct (String.eqb k k'); [reflexivity | now rewrite IH].
Qed.

Lemma isLegalPort_spec p : isLegalPort p = true <-> (0 <= p <= 65535)%Z.
Proof. unfold isLegalPort. rewrite andb_true_iff, !Z.leb_le. reflexivity. Qed.

(** X13: for a request whose subdomain has a route with a target port from
    1 to 65535, and whose path, method and headers [http.request] accepts,
    [handleRequest] writes no response of its own; it stamps [lastAccessed]
    on that route, leaving the other routes alone, and issues one outbound
    request to the route's host and port with the method and path of the
    incoming request, the Host header set to the backend's host and port,
    and every other header as received. *)
Theorem X13_handleRequest_forwards w req s subdomain route :
  extractSubdomain req = Some subdomain ->
  getRoute subdomain s = Some route ->
  (0 < ProxyRoute.targetPort route <= 65535)%Z ->
  illegalOptions w (forwardOptions req route) = None ->
  exists opts s',
    handleRequest w req s = (inr tt, s')
    /\ trace s' = trace s ++ [HttpRequest opts]
    /\ ro_hostname opts = ProxyRoute.targetHost route
    /\ ro_port opts = ProxyRoute.targetPort route
    /\ ro_path opts = req_url req
    /\ ro_method opts = req_method req
    /\ Map_get "host" (ro_headers opts)
       = Some (ProxyRoute.targetHost route +++ ":"
               +++ Number_toString (ProxyRoute.targetPort route))
    /\ (forall h, h <> "host" ->
                  Map_get h (ro_headers opts) = Map_get h (req_headers req))
    /\ getRoute subdomain s'
       = Some (ProxyRoute.with_lastAccessed route (clock w (ticks s)))
    /\ (forall other, other <> subdomain -> getRoute other s' = getRoute other s).
Proof.
  intros Hsub Hget Hport Hopts.
  rewrite (handleRequest_routed w req s Hsub Hget Hopts)
    by (apply isLegalPort_spec; lia).
  eexists _, _. split; [reflexivity|]. cbn [trace]. split; [reflexivity|].
  cbn [ro_hostname ro_port ro_path ro_method ro_headers].
  repeat (split; [reflexivity|]).
  rewrite setHeader_Map_set. split; [apply Map_get_set_same|].
  split; [intros h Hne; now apply Map_get_set_other|].
  unfold getRoute. cbn [routes]. split; [apply Map_get_set_same|].
  intros other Hne. now apply Map_get_set_other.
Qed.

(** X14: for an Upgrade request whose subdomain has a route with a target
    port from 0 to 65535, [handleUpgrade] does not destroy the client
    socket; it stamps [lastAccessed] on that route and opens one connection
    to the route's host and port. *)
Theorem X14_handleUpgrade_connects w req s subdomain route :
  extractSubdomain req = Some subdomain ->
  getRoute subdomain s = Some route ->
  (0 <= ProxyRoute.targetPort route <= 65535)%Z ->
  exists s',
    handleUpgrade w req s = (inr tt, s')
    /\ trace s' = trace s ++ [NetConnect (ProxyRoute.targetHost route)
                                         (ProxyRoute.targetPort route)]
    /\ getRoute subdomain s'
       = Some (ProxyRoute.with_lastAccessed route (clock w (ticks s)))
    /\ (forall other, other <> subdomain -> getRoute other s' = getRoute other s).
Proof.
  intros Hsub Hget Hport.
  rewrite (handleUpgrade_routed w req s Hsub Hget) by (now apply isLegalPort_spec).
  eexists. split; [reflexivity|]. cbn [trace]. split; [reflexivity|].
  unfold getRoute. cbn [routes]. split; [apply Map_get_set_same|].
  intros other Hne. now apply Map_get_set_other.
Qed.

Lemma X13_witness :
  exists opts s',
    handleRequest calmWorld demoRequest (snd demoAdded) = (inr tt, s')
    /\ trace s' = trace (snd demoAdded) ++ [HttpRequest opts]
    /\ ro_hostname opts = "127.0.0.1"
    /\ ro_port opts = 3000%Z
    /\ ro_path opts = Some "/path?q=1"
    /\ ro_method opts = "GET"
    /\ Map_get "host" (ro_headers opts) = Some "127.0.0.1:3000"
    /\ (forall h, h <> "host" ->
                  Map_get h (ro_headers opts) = Map_get h (req_headers demoRequest))
    /\ getRoute "evt-test" s'
       = Some (ProxyRoute.with_lastAccessed
                 (newRoute "evt-test" 3000 None (Some 18900%Z) (isoClock 1))
                 (clock calmWorld (ticks (snd demoAdded))))
    /\ (forall other, other <> "evt-test" ->
                      getRoute other s' = getRoute other (snd demoAdded)).
Proof.
  apply (@X13_handleRequest_forwards calmWorld demoRequest (snd demoAdded) "evt-test"
           (newRoute "evt-test" 3000 None (Some 18900%Z) (isoClock 1)));
    [vm_compute; reflexivity | vm_compute; reflexivity | cbn; lia | reflexivity].
Defined.

Lemma X14_witness :
  exists s',
    handleUpgrade calmWorld demoRequest (snd demoAdded) = (inr tt, s')
    /\ trace s' = trace (snd demoAdded) ++ [NetConnect "127.0.0.1" 3000%Z]
    /\ getRoute "evt-test" s'
       = Some (ProxyRoute.with_lastAccessed
                 (newRoute "evt-test" 3000 None (Some 18900%Z) (isoClock 1))
                 (clock calmWorld (ticks (snd demoAdded))))
    /\ (forall other, other <> "evt-test" ->
                      getRoute other s' = getRoute other (snd demoAdded)).
Proof.
  apply (@X14_handleUpgrade_connects calmWorld demoRequest (snd demoAdded) "evt-test"
           (newRoute "evt-test" 3000 None (Some 18900%Z) (isoClock 1)));
    [vm_compute; reflexivity | vm_compute; reflexivity | cbn; lia].
Defined.

Lemma sameButLastAccessed_refl r : sameButLastAccessed r r.
Proof. repeat split. Qed.

Lemma sameButLastAccessed_access r ts :
  sameButLastAccessed r (ProxyRoute.with_lastAccessed r ts).
Proof. repeat split. Qed.

(** What a request can do to the service: nothing, or stamp one route. *)
Lemma access_only s s' :
  server s' = server s -> port s' = port s -> listeners s' = listeners s ->
  (routes s' = routes s
   \/ exists k r ts, getRoute k s = Some r
                     /\ routes s' = Map_set k (ProxyRoute.with_lastAccessed r ts)
                                            (routes s)) ->
  routeNames s' = routeNames s
  /\ forall k, match getRoute k s, getRoute k s' with
               | Some r, Some r' => sameButLastAccessed r r'
               | None, None => True
               | _, _ => False
               end.
Proof.
  intros _ _ _ [Hr | (k0 & r0 & ts & Hget & Hr)];
    unfold routeNames, getRoute in *; rewrite Hr.
  - split; [reflexivity|]. intros k.
    destruct (Map_get k (routes s)); [apply sameButLastAccessed_refl | exact I].
  - split.
    + rewrite Map_set_keys. unfold Map_has. now rewrite Hget.
    + intros k. destruct (string_dec k k0) as [->|Hne].
      * rewrite Hget, Map_get_set_same. apply sameButLastAccessed_access.
      * rewrite Map_get_set_other by exact Hne.
        destruct (Map_get k (routes s)); [apply sameButLastAccessed_refl | exact I].
Qed.

Lemma handleRequest_access w req s :
  let s' := snd (handleRequest w req s) in
  server s' = server s /\ port s' = port s /\ listeners s' = listeners s
  /\ (exists es, trace s' = trace s ++ es /\ published es = [])
  /\ (routes s' = routes s
      \/ exists k r ts, getRoute k s = Some r
                        /\ routes s' = Map_set k (ProxyRoute.with_lastAccessed r ts)
                                               (routes s)).
Proof.
  cbv zeta. destruct (extractSubdomain req) as [sub|] eqn:Hsub.
  - destruct (getRoute sub s) as [route|] eqn:Hget.
    + destruct (handleRequest_routed_state w req s Hsub Hget) as (es & -> & Hes).
      unfold accessed, addTrace. simpl.
      repeat (split; [reflexivity|]).
      split; [exists es; split; [reflexivity | destruct Hes as [-> | ->]; reflexivity]|].
      right. eauto.
    + rewrite (handleRequest_unknown w req s Hsub Hget). simpl.
      repeat (split; [reflexivity|]). split; [eexists; split; reflexivity|].
      now left.
  - destruct (handleRequest_control_surface w req s Hsub) as (body & -> & _). simpl.
    repeat (split; [reflexivity|]). split; [eexists; split; reflexivity|].
    now left.
Qed.

Lemma handleUpgrade_access w req s :
  let s' := snd (handleUpgrade w req s) in
  server s' = server s /\ port s' = port s /\ listeners s' = listeners s
  /\ (exists es, trace s' = trace s ++ es /\ published es = [])
  /\ (routes s' = routes s
      \/ exists k r ts, getRoute k s = Some r
                        /\ routes s' = Map_set k (ProxyRoute.with_lastAccessed r ts)
                                               (routes s)).
Proof.
  cbv zeta. destruct (extractSubdomain req) as [sub|] eqn:Hsub.
  - destruct (getRoute sub s) as [route|] eqn:Hget.
    + destruct (handleUpgrade_routed_state w req s Hsub Hget) as (es & -> & Hes).
      unfold accessed, addTrace. simpl.
      repeat (split; [reflexivity|]).
      split; [exists es; split; [reflexivity | destruct Hes as [-> | ->]; reflexivity]|].
      right. eauto.
    + rewrite handleUpgrade_rejected
        by (intros sub' Hsub'; rewrite Hsub in Hsub'; injection Hsub' as <-; exact Hget).
      simpl. repeat (split; [reflexivity|]). split; [eexists; split; reflexivity|].
      now left.
  - rewrite handleUpgrade_rejected
      by (intros sub' Hsub'; rewrite Hsub in Hsub'; discriminate).
    simpl. repeat (split; [reflexivity|]). split; [eexists; split; reflexivity|].
    now left.
Qed.

(** X15: no request and no Upgrade request, whatever it holds, changes
    the engine: the server, the port, the listeners and the names of the
    registry in their order stay, no lifecycle event is published, and each
    route keeps all its fields except possibly [lastAccessed]. *)
Theorem X15_requests_leave_the_engine_alone w req s :
  forall s', s' = snd (handleRequest w req s) \/ s' = snd (handleUpgrade w req s) ->
  server s' = server s /\ port s' = port s /\ listeners s' = listeners s
  /\ routeNames s' = routeNames s
  /\ published (trace s') = published (trace s)
  /\ forall name, match getRoute name s, getRoute name s' with
                  | Some r, Some r' => sameButLastAccessed r r'
                  | None, None => True
                  | _, _ => False
                  end.
Proof.
  intros s' Hs'.
  assert (H : server s' = server s /\ port s' = port s /\ listeners s' = listeners s
              /\ (exists es, trace s' = trace s ++ es /\ published es = [])
              /\ (routes s' = routes s
                  \/ exists k r ts,
                       getRoute k s = Some r
                       /\ routes s' = Map_set k (ProxyRoute.with_lastAccessed r ts)
                                              (routes s))).
  { destruct Hs' as [-> | ->];
      [apply handleRequest_access | apply handleUpgrade_access]. }
  destruct H as (H1 & H2 & H3 & (es & Htr & Hpub) & Hroutes).
  destruct (access_only s s' H1 H2 H3 Hroutes) as [Hnames Hsame].
  repeat (split; [assumption|]). split; [|exact Hsame].
  now rewrite Htr, published_app, Hpub, app_nil_r.
Qed.

Lemma X15_witness :
  server demoRequested = server (snd demoAdded)
  /\ port demoRequested = port (snd demoAdded)
  /\ listeners demoRequested = listeners (snd demoAdded)
  /\ routeNames demoRequested = routeNames (snd demoAdded)
  /\ published (trace demoRequested) = published (trace (snd demoAdded))
  /\ forall name, match getRoute name (snd demoAdded), getRoute name demoRequested with
                  | Some r, Some r' => sameButLastAccessed r r'
                  | None, None => True
                  | _, _ => False
                  end.
Proof.
  apply (@X15_requests_leave_the_engine_alone calmWorld demoRequest (snd demoAdded)).
  left. reflexivity.
Defined.

(** X16: a request whose Host header is missing or empty, or holds no
    dot (as [localhost] and [localhost:9000] do), is answered 200 by the
    proxy itself, which changes nothing else: for the path [/api/routes],
    exactly, with the routes as [getRoutes()] lists them, as JSON; for any
    other path, and for a request without one, with the dashboard page. *)
Theorem X16_host_without_dot_is_control_surface w req s :
  ~ In "."%char (list_ascii_of_string (hostOf req)) ->
  handleRequest w req s
  = (inr tt, addTrace s
           [if String.eqb (orString (req_url req) "/") "/api/routes"
            then Respond 200 "application/json" (RoutesJson (getRoutes s))
            else Respond 200 htmlType DashboardHtml]).
Proof.
  intros Hnodot.
  assert (H : extractSubdomain req = None).
  { apply extractSubdomain_none. intros g suf _ _ Heq. apply Hnodot.
    rewrite Heq. apply in_or_app. right. now left. }
  unfold handleRequest. rewrite H. unfold controlSurface, bind, this.
  now destruct (String.eqb (orString (req_url req) "/") "/api/routes").
Qed.

Lemma X16_witness :
  handleRequest calmWorld (mkRequest [] None "GET" "1.1") (snd demoAdded)
  = (inr tt, addTrace (snd demoAdded) [Respond 200 htmlType DashboardHtml])
  /\ handleRequest calmWorld
                   (mkRequest [("host", "localhost:18900")] (Some "/api/routes")
                              "GET" "1.1")
                   (snd demoAdded)
     = (inr tt, addTrace (snd demoAdded)
                     [Respond 200 "application/json"
                              (RoutesJson (getRoutes (snd demoAdded)))]).
Proof.
  split.
  - apply (@X16_host_without_dot_is_control_surface
             calmWorld (mkRequest [] None "GET" "1.1") (snd demoAdded)).
    intros [].
  - apply (@X16_host_without_dot_is_control_surface
             calmWorld
             (mkRequest [("host", "localhost:18900")] (Some "/api/routes") "GET" "1.1")
             (snd demoAdded)).
    vm_compute. intuition discriminate.
Defined.

(** ** Numbers as text *)

Lemma string_of_uint_digits d :
  forallb isDigit (list_ascii_of_string (NilEmpty.string_of_uint d)) = true.
Proof. induction d; simpl; try rewrite IHd; reflexivity. Qed.

Lemma string_of_uint_nonempty d :
  d <> Decimal.Nil ->
  exists c ds, list_ascii_of_string (NilEmpty.string_of_uint d) = c :: ds.
Proof. destruct d; intros H; try contradiction; simpl; eauto. Qed.

Lemma NilZero_string_of_uint_digits d :
  exists c ds, list_ascii_of_string (NilZero.string_of_uint d) = c :: ds
               /\ forallb isDigit (c :: ds) = true.
Proof.
  destruct (Decimal.uint_eq_dec d Decimal.Nil) as [-> | Hne].
  - exists "0"%char, []. split; reflexivity.
  - destruct (string_of_uint_nonempty Hne) as (c & ds & H).
    exists c, ds. split.
    + destruct d; try contradiction; exact H.
    + rewrite <- H. apply string_of_uint_digits.
Qed.

(** An integer prints as an optional minus sign and one or more digits. *)
Lemma Number_toString_shape z :
  exists sign c ds,
    list_ascii_of_string (Number_toString z) = sign ++ c :: ds
    /\ (sign = [] \/ sign = ["-"%char])
    /\ forallb isDigit (c :: ds) = true.
Proof.
  unfold Number_toString. destruct (Z.to_int z) as [d|d]; simpl.
  - destruct (NilZero_string_of_uint_digits d) as (c & ds & H & Hd).
    exists [], c, ds. auto.
  - destruct (NilZero_string_of_uint_digits d) as (c & ds & H & Hd).
    exists ["-"%char], c, ds. rewrite H. auto.
Qed.

Lemma Number_toString_nonneg z :
  (0 <= z)%Z ->
  exists c ds, list_ascii_of_string (Number_toString z) = c :: ds
               /\ forallb isDigit (c :: ds) = true.
Proof.
  intros Hz. unfold Number_toString.
  destruct z as [|p|p]; [| |exfalso; apply Hz; reflexivity].
  - exists "0"%char, []. split; reflexivity.
  - apply (NilZero_string_of_uint_digits (Pos.to_uint p)).
Qed.

Lemma isPortSuffix_colon_digits c ds :
  forallb isDigit (c :: ds) = true -> isPortSuffix (":"%char :: c :: ds) = true.
Proof. intros H. unfold isPortSuffix. rewrite H. reflexivity. Qed.

Lemma append_cancel_l (p a b : string) : p +++ a = p +++ b -> a = b.
Proof. induction p as [|c p IH]; simpl; [auto | intros [= H]; auto]. Qed.

(** X17: the url of a route leads to its backend.  When [addRoute]
    returns a route for a target port from 1 to 65535 while the engine has
    a port that is not negative, a request whose Host header is the host
    part of the route's url, and whose path, method and headers
    [http.request] accepts, is forwarded to the route's target host and
    port. *)
Theorem X17_route_url_reaches_backend
        w w' name targetPort opts s route s1 p req :
  addRoute w name targetPort opts s = (inr route, s1) ->
  (0 < targetPort <= 65535)%Z ->
  port s1 = Some p -> (0 <= p)%Z ->
  ProxyRoute.url route = "http://" +++ hostOf req ->
  illegalOptions w' (forwardOptions req route) = None ->
  exists ropts s2,
    handleRequest w' req s1 = (inr tt, s2)
    /\ trace s2 = trace s1 ++ [HttpRequest ropts]
    /\ ro_hostname ropts = ProxyRoute.targetHost route
    /\ ro_port ropts = targetPort.
Proof.
  intros Hadd Htarget Hport Hp Hurl Hopts.
  assert (Hslug : test SLUG_RE name = true).
  { destruct (test SLUG_RE name) eqn:E; [reflexivity|].
    rewrite addRoute_invalid in Hadd by exact E. discriminate. }
  apply addRoute_returns in Hadd.
  destruct Hadd as (_ & Htp & _ & _ & _ & Hurl' & Hget & _).
  rewrite Hurl', Hport in Hurl. simpl showPort in Hurl.
  apply append_cancel_l in Hurl.
  assert (Hsub : extractSubdomain req = Some name).
  { apply (@extractSubdomain_slug_host req name (":" +++ Number_toString p)).
    - exact Hslug.
    - destruct (Number_toString_nonneg Hp) as (c & ds & Hl & Hd).
      rewrite list_ascii_of_string_app, Hl.
      apply isPortSuffix_colon_digits. exact Hd.
    - rewrite <- Hurl. reflexivity. }
  rewrite (handleRequest_routed w' req s1 Hsub Hget Hopts)
    by (rewrite Htp; apply isLegalPort_spec; lia).
  eexists _, _. split; [reflexivity|]. split; [reflexivity|].
  split; [reflexivity | exact Htp].
Qed.

Lemma X17_witness :
  exists ropts s2,
    handleRequest calmWorld demoRequest (snd demoAdded) = (inr tt, s2)
    /\ trace s2 = trace (snd demoAdded) ++ [HttpRequest ropts]
    /\ ro_hostname ropts
       = ProxyRoute.targetHost
           (newRoute "evt-test" 3000 None (Some 18900%Z) (isoClock 1))
    /\ ro_port ropts = 3000%Z.
Proof.
  apply (@X17_route_url_reaches_backend
           calmWorld calmWorld "evt-test" 3000%Z None (snd demoStarted)
           (newRoute "evt-test" 3000 None (Some 18900%Z) (isoClock 1))
           (snd demoAdded) 18900%Z demoRequest).
  - vm_compute. reflexivity.
  - lia.
  - vm_compute. reflexivity.
  - discriminate.
  - vm_compute. reflexivity.
  - reflexivity.
Defined.

(* ================================================================== *)
(** ** Properties of the names the integration makes *)
(* ================================================================== *)

Lemma hyphen_is_alnumHyphen : isAlnumHyphen "-"%char = true.
Proof. reflexivity. Qed.

Lemma digit_is_alnum c : isDigit c = true -> isAlnum c = true.
Proof.
  unfold isDigit, isAlnum, in_class, digit, alnum. simpl.
  intros H. rewrite orb_false_r in H. rewrite H. now rewrite orb_true_r.
Qed.

Lemma nat_of_ascii_inj a b : nat_of_ascii a = nat_of_ascii b -> a = b.
Proof.
  intros H. rewrite <- (ascii_nat_embedding a), <- (ascii_nat_embedding b).
  now rewrite H.
Qed.

(** A character of [a-z0-9-] that is not of [a-z0-9] is the hyphen. *)
Lemma alnumHyphen_cases c :
  isAlnumHyphen c = true -> isAlnum c = true \/ c = "-"%char.
Proof.
  unfold isAlnumHyphen, isAlnum, in_class, alnumHyphen, alnum. simpl.
  destruct (in_range c ("a"%char, "z"%char)); [now left|].
  destruct (in_range c ("0"%char, "9"%char)); [now left|]. simpl.
  rewrite orb_false_r. unfold in_range. simpl fst. simpl snd.
  intros H. apply andb_true_iff in H. destruct H as [H1 H2].
  apply Nat.leb_le in H1, H2. right. apply nat_of_ascii_inj.
  change (nat_of_ascii "-"%char) with 45 in *. lia.
Qed.

Lemma hyphen_not_alnum : isAlnum "-"%char = false.
Proof. reflexivity. Qed.

Lemma isSlug_intro l :
  l <> [] -> forallb isAlnumHyphen l = true ->
  startsWithHyphen l = false -> endsWithHyphen l = false ->
  isSlug l = true.
Proof.
  destruct l as [|a t]; [contradiction|]. intros _ Hall Hs He.
  simpl in Hall, Hs, He. apply andb_true_iff in Hall. destruct Hall as [Ha Ht].
  unfold isSlug. rewrite Ht.
  assert (Hfirst : isAlnum a = true).
  { destruct (alnumHyphen_cases a Ha) as [H | ->]; [exact H | discriminate]. }
  rewrite Hfirst. simpl.
  assert (Hin : isAlnumHyphen (last t a) = true).
  { clear He Hs Hfirst. revert a Ha. induction t as [|b t IH]; intros a Ha; [exact Ha|].
    simpl in Ht. apply andb_true_iff in Ht. destruct Ht as [Hb Ht].
    change (last (b :: t) a) with (match t with [] => b | _ => last t a end).
    destruct t as [|c t']; [exact Hb|].
    exact (IH Ht a Ha). }
  destruct (alnumHyphen_cases _ Hin) as [H | H]; [exact H|].
  rewrite H in He. discriminate.
Qed.

Lemma replaceOthersByHyphen_class l :
  forallb isAlnumHyphen (replaceOthersByHyphen l) = true.
Proof.
  induction l as [|c l IH]; simpl; [reflexivity|]. rewrite IH.
  destruct (isAlnumHyphen c) eqn:E; [now rewrite E | reflexivity].
Qed.

Lemma collapseHyphens_class P l :
  forallb P l = true -> forallb P (collapseHyphens l) = true.
Proof.
  induction l as [|c l IH]; [auto|]. intros H. simpl in H.
  apply andb_true_iff in H. destruct H as [Hc Hl]. specialize (IH Hl).
  simpl. destruct (Ascii.eqb c "-"%char).
  - destruct l as [|c' l']; [simpl; now rewrite Hc|].
    destruct (Ascii.eqb c' "-"%char); [exact IH|].
    simpl. rewrite Hc. exact IH.
  - simpl. rewrite Hc. exact IH.
Qed.

Lemma collapseHyphens_cons c l :
  collapseHyphens (c :: l)
  = if Ascii.eqb c "-"%char
    then match l with
         | c' :: _ => if Ascii.eqb c' "-"%char then collapseHyphens l
                      else c :: collapseHyphens l
         | [] => [c]
         end
    else c :: collapseHyphens l.
Proof. reflexivity. Qed.

Lemma collapseHyphens_head l : forall c,
  exists t, collapseHyphens (c :: l) = c :: t.
Proof.
  induction l as [|c' l IH]; intros c; rewrite collapseHyphens_cons.
  - destruct (Ascii.eqb c "-"%char); eauto.
  - destruct (Ascii.eqb c "-"%char) eqn:Ec; [|eauto].
    destruct (Ascii.eqb c' "-"%char) eqn:Ec'; [|eauto].
    apply Ascii.eqb_eq in Ec, Ec'. subst. apply IH.
Qed.

Lemma noDoubleHyphen_cons c c' t :
  noDoubleHyphen (c :: c' :: t)
  = negb (Ascii.eqb c "-"%char && Ascii.eqb c' "-"%char) && noDoubleHyphen (c' :: t).
Proof. reflexivity. Qed.

Lemma collapseHyphens_noDouble l : noDoubleHyphen (collapseHyphens l) = true.
Proof.
  induction l as [|c l IH]; [reflexivity|].
  destruct l as [|c' l'].
  - simpl. destruct (Ascii.eqb c "-"%char); reflexivity.
  - destruct (collapseHyphens_head l' c') as (t & Ht).
    change (collapseHyphens (c :: c' :: l'))
      with (if Ascii.eqb c "-"%char
            then if Ascii.eqb c' "-"%char then collapseHyphens (c' :: l')
                 else c :: collapseHyphens (c' :: l')
            else c :: collapseHyphens (c' :: l')).
    destruct (Ascii.eqb c "-"%char) eqn:Ec.
    + destruct (Ascii.eqb c' "-"%char) eqn:Ec'; [exact IH|].
      rewrite Ht in *. rewrite noDoubleHyphen_cons, Ec, Ec'. exact IH.
    + rewrite Ht in *. rewrite noDoubleHyphen_cons, Ec. exact IH.
Qed.

Lemma noDoubleHyphen_tail c l : noDoubleHyphen (c :: l) = true -> noDoubleHyphen l = true.
Proof.
  destruct l as [|c' l]; [reflexivity|]. simpl. intros H.
  apply andb_true_iff in H. exact (proj2 H).
Qed.

Lemma noDoubleHyphen_firstn n : forall l,
  noDoubleHyphen l = true -> noDoubleHyphen (firstn n l) = true.
Proof.
  induction n as [|n IH]; intros l H; [reflexivity|].
  destruct l as [|c l]; [reflexivity|].
  pose proof (IH l (noDoubleHyphen_tail c l H)) as IHl.
  destruct l as [|c' l']; [destruct n; reflexivity|].
  destruct n as [|n']; [reflexivity|].
  simpl in H. apply andb_true_iff in H. destruct H as [H1 _].
  change (firstn (S (S n')) (c :: c' :: l')) with (c :: firstn (S n') (c' :: l')).
  change (firstn (S n') (c' :: l')) with (c' :: firstn n' l') in *.
  simpl. rewrite H1. exact IHl.
Qed.

Lemma forallb_firstn {A} (P : A -> bool) n : forall l,
  forallb P l = true -> forallb P (firstn n l) = true.
Proof.
  induction n as [|n IH]; intros l H; [reflexivity|].
  destruct l as [|c l]; [reflexivity|]. simpl in *.
  apply andb_true_iff in H. destruct H as [-> H]. simpl. auto.
Qed.

Lemma startsWithHyphen_firstn n l :
  startsWithHyphen l = false -> startsWithHyphen (firstn n l) = false.
Proof. destruct n, l; simpl; auto. Qed.

Lemma stripTrailingHyphen_firstn l : exists n, stripTrailingHyphen l = firstn n l.
Proof.
  induction l as [|c l (n & IH)]; [exists 0; reflexivity|].
  destruct l as [|c' l'].
  - simpl. destruct (Ascii.eqb c "-"%char); [exists 0 | exists 1]; reflexivity.
  - exists (S n).
    change (stripTrailingHyphen (c :: c' :: l'))
      with (c :: stripTrailingHyphen (c' :: l')).
    rewrite IH. reflexivity.
Qed.

Lemma last_nonempty_default (ys : list ascii) : forall y a b,
  last (y :: ys) a = last (y :: ys) b.
Proof.
  induction ys as [|z zs IH]; intros y a b; [reflexivity|].
  change (last (y :: z :: zs) a) with (last (z :: zs) a).
  change (last (y :: z :: zs) b) with (last (z :: zs) b).
  apply IH.
Qed.

Lemma last_cons_default (c x : ascii) xs : last (x :: xs) c = last xs x.
Proof.
  destruct xs as [|y ys]; [reflexivity|].
  change (last (x :: y :: ys) c) with (last (y :: ys) c).
  apply last_nonempty_default.
Qed.

Lemma endsWithHyphen_cons c x xs :
  endsWithHyphen (c :: x :: xs) = endsWithHyphen (x :: xs).
Proof. unfold endsWithHyphen. now rewrite last_cons_default. Qed.

Lemma stripTrailingHyphen_ends l :
  noDoubleHyphen l = true -> endsWithHyphen (stripTrailingHyphen l) = false.
Proof.
  induction l as [|c l IH]; [reflexivity|]. intros H.
  destruct l as [|c' l'].
  - simpl. destruct (Ascii.eqb c "-"%char) eqn:E; [reflexivity | simpl; exact E].
  - change (stripTrailingHyphen (c :: c' :: l'))
      with (c :: stripTrailingHyphen (c' :: l')).
    specialize (IH (noDoubleHyphen_tail c _ H)).
    destruct (stripTrailingHyphen (c' :: l')) as [|x xs] eqn:Hx.
    + destruct l' as [|c'' l''].
      * simpl in Hx. destruct (Ascii.eqb c' "-"%char) eqn:Ec'; [|discriminate].
        simpl in H. rewrite Ec' in H. rewrite andb_true_r in H.
        simpl. destruct (Ascii.eqb c "-"%char); [discriminate | reflexivity].
      * change (stripTrailingHyphen (c' :: c'' :: l''))
          with (c' :: stripTrailingHyphen (c'' :: l'')) in Hx. discriminate.
    + rewrite endsWithHyphen_cons. exact IH.
Qed.

Lemma stripLeadingHyphen_props l :
  forallb isAlnumHyphen l = true -> noDoubleHyphen l = true ->
  forallb isAlnumHyphen (stripLeadingHyphen l) = true
  /\ noDoubleHyphen (stripLeadingHyphen l) = true
  /\ startsWithHyphen (stripLeadingHyphen l) = false.
Proof.
  destruct l as [|c t]; [auto|]. intros Hall Hnd. simpl.
  destruct (Ascii.eqb c "-"%char) eqn:Ec.
  - simpl in Hall. apply andb_true_iff in Hall. destruct Hall as [_ Ht].
    split; [exact Ht|]. split; [exact (noDoubleHyphen_tail c t Hnd)|].
    destruct t as [|c' t']; [reflexivity|]. simpl in *. rewrite Ec in Hnd. simpl in Hnd.
    apply andb_true_iff in Hnd. destruct Hnd as [H _].
    now destruct (Ascii.eqb c' "-"%char).
  - split; [exact Hall|]. split; [exact Hnd|]. simpl. exact Ec.
Qed.

Lemma string_of_list_ascii_length l :
  String.length (string_of_list_ascii l) = length l.
Proof. induction l as [|c l IH]; simpl; [reflexivity | now rewrite IH]. Qed.

(** The list that [toSlug] ends with, before [|| 'task']. *)
Lemma toSlug_body_props l0 :
  let l := stripTrailingHyphen
             (firstn 30 (trimHyphens (collapseHyphens (replaceOthersByHyphen l0)))) in
  forallb isAlnumHyphen l = true /\ noDoubleHyphen l = true
  /\ startsWithHyphen l = false /\ endsWithHyphen l = false
  /\ length l <= 30.
Proof.
  cbv zeta. unfold trimHyphens.
  set (a := collapseHyphens (replaceOthersByHyphen l0)).
  assert (Ha : forallb isAlnumHyphen a = true)
    by (apply collapseHyphens_class, replaceOthersByHyphen_class).
  assert (Hnd : noDoubleHyphen a = true) by apply collapseHyphens_noDouble.
  destruct (stripLeadingHyphen_props a Ha Hnd) as (Hb1 & Hb2 & Hb3).
  set (b := stripLeadingHyphen a) in *.
  destruct (stripTrailingHyphen_firstn b) as (n & Hn). rewrite Hn.
  set (c := firstn 30 (firstn n b)).
  assert (Hc1 : forallb isAlnumHyphen c = true) by (now apply forallb_firstn, forallb_firstn).
  assert (Hc2 : noDoubleHyphen c = true)
    by (now apply noDoubleHyphen_firstn, noDoubleHyphen_firstn).
  assert (Hc3 : startsWithHyphen c = false)
    by (now apply startsWithHyphen_firstn, startsWithHyphen_firstn).
  assert (Hc4 : length c <= 30) by (apply firstn_le_length).
  destruct (stripTrailingHyphen_firstn c) as (n' & Hn').
  split; [rewrite Hn'; now apply forallb_firstn|].
  split; [rewrite Hn'; now apply noDoubleHyphen_firstn|].
  split; [rewrite Hn'; now apply startsWithHyphen_firstn|].
  split; [now apply stripTrailingHyphen_ends|].
  rewrite Hn', length_firstn. lia.
Qed.

Lemma truthyString_of_list l :
  truthyString (string_of_list_ascii l) = match l with [] => false | _ :: _ => true end.
Proof. destruct l; reflexivity. Qed.

Lemma toSlug_props toLowerCase taskId :
  test SLUG_RE (toSlug toLowerCase taskId) = true
  /\ String.length (toSlug toLowerCase taskId) <= 30
  /\ noDoubleHyphen (list_ascii_of_string (toSlug toLowerCase taskId)) = true.
Proof.
  unfold toSlug.
  destruct (toSlug_body_props (list_ascii_of_string (toLowerCase taskId)))
    as (Hall & Hnd & Hs & He & Hlen).
  set (l := stripTrailingHyphen _) in *. cbv zeta.
  rewrite truthyString_of_list. destruct l as [|c t] eqn:El.
  - split; [reflexivity|]. split; [simpl; lia | reflexivity].
  - rewrite test_SLUG_RE, list_ascii_of_string_of_list_ascii,
      string_of_list_ascii_length.
    split; [|split; assumption].
    apply isSlug_intro; [discriminate | assumption..].
Qed.

(** X18: whatever [toLowerCase] returns, [toSlug] yields a name that the
    slug pattern of [addRoute] accepts, of at most 30 characters and without
    two hyphens in a row. *)
Theorem X18_toSlug_is_a_slug toLowerCase taskId :
  test SLUG_RE (toSlug toLowerCase taskId) = true
  /\ String.length (toSlug toLowerCase taskId) <= 30
  /\ noDoubleHyphen (list_ascii_of_string (toSlug toLowerCase taskId)) = true.
Proof. apply toSlug_props. Qed.

Lemma replaceOthersByHyphen_id l :
  forallb isAlnumHyphen l = true -> replaceOthersByHyphen l = l.
Proof.
  induction l as [|c l IH]; [reflexivity|]. simpl. intros H.
  apply andb_true_iff in H. destruct H as [Hc Hl]. now rewrite Hc, IH.
Qed.

Lemma collapseHyphens_id l : noDoubleHyphen l = true -> collapseHyphens l = l.
Proof.
  induction l as [|c l IH]; [reflexivity|]. intros H.
  rewrite collapseHyphens_cons. specialize (IH (noDoubleHyphen_tail c l H)).
  destruct l as [|c' l'].
  - now destruct (Ascii.eqb c "-"%char).
  - rewrite noDoubleHyphen_cons in H. apply andb_true_iff in H. destruct H as [H _].
    rewrite IH. destruct (Ascii.eqb c "-"%char); [|reflexivity].
    destruct (Ascii.eqb c' "-"%char); [discriminate | reflexivity].
Qed.

Lemma stripTrailingHyphen_id l :
  endsWithHyphen l = false -> stripTrailingHyphen l = l.
Proof.
  induction l as [|c l IH]; [reflexivity|]. intros H.
  destruct l as [|c' l'].
  - simpl in *. now rewrite H.
  - change (stripTrailingHyphen (c :: c' :: l'))
      with (c :: stripTrailingHyphen (c' :: l')).
    rewrite endsWithHyphen_cons in H. now rewrite IH.
Qed.

Lemma alnum_not_hyphen c : isAlnum c = true -> Ascii.eqb c "-"%char = false.
Proof.
  intros H. destruct (Ascii.eqb c "-"%char) eqn:E; [|reflexivity].
  apply Ascii.eqb_eq in E. subst c. discriminate.
Qed.

(** X19: [toSlug] leaves a task id unchanged when lower-casing does, the
    slug pattern accepts it, it has no two hyphens in a row and at most 30
    characters. *)
Theorem X19_toSlug_keeps_a_clean_id (toLowerCase : string -> string) taskId :
  toLowerCase taskId = taskId ->
  test SLUG_RE taskId = true ->
  noDoubleHyphen (list_ascii_of_string taskId) = true ->
  String.length taskId <= 30 ->
  toSlug toLowerCase taskId = taskId.
Proof.
  intros Hlow Hslug Hnd Hlen. unfold toSlug. rewrite Hlow.
  rewrite test_SLUG_RE in Hslug.
  set (l := list_ascii_of_string taskId) in *.
  assert (Hl : string_of_list_ascii l = taskId)
    by apply string_of_list_ascii_of_string.
  assert (Hlen' : length l <= 30)
    by (now rewrite <- string_of_list_ascii_length, Hl).
  destruct l as [|a t] eqn:El; [discriminate|].
  unfold isSlug in Hslug.
  apply andb_true_iff in Hslug. destruct Hslug as [Hslug Hlast].
  apply andb_true_iff in Hslug. destruct Hslug as [Ha Ht].
  assert (Hall : forallb isAlnumHyphen (a :: t) = true)
    by (simpl; now rewrite (alnum_alnumHyphen a Ha), Ht).
  assert (Hstart : startsWithHyphen (a :: t) = false)
    by (simpl; now apply alnum_not_hyphen).
  assert (Hend : endsWithHyphen (a :: t) = false)
    by (simpl; now apply alnum_not_hyphen).
  rewrite (replaceOthersByHyphen_id _ Hall), (collapseHyphens_id _ Hnd).
  unfold trimHyphens.
  assert (Hlead : stripLeadingHyphen (a :: t) = a :: t)
    by (simpl in *; now rewrite Hstart).
  rewrite Hlead, (stripTrailingHyphen_id _ Hend).
  rewrite firstn_all2 by exact Hlen'.
  rewrite (stripTrailingHyphen_id _ Hend). cbv zeta.
  rewrite Hl. rewrite <- Hl at 1. reflexivity.
Qed.

Lemma X19_witness : toSlug (fun s => s) "my-app" = "my-app".
Proof.
  apply X19_toSlug_keeps_a_clean_id; try reflexivity. simpl. lia.
Defined.

Lemma replaceOthersByHyphen_no_alnum l :
  forallb (fun c => negb (isAlnum c)) l = true ->
  forallb (fun c => Ascii.eqb c "-"%char) (replaceOthersByHyphen l) = true.
Proof.
  induction l as [|c l IH]; [reflexivity|]. simpl. intros H.
  apply andb_true_iff in H. destruct H as [Hc Hl]. rewrite (IH Hl), andb_true_r.
  destruct (isAlnumHyphen c) eqn:E; [|reflexivity].
  destruct (alnumHyphen_cases c E) as [H | ->]; [|reflexivity].
  rewrite H in Hc. discriminate.
Qed.

Lemma collapseHyphens_all_hyphens l :
  forallb (fun c => Ascii.eqb c "-"%char) l = true ->
  collapseHyphens l = match l with [] => [] | _ :: _ => ["-"%char] end.
Proof.
  induction l as [|c l IH]; [reflexivity|]. simpl forallb. intros H.
  apply andb_true_iff in H. destruct H as [Hc Hl].
  rewrite collapseHyphens_cons, Hc. apply Ascii.eqb_eq in Hc. subst c.
  destruct l as [|c' l']; [reflexivity|].
  rewrite (IH Hl). simpl in Hl. apply andb_true_iff in Hl. now rewrite (proj1 Hl).
Qed.

(** X20: when lower-casing leaves no character of [a-z0-9] in the task id
    (an empty id, or punctuation only), [toSlug] returns [task]. *)
Theorem X20_toSlug_falls_back_to_task (toLowerCase : string -> string) taskId :
  forallb (fun c => negb (isAlnum c)) (list_ascii_of_string (toLowerCase taskId)) = true ->
  toSlug toLowerCase taskId = "task".
Proof.
  intros H. unfold toSlug.
  rewrite (collapseHyphens_all_hyphens _ (replaceOthersByHyphen_no_alnum _ H)).
  destruct (replaceOthersByHyphen _); reflexivity.
Qed.

Lemma X20_witness : toSlug (fun s => s) "_/ !" = "task".
Proof. apply X20_toSlug_falls_back_to_task. reflexivity. Defined.

Lemma firstFreeCandidate_found base s : forall n i k,
  (i <= k < i + Z.of_nat n)%Z ->
  (forall j, (i <= j < k)%Z -> getRoute (candidateName base j) s <> None) ->
  getRoute (candidateName base k) s = None ->
  firstFreeCandidate base s i n = Some (candidateName base k).
Proof.
  induction n as [|n IH]; intros i k Hk Htaken Hfree; [lia|].
  cbn [firstFreeCandidate]. fold (candidateName base i).
  destruct (Z.eq_dec i k) as [->|Hne].
  - now rewrite Hfree.
  - destruct (getRoute (candidateName base i) s) eqn:E.
    + apply IH; [lia | intros j Hj; apply Htaken; lia | exact Hfree].
    + exfalso. apply (Htaken i); [lia | exact E].
Qed.

Lemma firstFreeCandidate_exhausted base s : forall n i,
  (forall j, (i <= j < i + Z.of_nat n)%Z -> getRoute (candidateName base j) s <> None) ->
  firstFreeCandidate base s i n = None.
Proof.
  induction n as [|n IH]; intros i Htaken; [reflexivity|].
  cbn [firstFreeCandidate]. fold (candidateName base i).
  destruct (getRoute (candidateName base i) s) eqn:E.
  - apply IH. intros j Hj. apply Htaken. lia.
  - exfalso. apply (Htaken i); [lia | exact E].
Qed.

Lemma firstFreeCandidate_sound base s : forall n i c,
  firstFreeCandidate base s i n = Some c ->
  getRoute c s = None
  /\ exists k, (i <= k < i + Z.of_nat n)%Z /\ c = candidateName base k.
Proof.
  induction n as [|n IH]; intros i c H; [discriminate|].
  cbn [firstFreeCandidate] in H. fold (candidateName base i) in H.
  destruct (getRoute (candidateName base i) s) eqn:E.
  - apply IH in H. destruct H as (Hfree & k & Hk & ->).
    split; [exact Hfree|]. exists k. split; [lia | reflexivity].
  - injection H as <-. split; [exact E|]. exists i. split; [lia | reflexivity].
Qed.

Lemma firstFreeCandidate_none base s : forall n i,
  firstFreeCandidate base s i n = None ->
  forall j, (i <= j < i + Z.of_nat n)%Z -> getRoute (candidateName base j) s <> None.
Proof.
  induction n as [|n IH]; intros i H j Hj; [lia|].
  cbn [firstFreeCandidate] in H. fold (candidateName base i) in H.
  destruct (getRoute (candidateName base i) s) eqn:E; [|discriminate].
  destruct (Z.eq_dec i j) as [<-|Hne]; [congruence|].
  apply (IH (i + 1)%Z H). lia.
Qed.

(** [uniqueSlug] returns a name that is not registered, unless the base
    and its 98 numbered candidates are all registered. *)
Lemma uniqueSlug_cases dateNow base s :
  getRoute (uniqueSlug dateNow base s) s = None
  \/ (uniqueSlug dateNow base s = candidateName base dateNow
      /\ getRoute base s <> None
      /\ forall j, (2 <= j < 100)%Z -> getRoute (candidateName base j) s <> None).
Proof.
  unfold uniqueSlug. destruct (getRoute base s) eqn:Hb; [|now left].
  destruct (firstFreeCandidate base s 2 98) as [c|] eqn:Hc.
  - left. now apply firstFreeCandidate_sound in Hc.
  - right. split; [reflexivity|]. split; [discriminate|].
    intros j Hj. apply (@firstFreeCandidate_none base s 98 2%Z Hc). simpl. lia.
Qed.

(** X21: [uniqueSlug] returns the base when it is free; otherwise the
    first of [base-2] ... [base-99] that is free; otherwise the base with
    the clock reading appended.  In the first two cases the name returned
    is not registered. *)
Theorem X21_uniqueSlug_first_free dateNow base s :
  (getRoute base s = None -> uniqueSlug dateNow base s = base)
  /\ (forall k, getRoute base s <> None -> (2 <= k < 100)%Z ->
        (forall j, (2 <= j < k)%Z -> getRoute (candidateName base j) s <> None) ->
        getRoute (candidateName base k) s = None ->
        uniqueSlug dateNow base s = candidateName base k)
  /\ (getRoute base s <> None ->
      (forall j, (2 <= j < 100)%Z -> getRoute (candidateName base j) s <> None) ->
      uniqueSlug dateNow base s = candidateName base dateNow)
  /\ (getRoute (uniqueSlug dateNow base s) s = None
      \/ uniqueSlug dateNow base s = candidateName base dateNow).
Proof.
  unfold uniqueSlug. split; [|split; [|split]].
  - now intros ->.
  - intros k Hb Hk Htaken Hfree. destruct (getRoute base s); [|contradiction].
    rewrite (@firstFreeCandidate_found base s 98 2%Z k);
      [reflexivity | simpl; lia | assumption | assumption].
  - intros Hb Htaken. destruct (getRoute base s); [|contradiction].
    rewrite firstFreeCandidate_exhausted; [reflexivity|].
    intros j Hj. apply Htaken. simpl in Hj. lia.
  - destruct (uniqueSlug_cases dateNow base s) as [H | (H & _)];
      unfold uniqueSlug in H; auto.
Qed.

Lemma X21_witness :
  uniqueSlug 1700000000000 "missing" (snd demoAdded) = "missing"
  /\ uniqueSlug 1700000000000 "evt-test" (snd demoAdded) = "evt-test-2".
Proof.
  split.
  - apply (proj1 (X21_uniqueSlug_first_free 1700000000000 "missing" (snd demoAdded))).
    vm_compute. reflexivity.
  - apply (proj1 (proj2 (X21_uniqueSlug_first_free 1700000000000 "evt-test"
                                                   (snd demoAdded))) 2%Z).
    + vm_compute. discriminate.
    + lia.
    + intros j Hj. lia.
    + vm_compute. reflexivity.
Defined.

Lemma last_app_nonempty (t m : list ascii) a :
  m <> [] -> last (t ++ m) a = last m a.
Proof.
  intros Hm. induction t as [|x t IH]; [reflexivity|].
  change (last ((x :: t) ++ m) a) with (last (x :: (t ++ m)) a).
  rewrite <- IH. destruct (t ++ m) as [|y ys] eqn:E; [|reflexivity].
  apply app_eq_nil in E. destruct E as [_ E]. contradiction.
Qed.

Lemma isSlug_append l m :
  isSlug l = true -> m <> [] -> forallb isAlnumHyphen m = true ->
  isAlnum (last m "-"%char) = true ->
  isSlug (l ++ m) = true.
Proof.
  destruct l as [|a t]; [discriminate|]. intros Hl Hm Hall Hlast.
  unfold isSlug in Hl.
  apply andb_true_iff in Hl. destruct Hl as [Hl _].
  apply andb_true_iff in Hl. destruct Hl as [Ha Ht].
  simpl. unfold isSlug. rewrite Ha, forallb_app, Ht, Hall. simpl.
  rewrite last_app_nonempty by exact Hm.
  destruct m as [|y ys]; [contradiction|].
  now rewrite (last_nonempty_default ys y a "-"%char).
Qed.

Lemma digits_alnumHyphen l : forallb isDigit l = true -> forallb isAlnumHyphen l = true.
Proof.
  induction l as [|c l IH]; [reflexivity|]. simpl. intros H.
  apply andb_true_iff in H. destruct H as [Hc Hl].
  now rewrite (alnum_alnumHyphen c (digit_is_alnum c Hc)), IH.
Qed.

Lemma digits_last_alnum l x : forallb isDigit l = true -> l <> [] ->
  isAlnum (last l x) = true.
Proof.
  intros H Hne. apply digit_is_alnum.
  destruct (@exists_last _ l Hne) as (l' & c & ->).
  rewrite last_last. rewrite forallb_app in H. apply andb_true_iff in H.
  destruct H as [_ H]. simpl in H. now rewrite andb_true_r in H.
Qed.

Lemma candidateName_slug base i :
  test SLUG_RE base = true -> test SLUG_RE (candidateName base i) = true.
Proof.
  rewrite !test_SLUG_RE. intros Hb. unfold candidateName.
  rewrite list_ascii_of_string_app.
  change (list_ascii_of_string ("-" +++ Number_toString i))
    with ("-"%char :: list_ascii_of_string (Number_toString i)).
  destruct (Number_toString_shape i) as (sign & c & ds & -> & Hsign & Hd).
  apply isSlug_append; [exact Hb | discriminate | |].
  - simpl. rewrite forallb_app, (digits_alnumHyphen _ Hd), andb_true_r.
    destruct Hsign as [-> | ->]; reflexivity.
  - change (last ("-"%char :: sign ++ c :: ds) "-"%char)
      with (last (("-"%char :: sign) ++ c :: ds) "-"%char).
    rewrite last_app_nonempty by discriminate.
    apply digits_last_alnum; [exact Hd | discriminate].
Qed.

Lemma uniqueSlug_slug dateNow base s :
  test SLUG_RE base = true -> test SLUG_RE (uniqueSlug dateNow base s) = true.
Proof.
  intros Hb. unfold uniqueSlug. destruct (getRoute base s); [|exact Hb].
  destruct (firstFreeCandidate base s 2 98) as [c|] eqn:Hc.
  - apply firstFreeCandidate_sound in Hc. destruct Hc as (_ & k & _ & ->).
    now apply candidateName_slug.
  - now apply candidateName_slug.
Qed.

(** X22: the name the integration registers, [uniqueSlug(toSlug(taskId))],
    always passes the slug pattern, so [addRoute] never rejects it as
    invalid.  It is a name that is not registered, unless the base, its 98
    numbered candidates are all registered and the name is the base with
    the clock reading; and when it is not registered [addRoute] registers
    the route under it. *)
Theorem X22_integration_name_is_accepted
        toLowerCase dateNow taskId w targetPort opts s :
  test SLUG_RE (uniqueSlug dateNow (toSlug toLowerCase taskId) s) = true
  /\ (getRoute (uniqueSlug dateNow (toSlug toLowerCase taskId) s) s = None
      \/ (uniqueSlug dateNow (toSlug toLowerCase taskId) s
           = candidateName (toSlug toLowerCase taskId) dateNow
          /\ getRoute (toSlug toLowerCase taskId) s <> None
          /\ forall j, (2 <= j < 100)%Z ->
                getRoute (candidateName (toSlug toLowerCase taskId) j) s <> None))
  /\ (getRoute (uniqueSlug dateNow (toSlug toLowerCase taskId) s) s = None ->
      exists route s',
        addRoute w (uniqueSlug dateNow (toSlug toLowerCase taskId) s)
                 targetPort opts s = (inr route, s')
        /\ getRoute (uniqueSlug dateNow (toSlug toLowerCase taskId) s) s' = Some route).
Proof.
  set (slug := uniqueSlug dateNow (toSlug toLowerCase taskId) s).
  assert (Hslug : test SLUG_RE slug = true) by (apply uniqueSlug_slug, toSlug_props).
  split; [exact Hslug|]. split; [apply uniqueSlug_cases|].
  intros Hfree.
  assert (Hhas : Map_has slug (routes s) = false)
    by (unfold Map_has; unfold getRoute in Hfree; now rewrite Hfree).
  pose proof (addRoute_fresh w slug targetPort opts s Hslug Hhas) as Hfresh.
  cbv zeta in Hfresh. rewrite Hfresh. eexists _, _. split; [reflexivity|].
  unfold getRoute. cbn [routes]. apply Map_get_set_same.
Qed.

Lemma X22_witness :
  test SLUG_RE (uniqueSlug 1700000000000 (toSlug (fun x => x) "evt test") (snd demoAdded))
  = true
  /\ exists route s',
       addRoute calmWorld
                (uniqueSlug 1700000000000 (toSlug (fun x => x) "evt test")
                            (snd demoAdded))
                5173 None (snd demoAdded) = (inr route, s')
       /\ getRoute (uniqueSlug 1700000000000 (toSlug (fun x => x) "evt test")
                               (snd demoAdded)) s' = Some route.
Proof.
  split.
  - apply (proj1 (X22_integration_name_is_accepted
                    (fun x => x) 1700000000000 "evt test" calmWorld 5173 None
                    (snd demoAdded))).
  - apply (proj2 (proj2 (X22_integration_name_is_accepted
                           (fun x => x) 1700000000000 "evt test" calmWorld 5173 None
                           (snd demoAdded)))).
    vm_compute. reflexivity.
Defined.

(* ================================================================== *)
(** ** Properties of the preview listener *)
(* ================================================================== *)

Section Listener.

Variable toLowerCase : string -> string.
Variable parsePort : string -> option Z.

Lemma url_event_run w dateNow evt st url taskId p :
  hp_type evt = "url" ->
  truthyOpt (hp_url evt) = Some url ->
  truthyOpt (hp_taskId evt) = Some taskId ->
  parsePort url = Some p -> p <> 0%Z ->
  onHostPreviewEvent toLowerCase parsePort w dateNow evt st
  = mkIntegration
      (snd (beginAddRoute w (uniqueSlug dateNow (toSlug toLowerCase taskId) (svc st)) p
                          (Some (mkOpts (Some taskId) None)) (svc st)))
      (Map_set taskId (uniqueSlug dateNow (toSlug toLowerCase taskId) (svc st))
               (taskSlugMap st))
      (match fst (beginAddRoute w
                    (uniqueSlug dateNow (toSlug toLowerCase taskId) (svc st)) p
                    (Some (mkOpts (Some taskId) None)) (svc st)) with
       | Suspended call => suspended st ++ [call]
       | Settled _ => suspended st
       end).
Proof.
  intros Hty Hurl Htask Hparse Hp. unfold onHostPreviewEvent.
  rewrite Hty. cbn [String.eqb Ascii.eqb Bool.eqb andb]. rewrite Hurl, Htask, Hparse.
  unfold truthyNumber. destruct (Z.eqb p 0) eqn:E.
  - apply Z.eqb_eq in E. contradiction.
  - cbn [negb]. destruct (beginAddRoute _ _ _ _ _). reflexivity.
Qed.

Lemma exit_event_run w dateNow evt st taskId slug :
  hp_type evt = "exit" ->
  truthyOpt (hp_taskId evt) = Some taskId ->
  truthyOpt (Map_get taskId (taskSlugMap st)) = Some slug ->
  onHostPreviewEvent toLowerCase parsePort w dateNow evt st
  = mkIntegration
      (snd (updateRouteStatus w slug ProxyRouteStatus.stopped (svc st)))
      (taskSlugMap st) (suspended st).
Proof.
  intros Hty Htask Hslug. unfold onHostPreviewEvent.
  rewrite Hty. cbn [String.eqb Ascii.eqb Bool.eqb andb]. now rewrite Htask, Hslug.
Qed.

End Listener.

Lemma slug_truthy name : test SLUG_RE name = true -> truthyString name = true.
Proof.
  intros H. apply test_SLUG_RE_chars in H. destruct H as (Hne & _).
  destruct name; [contradiction | reflexivity].
Qed.

Section ListenerProperties.

Variable toLowerCase : string -> string.
Variable parsePort : string -> option Z.

(** A url event on an engine that has a server: the call of [addRoute]
    has run to its end when the listener returns. *)
Lemma url_event_listening w dateNow evt st url taskId p srv :
  hp_type evt = "url" ->
  truthyOpt (hp_url evt) = Some url ->
  truthyOpt (hp_taskId evt) = Some taskId ->
  parsePort url = Some p -> p <> 0%Z ->
  server (svc st) = Some srv ->
  onHostPreviewEvent toLowerCase parsePort w dateNow evt st
  = mkIntegration
      (snd (addRoute w (uniqueSlug dateNow (toSlug toLowerCase taskId) (svc st)) p
                     (Some (mkOpts (Some taskId) None)) (svc st)))
      (Map_set taskId (uniqueSlug dateNow (toSlug toLowerCase taskId) (svc st))
               (taskSlugMap st))
      (suspended st).
Proof.
  intros Hty Hurl Htask Hparse Hp Hsrv.
  rewrite (url_event_run toLowerCase parsePort w dateNow evt st Hty Hurl Htask Hparse Hp).
  rewrite (beginAddRoute_settled w _ p _ (svc st) Hsrv). reflexivity.
Qed.

(** A url event on an engine without a server, for a name that is free:
    the service is as it was when the listener returns, and the call of
    [addRoute] is suspended. *)
Lemma url_event_stopped w dateNow evt st url taskId p :
  hp_type evt = "url" ->
  truthyOpt (hp_url evt) = Some url ->
  truthyOpt (hp_taskId evt) = Some taskId ->
  parsePort url = Some p -> p <> 0%Z ->
  getRoute (uniqueSlug dateNow (toSlug toLowerCase taskId) (svc st)) (svc st) = None ->
  server (svc st) = None ->
  onHostPreviewEvent toLowerCase parsePort w dateNow evt st
  = mkIntegration
      (svc st)
      (Map_set taskId (uniqueSlug dateNow (toSlug toLowerCase taskId) (svc st))
               (taskSlugMap st))
      (suspended st
       ++ [mkPending (uniqueSlug dateNow (toSlug toLowerCase taskId) (svc st)) p
                     (Some (mkOpts (Some taskId) None))]).
Proof.
  intros Hty Hurl Htask Hparse Hp Hfree Hsrv.
  rewrite (url_event_run toLowerCase parsePort w dateNow evt st Hty Hurl Htask Hparse Hp).
  rewrite beginAddRoute_suspended; [reflexivity | | | exact Hsrv].
  - apply uniqueSlug_slug, toSlug_props.
  - unfold Map_has. unfold getRoute in Hfree. now rewrite Hfree.
Qed.

Lemma resumeAddRoute_stopped w name tp o s :
  test SLUG_RE name = true -> Map_has name (routes s) = false -> server s = None ->
  resumeAddRoute w (mkPending name tp o) s = addRoute w name tp o s.
Proof.
  intros H1 H2 H3. rewrite addRoute_begin_resume.
  now rewrite (beginAddRoute_suspended w name tp o s H1 H2 H3).
Qed.

(** Once the call that a url event started has run to its end, with
    nothing in between, the state is the one an awaited [addRoute] gives. *)
Lemma url_event_settled w w' dateNow evt st url taskId p :
  hp_type evt = "url" ->
  truthyOpt (hp_url evt) = Some url ->
  truthyOpt (hp_taskId evt) = Some taskId ->
  parsePort url = Some p -> p <> 0%Z ->
  getRoute (uniqueSlug dateNow (toSlug toLowerCase taskId) (svc st)) (svc st) = None ->
  suspended st = [] ->
  exists w0,
    settle w' (onHostPreviewEvent toLowerCase parsePort w dateNow evt st)
    = mkIntegration
        (snd (addRoute w0 (uniqueSlug dateNow (toSlug toLowerCase taskId) (svc st)) p
                       (Some (mkOpts (Some taskId) None)) (svc st)))
        (Map_set taskId (uniqueSlug dateNow (toSlug toLowerCase taskId) (svc st))
                 (taskSlugMap st))
        [].
Proof.
  intros Hty Hurl Htask Hparse Hp Hfree Hnone.
  destruct (server (svc st)) as [srv|] eqn:Hsrv.
  - exists w.
    rewrite (url_event_listening w dateNow evt st Hty Hurl Htask Hparse Hp Hsrv).
    unfold settle. cbn [suspended]. rewrite Hnone. reflexivity.
  - exists w'.
    rewrite (url_event_stopped w dateNow evt st Hty Hurl Htask Hparse Hp Hfree Hsrv).
    unfold settle. cbn [suspended svc taskSlugMap]. rewrite Hnone. cbn [app].
    rewrite resumeAddRoute_stopped; [reflexivity | | | exact Hsrv].
    + apply uniqueSlug_slug, toSlug_props.
    + unfold Map_has. unfold getRoute in Hfree. now rewrite Hfree.
Qed.

Lemma url_event_route w w' dateNow evt st url taskId p :
  hp_type evt = "url" ->
  truthyOpt (hp_url evt) = Some url ->
  truthyOpt (hp_taskId evt) = Some taskId ->
  parsePort url = Some p -> p <> 0%Z ->
  getRoute (uniqueSlug dateNow (toSlug toLowerCase taskId) (svc st)) (svc st) = None ->
  suspended st = [] ->
  exists route,
    getRoute (uniqueSlug dateNow (toSlug toLowerCase taskId) (svc st))
             (svc (settle w' (onHostPreviewEvent toLowerCase parsePort w dateNow evt st)))
    = Some route
    /\ Map_get taskId
               (taskSlugMap
                  (settle w' (onHostPreviewEvent toLowerCase parsePort w dateNow evt st)))
       = Some (uniqueSlug dateNow (toSlug toLowerCase taskId) (svc st))
    /\ ProxyRoute.name route = uniqueSlug dateNow (toSlug toLowerCase taskId) (svc st)
    /\ ProxyRoute.targetPort route = p
    /\ ProxyRoute.targetHost route = "127.0.0.1"
    /\ ProxyRoute.taskId route = Some taskId
    /\ ProxyRoute.status route = ProxyRouteStatus.running
    /\ getRoutes
         (svc (settle w' (onHostPreviewEvent toLowerCase parsePort w dateNow evt st)))
       = getRoutes (svc st) ++ [route].
Proof.
  intros Hty Hurl Htask Hparse Hp Hfree Hnone.
  destruct (url_event_settled w w' dateNow evt st Hty Hurl Htask Hparse Hp Hfree Hnone)
    as (w0 & ->).
  set (slug := uniqueSlug dateNow (toSlug toLowerCase taskId) (svc st)) in *.
  assert (Hslug : test SLUG_RE slug = true) by (apply uniqueSlug_slug, toSlug_props).
  assert (Hhas : Map_has slug (routes (svc st)) = false)
    by (unfold Map_has; unfold getRoute in Hfree; now rewrite Hfree).
  pose proof (addRoute_fresh w0 slug p (Some (mkOpts (Some taskId) None)) (svc st)
                             Hslug Hhas) as Hfresh.
  cbv zeta in Hfresh. rewrite Hfresh. cbn [svc taskSlugMap snd].
  eexists. split; [unfold getRoute; cbn [routes]; apply Map_get_set_same|].
  split; [apply Map_get_set_same|].
  repeat (split; [reflexivity|]).
  unfold getRoutes. cbn [routes].
  rewrite (proj1 (afterAutoStart_keeps w0 (svc st))).
  now apply Map_set_values_fresh.
Qed.

(** X23: a url event with a task id, a url and a port that [parsePort]
    finds starts, when the chosen name is free, a call of [addRoute] for
    it and records the name for the task in [taskSlugMap].  On an engine
    that has a server the call has run when the listener returns; on an
    engine without one the service is unchanged at that point and the call
    is suspended.  Once the call has run, a running route is registered
    under [uniqueSlug(toSlug(taskId))] that targets that port on the
    loopback address and carries the task id, and it is listed last. *)
Theorem X23_url_event_registers_a_route w w' dateNow evt st url taskId p :
  hp_type evt = "url" ->
  truthyOpt (hp_url evt) = Some url ->
  truthyOpt (hp_taskId evt) = Some taskId ->
  parsePort url = Some p -> p <> 0%Z ->
  getRoute (uniqueSlug dateNow (toSlug toLowerCase taskId) (svc st)) (svc st) = None ->
  suspended st = [] ->
  match server (svc st) with
  | Some _ =>
      suspended (onHostPreviewEvent toLowerCase parsePort w dateNow evt st) = []
  | None =>
      svc (onHostPreviewEvent toLowerCase parsePort w dateNow evt st) = svc st
      /\ suspended (onHostPreviewEvent toLowerCase parsePort w dateNow evt st)
         = [mkPending (uniqueSlug dateNow (toSlug toLowerCase taskId) (svc st)) p
                      (Some (mkOpts (Some taskId) None))]
  end
  /\ Map_get taskId
             (taskSlugMap (onHostPreviewEvent toLowerCase parsePort w dateNow evt st))
     = Some (uniqueSlug dateNow (toSlug toLowerCase taskId) (svc st))
  /\ exists route,
    getRoute (uniqueSlug dateNow (toSlug toLowerCase taskId) (svc st))
             (svc (settle w' (onHostPreviewEvent toLowerCase parsePort w dateNow evt st)))
    = Some route
    /\ Map_get taskId
               (taskSlugMap
                  (settle w' (onHostPreviewEvent toLowerCase parsePort w dateNow evt st)))
       = Some (uniqueSlug dateNow (toSlug toLowerCase taskId) (svc st))
    /\ ProxyRoute.name route = uniqueSlug dateNow (toSlug toLowerCase taskId) (svc st)
    /\ ProxyRoute.targetPort route = p
    /\ ProxyRoute.targetHost route = "127.0.0.1"
    /\ ProxyRoute.taskId route = Some taskId
    /\ ProxyRoute.status route = ProxyRouteStatus.running
    /\ getRoutes
         (svc (settle w' (onHostPreviewEvent toLowerCase parsePort w dateNow evt st)))
       = getRoutes (svc st) ++ [route].
Proof.
  intros Hty Hurl Htask Hparse Hp Hfree Hnone. split; [|split].
  - destruct (server (svc st)) as [srv|] eqn:Hsrv.
    + rewrite (url_event_listening w dateNow evt st Hty Hurl Htask Hparse Hp Hsrv).
      exact Hnone.
    + rewrite (url_event_stopped w dateNow evt st Hty Hurl Htask Hparse Hp Hfree Hsrv).
      cbn [svc suspended]. rewrite Hnone. split; reflexivity.
  - rewrite (url_event_run toLowerCase parsePort w dateNow evt st Hty Hurl Htask Hparse Hp).
    cbn [taskSlugMap]. apply Map_get_set_same.
  - exact (url_event_route w w' dateNow evt st Hty Hurl Htask Hparse Hp Hfree Hnone).
Qed.

Lemma exit_event_route w dateNow evt st taskId slug route :
  hp_type evt = "exit" ->
  truthyOpt (hp_taskId evt) = Some taskId ->
  Map_get taskId (taskSlugMap st) = Some slug -> truthyString slug = true ->
  getRoute slug (svc st) = Some route ->
  getRoute slug (svc (onHostPreviewEvent toLowerCase parsePort w dateNow evt st))
  = Some (ProxyRoute.with_status route ProxyRouteStatus.stopped)
  /\ routeNames (svc (onHostPreviewEvent toLowerCase parsePort w dateNow evt st))
     = routeNames (svc st)
  /\ taskSlugMap (onHostPreviewEvent toLowerCase parsePort w dateNow evt st)
     = taskSlugMap st
  /\ published (trace (svc (onHostPreviewEvent toLowerCase parsePort w dateNow evt st)))
     = published (trace (svc st))
       ++ [ProxyEvent.mk ProxyEventType.route_status
             (Some (ProxyRoute.with_status route ProxyRouteStatus.stopped)) None
             (clock w (ticks (svc st)))].
Proof.
  intros Hty Htask Hmap Htruthy Hget.
  assert (Hslug : truthyOpt (Map_get taskId (taskSlugMap st)) = Some slug)
    by (rewrite Hmap; simpl; now rewrite Htruthy).
  rewrite (exit_event_run toLowerCase parsePort w dateNow evt st Hty Htask Hslug).
  unfold getRoute in Hget.
  rewrite (updateRouteStatus_present w slug ProxyRouteStatus.stopped (svc st) Hget).
  cbn [svc taskSlugMap snd]. unfold getRoute, routeNames. cbn [routes trace].
  split; [apply Map_get_set_same|]. split.
  { rewrite Map_set_keys. unfold Map_has. now rewrite Hget. }
  split; [reflexivity|].
  now rewrite published_app, published_emission.
Qed.

(** X24: an exit event for a task whose name is recorded and registered
    sets the status of that route to stopped and publishes one route:status
    event; the route stays in the registry, under the same name and at the
    same place, and the record of the task stays in [taskSlugMap]. *)
Theorem X24_exit_event_marks_the_route_stopped w dateNow evt st taskId slug route :
  hp_type evt = "exit" ->
  truthyOpt (hp_taskId evt) = Some taskId ->
  Map_get taskId (taskSlugMap st) = Some slug -> truthyString slug = true ->
  getRoute slug (svc st) = Some route ->
  getRoute slug (svc (onHostPreviewEvent toLowerCase parsePort w dateNow evt st))
  = Some (ProxyRoute.with_status route ProxyRouteStatus.stopped)
  /\ routeNames (svc (onHostPreviewEvent toLowerCase parsePort w dateNow evt st))
     = routeNames (svc st)
  /\ taskSlugMap (onHostPreviewEvent toLowerCase parsePort w dateNow evt st)
     = taskSlugMap st
  /\ published (trace (svc (onHostPreviewEvent toLowerCase parsePort w dateNow evt st)))
     = published (trace (svc st))
       ++ [ProxyEvent.mk ProxyEventType.route_status
             (Some (ProxyRoute.with_status route ProxyRouteStatus.stopped)) None
             (clock w (ticks (svc st)))].
Proof. apply exit_event_route. Qed.

(** X25: the listener does nothing at all for an event without a task id,
    for an event that is neither a url nor an exit event, for a url event
    without a url or whose url gives no port (or port 0), and for an exit
    event of a task that has no recorded name. *)
Theorem X25_listener_ignores w dateNow evt st :
  (truthyOpt (hp_taskId evt) = None ->
   onHostPreviewEvent toLowerCase parsePort w dateNow evt st = st)
  /\ (hp_type evt <> "url" -> hp_type evt <> "exit" ->
      onHostPreviewEvent toLowerCase parsePort w dateNow evt st = st)
  /\ (hp_type evt = "url" ->
      (truthyOpt (hp_url evt) = None
       \/ exists url, truthyOpt (hp_url evt) = Some url
                      /\ (parsePort url = None \/ parsePort url = Some 0%Z)) ->
      onHostPreviewEvent toLowerCase parsePort w dateNow evt st = st)
  /\ (forall taskId,
        hp_type evt = "exit" -> truthyOpt (hp_taskId evt) = Some taskId ->
        truthyOpt (Map_get taskId (taskSlugMap st)) = None ->
        onHostPreviewEvent toLowerCase parsePort w dateNow evt st = st).
Proof.
  unfold onHostPreviewEvent. split; [|split; [|split]].
  - intros ->. destruct (String.eqb (hp_type evt) "url");
      [destruct (truthyOpt (hp_url evt))|];
      destruct (String.eqb (hp_type evt) "exit"); reflexivity.
  - intros H1 H2. apply String.eqb_neq in H1, H2. rewrite H1, H2.
    destruct (truthyOpt (hp_taskId evt)); reflexivity.
  - intros -> H. cbn [String.eqb Ascii.eqb Bool.eqb andb].
    destruct H as [-> | (url & -> & H)].
    + destruct (truthyOpt (hp_taskId evt)); reflexivity.
    + destruct (truthyOpt (hp_taskId evt)); [|reflexivity].
      destruct H as [-> | ->]; reflexivity.
  - intros taskId -> -> ->. reflexivity.
Qed.

(** X26: a task's route outlives the task.  After a url event that
    started the registration of a route for a task, the exit event of that
    task leaves the route registered under the same name and target.  Its
    status is stopped when the registration had run before the exit event;
    on an engine without a server, an exit event that arrives while the
    registration is suspended changes nothing, and the route is running
    once the registration has run. *)
Theorem X26_url_then_exit_keeps_the_route
        w w1 w' dateNow dateNow' evt evt' st url taskId p :
  hp_type evt = "url" ->
  truthyOpt (hp_url evt) = Some url ->
  truthyOpt (hp_taskId evt) = Some taskId ->
  parsePort url = Some p -> p <> 0%Z ->
  getRoute (uniqueSlug dateNow (toSlug toLowerCase taskId) (svc st)) (svc st) = None ->
  suspended st = [] ->
  hp_type evt' = "exit" ->
  truthyOpt (hp_taskId evt') = Some taskId ->
  (exists route,
    getRoute (uniqueSlug dateNow (toSlug toLowerCase taskId) (svc st))
             (svc (onHostPreviewEvent toLowerCase parsePort w' dateNow' evt'
                     (settle w1
                        (onHostPreviewEvent toLowerCase parsePort w dateNow evt st))))
    = Some route
    /\ ProxyRoute.status route = ProxyRouteStatus.stopped
    /\ ProxyRoute.targetPort route = p
    /\ ProxyRoute.taskId route = Some taskId
    /\ routeNames (svc (onHostPreviewEvent toLowerCase parsePort w' dateNow' evt'
                          (settle w1
                             (onHostPreviewEvent toLowerCase parsePort w dateNow evt
                                                 st))))
       = routeNames (svc st)
         ++ [uniqueSlug dateNow (toSlug toLowerCase taskId) (svc st)])
  /\ (server (svc st) = None ->
      onHostPreviewEvent toLowerCase parsePort w' dateNow' evt'
        (onHostPreviewEvent toLowerCase parsePort w dateNow evt st)
      = onHostPreviewEvent toLowerCase parsePort w dateNow evt st
      /\ exists route,
        getRoute (uniqueSlug dateNow (toSlug toLowerCase taskId) (svc st))
                 (svc (settle w1
                         (onHostPreviewEvent toLowerCase parsePort w' dateNow' evt'
                            (onHostPreviewEvent toLowerCase parsePort w dateNow evt
                                                st))))
        = Some route
        /\ ProxyRoute.status route = ProxyRouteStatus.running
        /\ ProxyRoute.targetPort route = p
        /\ ProxyRoute.taskId route = Some taskId).
Proof.
  intros Hty Hurl Htask Hparse Hp Hfree Hnone Hty' Htask'.
  destruct (url_event_route w w1 dateNow evt st Hty Hurl Htask Hparse Hp Hfree Hnone)
    as (route & Hget & Hmap & Hname & Hport & _ & Htid & Hstatus & Hlist).
  assert (Hslug : test SLUG_RE (uniqueSlug dateNow (toSlug toLowerCase taskId) (svc st))
                  = true) by (apply uniqueSlug_slug, toSlug_props).
  assert (Htruthy : truthyString (uniqueSlug dateNow (toSlug toLowerCase taskId) (svc st))
                    = true) by (now apply slug_truthy).
  assert (Hhas : Map_has (uniqueSlug dateNow (toSlug toLowerCase taskId) (svc st))
                         (routes (svc st)) = false)
    by (unfold Map_has; unfold getRoute in Hfree; now rewrite Hfree).
  split.
  - destruct (exit_event_route w' dateNow' evt'
                (settle w1 (onHostPreviewEvent toLowerCase parsePort w dateNow evt st))
                Hty' Htask' Hmap Htruthy Hget)
      as (Hget2 & Hnames & _).
    exists (ProxyRoute.with_status route ProxyRouteStatus.stopped).
    split; [exact Hget2|]. split; [reflexivity|].
    split; [exact Hport|]. split; [exact Htid|].
    rewrite Hnames.
    destruct (url_event_settled w w1 dateNow evt st Hty Hurl Htask Hparse Hp Hfree Hnone)
      as (w0 & ->).
    pose proof (addRoute_fresh w0 _ p (Some (mkOpts (Some taskId) None)) (svc st)
                               Hslug Hhas) as Hfresh.
    cbv zeta in Hfresh. rewrite Hfresh. unfold routeNames. cbn [svc snd routes].
    rewrite Map_set_keys, (proj1 (afterAutoStart_keeps w0 (svc st))). now rewrite Hhas.
  - intros Hsrv.
    assert (Hexit : onHostPreviewEvent toLowerCase parsePort w' dateNow' evt'
                      (onHostPreviewEvent toLowerCase parsePort w dateNow evt st)
                    = onHostPreviewEvent toLowerCase parsePort w dateNow evt st).
    { rewrite (url_event_stopped w dateNow evt st Hty Hurl Htask Hparse Hp Hfree Hsrv).
      erewrite exit_event_run;
        [| exact Hty' | exact Htask'
         | cbn [taskSlugMap]; rewrite Map_get_set_same; cbn [truthyOpt];
           rewrite Htruthy; reflexivity].
      cbn [svc taskSlugMap suspended].
      rewrite updateRouteStatus_absent by exact Hfree. reflexivity. }
    split; [exact Hexit|]. rewrite Hexit.
    exists route. auto.
Qed.

End ListenerProperties.

Lemma X23_witness :
  (svc (onHostPreviewEvent asciiLower demoParsePort calmWorld demoNow demoUrlEvent
                           coldIntegration)
   = svc coldIntegration
   /\ suspended (onHostPreviewEvent asciiLower demoParsePort calmWorld demoNow
                                    demoUrlEvent coldIntegration)
      = [mkPending (uniqueSlug demoNow (toSlug asciiLower "Task #42")
                               (svc coldIntegration))
                   5173%Z (Some (mkOpts (Some "Task #42") None))])
  /\ Map_get "Task #42"
             (taskSlugMap (onHostPreviewEvent asciiLower demoParsePort calmWorld
                                              demoNow demoUrlEvent coldIntegration))
     = Some (uniqueSlug demoNow (toSlug asciiLower "Task #42") (svc coldIntegration))
  /\ exists route,
    getRoute (uniqueSlug demoNow (toSlug asciiLower "Task #42") (svc coldIntegration))
             (svc (settle calmWorld
                     (onHostPreviewEvent asciiLower demoParsePort calmWorld demoNow
                                         demoUrlEvent coldIntegration)))
    = Some route
    /\ Map_get "Task #42"
               (taskSlugMap
                  (settle calmWorld
                     (onHostPreviewEvent asciiLower demoParsePort calmWorld demoNow
                                         demoUrlEvent coldIntegration)))
       = Some (uniqueSlug demoNow (toSlug asciiLower "Task #42") (svc coldIntegration))
    /\ ProxyRoute.name route
       = uniqueSlug demoNow (toSlug asciiLower "Task #42") (svc coldIntegration)
    /\ ProxyRoute.targetPort route = 5173%Z
    /\ ProxyRoute.targetHost route = "127.0.0.1"
    /\ ProxyRoute.taskId route = Some "Task #42"
    /\ ProxyRoute.status route = ProxyRouteStatus.running
    /\ getRoutes
         (svc (settle calmWorld
                 (onHostPreviewEvent asciiLower demoParsePort calmWorld demoNow
                                     demoUrlEvent coldIntegration)))
       = getRoutes (svc coldIntegration) ++ [route].
Proof.
  apply (@X23_url_event_registers_a_route
           asciiLower demoParsePort calmWorld calmWorld demoNow demoUrlEvent
           coldIntegration "http://localhost:5173/" "Task #42" 5173%Z);
    try (vm_compute; reflexivity).
  discriminate.
Defined.

Lemma X24_witness :
  getRoute "task-42"
           (svc (onHostPreviewEvent asciiLower demoParsePort calmWorld demoNow
                                    demoExitEvent demoAfterUrl))
  = Some (ProxyRoute.with_status
            (newRoute "task-42" 5173 (Some (mkOpts (Some "Task #42") None))
                      (Some 18900%Z) (isoClock 3))
            ProxyRouteStatus.stopped)
  /\ routeNames (svc (onHostPreviewEvent asciiLower demoParsePort calmWorld demoNow
                                         demoExitEvent demoAfterUrl))
     = routeNames (svc demoAfterUrl)
  /\ taskSlugMap (onHostPreviewEvent asciiLower demoParsePort calmWorld demoNow
                                     demoExitEvent demoAfterUrl)
     = taskSlugMap demoAfterUrl
  /\ published (trace (svc (onHostPreviewEvent asciiLower demoParsePort calmWorld
                                               demoNow demoExitEvent demoAfterUrl)))
     = published (trace (svc demoAfterUrl))
       ++ [ProxyEvent.mk ProxyEventType.route_status
             (Some (ProxyRoute.with_status
                      (newRoute "task-42" 5173 (Some (mkOpts (Some "Task #42") None))
                                (Some 18900%Z) (isoClock 3))
                      ProxyRouteStatus.stopped))
             None (clock calmWorld (ticks (svc demoAfterUrl)))].
Proof.
  apply (@X24_exit_event_marks_the_route_stopped
           asciiLower demoParsePort calmWorld demoNow demoExitEvent demoAfterUrl
           "Task #42" "task-42");
    vm_compute; reflexivity.
Defined.

Lemma X25_witness :
  onHostPreviewEvent asciiLower demoParsePort calmWorld demoNow
                     (mkHostPreviewEvent "url" (Some "http://localhost/") (Some "t"))
                     demoIntegration
  = demoIntegration
  /\ onHostPreviewEvent asciiLower demoParsePort calmWorld demoNow
                        (mkHostPreviewEvent "setup" None (Some "t")) demoIntegration
     = demoIntegration
  /\ onHostPreviewEvent asciiLower demoParsePort calmWorld demoNow
                        (mkHostPreviewEvent "exit" None (Some "t")) demoIntegration
     = demoIntegration
  /\ onHostPreviewEvent asciiLower demoParsePort calmWorld demoNow
                        (mkHostPreviewEvent "exit" None None) demoIntegration
     = demoIntegration.
Proof.
  split; [|split; [|split]].
  - apply (proj1 (proj2 (proj2 (X25_listener_ignores
             asciiLower demoParsePort calmWorld demoNow
             (mkHostPreviewEvent "url" (Some "http://localhost/") (Some "t"))
             demoIntegration)))).
    + reflexivity.
    + right. exists "http://localhost/". split; [reflexivity | left; reflexivity].
  - apply (proj1 (proj2 (X25_listener_ignores
             asciiLower demoParsePort calmWorld demoNow
             (mkHostPreviewEvent "setup" None (Some "t")) demoIntegration)));
      discriminate.
  - apply (proj2 (proj2 (proj2 (X25_listener_ignores
             asciiLower demoParsePort calmWorld demoNow
             (mkHostPreviewEvent "exit" None (Some "t")) demoIntegration))) "t");
      reflexivity.
  - apply (proj1 (X25_listener_ignores
             asciiLower demoParsePort calmWorld demoNow
             (mkHostPreviewEvent "exit" None None) demoIntegration)).
    reflexivity.
Defined.

Lemma X26_witness :
  (exists route,
    getRoute (uniqueSlug demoNow (toSlug asciiLower "Task #42") (svc coldIntegration))
             (svc (onHostPreviewEvent asciiLower demoParsePort calmWorld demoNow
                     demoExitEvent
                     (settle calmWorld
                        (onHostPreviewEvent asciiLower demoParsePort calmWorld demoNow
                                            demoUrlEvent coldIntegration))))
    = Some route
    /\ ProxyRoute.status route = ProxyRouteStatus.stopped
    /\ ProxyRoute.targetPort route = 5173%Z
    /\ ProxyRoute.taskId route = Some "Task #42"
    /\ routeNames (svc (onHostPreviewEvent asciiLower demoParsePort calmWorld demoNow
                          demoExitEvent
                          (settle calmWorld
                             (onHostPreviewEvent asciiLower demoParsePort calmWorld
                                                 demoNow demoUrlEvent coldIntegration))))
       = routeNames (svc coldIntegration)
         ++ [uniqueSlug demoNow (toSlug asciiLower "Task #42") (svc coldIntegration)])
  /\ (server (svc coldIntegration) = None ->
      onHostPreviewEvent asciiLower demoParsePort calmWorld demoNow demoExitEvent
        (onHostPreviewEvent asciiLower demoParsePort calmWorld demoNow demoUrlEvent
                            coldIntegration)
      = onHostPreviewEvent asciiLower demoParsePort calmWorld demoNow demoUrlEvent
                           coldIntegration
      /\ exists route,
        getRoute (uniqueSlug demoNow (toSlug asciiLower "Task #42")
                             (svc coldIntegration))
                 (svc (settle calmWorld
                         (onHostPreviewEvent asciiLower demoParsePort calmWorld demoNow
                            demoExitEvent
                            (onHostPreviewEvent asciiLower demoParsePort calmWorld
                                                demoNow demoUrlEvent coldIntegration))))
        = Some route
        /\ ProxyRoute.status route = ProxyRouteStatus.running
        /\ ProxyRoute.targetPort route = 5173%Z
        /\ ProxyRoute.taskId route = Some "Task #42").
Proof.
  apply (@X26_url_then_exit_keeps_the_route
           asciiLower demoParsePort calmWorld calmWorld calmWorld demoNow demoNow
           demoUrlEvent demoExitEvent coldIntegration
           "http://localhost:5173/" "Task #42" 5173%Z);
    try (vm_compute; reflexivity).
  discriminate.
Defined.

(* ================================================================== *)
(** ** The two patterns, in words *)
(* ================================================================== *)

(** X27: [SLUG_RE.test(name)] is true exactly when the name is not empty,
    starts with a character of [a-z0-9], continues with characters of
    [a-z0-9-] only and ends with a character of [a-z0-9]. *)
Theorem X27_SLUG_RE_accepts_exactly_the_slugs name :
  test SLUG_RE name = true <->
  exists a t,
    list_ascii_of_string name = a :: t
    /\ isAlnum a = true
    /\ forallb isAlnumHyphen t = true
    /\ isAlnum (last t a) = true.
Proof.
  rewrite test_SLUG_RE. split.
  - destruct (list_ascii_of_string name) as [|a t]; [discriminate|].
    unfold isSlug. intros H.
    apply andb_true_iff in H. destruct H as [H Hlast].
    apply andb_true_iff in H. destruct H as [Ha Ht].
    exists a, t. auto.
  - intros (a & t & -> & Ha & Ht & Hlast). unfold isSlug.
    now rewrite Ha, Ht, Hlast.
Qed.

(** X28: [extractSubdomain] returns a name exactly when the Host header
    (the empty text when the header is missing or empty) is that name,
    then [.localhost], then nothing or a colon and one or more digits, where
    the name starts with a character of [a-z0-9] and continues with
    characters of [a-z0-9-]; the port, if any, plays no part in the
    result. *)
Theorem X28_extractSubdomain_exactly req name :
  extractSubdomain req = Some name <->
  exists suffix,
    list_ascii_of_string (hostOf req)
    = list_ascii_of_string name ++ list_ascii_of_string ".localhost" ++ suffix
    /\ isHostLabel (list_ascii_of_string name) = true
    /\ isPortSuffix suffix = true.
Proof. apply extractSubdomain_spec. Qed.

Lemma X27_witness : test SLUG_RE "my-app" = true.
Proof.
  apply (proj2 (X27_SLUG_RE_accepts_exactly_the_slugs "my-app")).
  exists "m"%char, (list_ascii_of_string "y-app"). repeat split.
Defined.

Lemma X28_witness :
  extractSubdomain (requestTo "my-app.localhost:9000") = Some "my-app".
Proof.
  apply (proj2 (X28_extractSubdomain_exactly (requestTo "my-app.localhost:9000")
                                             "my-app")).
  exists (list_ascii_of_string ":9000"). repeat split.
Defined.

Lemma X11_witness :
  deliveredTo 8 (emission (ProxyEvent.mk ProxyEventType.started None None "t")
                          (listeners (snd (onEvent 7 demoTwoSubscribers))))
  = deliveredTo 8 (emission (ProxyEvent.mk ProxyEventType.started None None "t")
                            (listeners demoTwoSubscribers))
  /\ deliveredTo 8 (emission (ProxyEvent.mk ProxyEventType.started None None "t")
                             (listeners (snd (unsubscribe 7 demoTwoSubscribers))))
     = deliveredTo 8 (emission (ProxyEvent.mk ProxyEventType.started None None "t")
                               (listeners demoTwoSubscribers)).
Proof.
  apply (proj2 (proj2 (proj2 (X11_subscribe_unsubscribe
                                7 demoTwoSubscribers
                                (ProxyEvent.mk ProxyEventType.started None None "t"))))).
  discriminate.
Defined.

(* ================================================================== *)
(** ** Numbers that are no ports *)
(* ================================================================== *)

(** X29: [start] with a port argument outside 0..65535 on an engine
    without a server is rejected with the exception of the first probe:
    nothing is probed or bound, no event is published and the service is
    as it was; the default ports are not tried.  On an engine that has a
    server the argument is not looked at. *)
Theorem X29_start_rejects_a_number_that_is_no_port w p s :
  isLegalPort p = false ->
  (server s = None -> start w (Some p) s = (inl (ERR_SOCKET_BAD_PORT p), s))
  /\ (forall srv, server s = Some srv ->
                  start w (Some p) s = (inr (mkStartResult true (port s) None), s)).
Proof.
  intros Hp. split.
  - intros Hs. rewrite (start_startListening w (Some p) s Hs).
    assert (Hc : candidates (Some p) = [] ++ p :: DEFAULT_PORTS).
    { unfold candidates, truthyNumber. destruct (Z.eqb p 0) eqn:E; [|reflexivity].
      apply Z.eqb_eq in E. subst p. discriminate. }
    unfold startListening, bind. rewrite Hc.
    rewrite (pickAvailablePort_illegal w [] p DEFAULT_PORTS s);
      [| intros q [] | intros q [] | exact Hp].
    cbn [map]. now rewrite addTrace_nil.
  - intros srv Hs. apply (start_running w (Some p) s Hs).
Qed.

Lemma X29_witness :
  start calmWorld (Some 70000%Z) localProxyService
  = (inl (ERR_SOCKET_BAD_PORT 70000), localProxyService).
Proof.
  apply (proj1 (@X29_start_rejects_a_number_that_is_no_port
                  calmWorld 70000%Z localProxyService eq_refl)).
  reflexivity.
Defined.

(** X30: [addRoute] stores any number as a target port.  For a route whose
    target port is outside 0..65535, a request or an Upgrade request for
    its subdomain stamps [lastAccessed] on the route and then throws:
    nothing is answered, no request or connection to a backend is made and
    the client socket is not destroyed. *)
Theorem X30_handlers_throw_for_a_target_that_is_no_port w req s subdomain route :
  extractSubdomain req = Some subdomain ->
  getRoute subdomain s = Some route ->
  isLegalPort (ProxyRoute.targetPort route) = false ->
  (exists e, handleRequest w req s = (inl e, accessed w subdomain route s))
  /\ handleUpgrade w req s
     = (inl (ERR_SOCKET_BAD_PORT (ProxyRoute.targetPort route)),
        accessed w subdomain route s)
  /\ trace (accessed w subdomain route s) = trace s
  /\ getRoute subdomain (accessed w subdomain route s)
     = Some (ProxyRoute.with_lastAccessed route (clock w (ticks s))).
Proof.
  intros Hsub Hget Hport. split; [|split; [|split]].
  - rewrite (handleRequest_routed_run w req s Hsub Hget).
    apply http_request_bad_port. exact Hport.
  - rewrite (handleUpgrade_routed_run w req s Hsub Hget).
    unfold net_createConnection. rewrite Hport. reflexivity.
  - reflexivity.
  - unfold getRoute, accessed. cbn [routes]. apply Map_get_set_same.
Qed.

Lemma X30_witness :
  fst demoBigAdded
  = inr (newRoute "big" 70000 None (Some 18900%Z) (isoClock 1))
  /\ (exists e,
        handleRequest calmWorld demoBigRequest (snd demoBigAdded)
        = (inl e, accessed calmWorld "big"
                           (newRoute "big" 70000 None (Some 18900%Z) (isoClock 1))
                           (snd demoBigAdded)))
  /\ handleUpgrade calmWorld demoBigRequest (snd demoBigAdded)
     = (inl (ERR_SOCKET_BAD_PORT 70000),
        accessed calmWorld "big"
                 (newRoute "big" 70000 None (Some 18900%Z) (isoClock 1))
                 (snd demoBigAdded)).
Proof.
  split; [vm_compute; reflexivity|].
  pose proof (@X30_handlers_throw_for_a_target_that_is_no_port
                calmWorld demoBigRequest (snd demoBigAdded) "big"
                (newRoute "big" 70000 None (Some 18900%Z) (isoClock 1))) as H.
  destruct H as (H1 & H2 & _); try (vm_compute; reflexivity).
  split; [exact H1 | exact H2].
Defined.
